(** * k8s-rdiff: snapshots, diff classification, resource filter, capture
      and the presentation state machine

    A shallow embedding of the Go sources of k8s-rdiff
    (internal/snapshot, internal/diff, internal/filter, internal/k8s,
    internal/tui, internal/ui and cmd/k8s-rdiff), followed by the
    properties of the design document that can be stated on it and by
    further properties of the code.

    Conventions.
    - A Go [map[string]T] is a [gmap string T]; a nil map reads like the
      empty one.  The order in which [range] visits a map is unspecified
      in Go: every loop over a map takes its visiting order from an
      oracle [range] about which only [RangeOracle] is known.
    - A Go pointer that may be nil is an [option].
    - Code that can panic or return an error returns a [Result]. *)

From Stdlib Require Import ZArith Ascii String.
From stdpp Require Import gmap strings list fin_maps sorting pretty.

Local Open Scope string_scope.
Local Open Scope list_scope.
Local Open Scope nat_scope.

(** ** Outcomes of fallible code *)

Inductive Result (A : Type) : Type :=
| Ok (a : A)            (* normal return *)
| Err (msg : string)    (* a non-nil [error] is returned *)
| Panic (msg : string). (* the goroutine panics *)
Arguments Ok {A} a.
Arguments Err {A} msg.
Arguments Panic {A} msg.

Definition isOk {A} (r : Result A) : bool :=
  match r with
  | Ok _ => true
  | _ => false
  end.

Definition isPanic {A} (r : Result A) : bool :=
  match r with
  | Panic _ => true
  | _ => false
  end.

#[global] Instance Result_fmap : FMap Result := λ A B f r,
  match r with
  | Ok a => Ok (f a)
  | Err msg => Err msg
  | Panic msg => Panic msg
  end.
#[global] Instance Result_ret : MRet Result := λ A a, Ok a.
#[global] Instance Result_bind : MBind Result := λ A B f r,
  match r with
  | Ok a => f a
  | Err msg => Err msg
  | Panic msg => Panic msg
  end.

(** Go's [range m]: each entry of the map exactly once, in some order. *)
Definition RangeOracle {V : Type}
    (range : gmap string V → list (string * V)) : Prop :=
  ∀ m, range m ≡ₚ map_to_list m.

(** ** package snapshot: the data model *)

Module Snap.

(** [time.Time] after [.UTC()]: nanoseconds since the Unix epoch. *)
Definition Time := Z.

Record ResourceInfo := {
  GroupVersionKind : string;
  Namespace : string;
  Name : string;
  UID : string;
  ResourceVersion : string;
  CreationTimestamp : string;
  SpecHash : string;
  Manifest : string  (* YAML representation of the resource *)
}.

(** The [Namespace] field of [Snapshot] is [SnapshotNamespace] here, since
    [ResourceInfo] has a field of the same name. *)
Record Snapshot := {
  Timestamp : Time;
  SnapshotNamespace : string;
  Resources : gmap string ResourceInfo  (* Key: GVK|NS|Name *)
}.

#[global] Instance ResourceInfo_eq_dec : EqDecision ResourceInfo.
Proof. solve_decision. Defined.

(** The map key [CaptureSnapshot] stores a record under:
    [fmt.Sprintf("%s|%s|%s", gvk, namespace, name)]. *)
Definition resourceKey (r : ResourceInfo) : string :=
  GroupVersionKind r +:+ "|" +:+ Namespace r +:+ "|" +:+ Name r.

(** The invariant documented on [Snapshot.Resources] ("Key: GVK|NS|Name"):
    every record is stored under the key made of its own identity. *)
Definition KeyedByIdentity (s : Snapshot) : Prop :=
  map_Forall (λ k r, k = resourceKey r) (Resources s).

End Snap.

(** ** package diff *)

Module DiffType.
Inductive t := Added | Removed | Modified.
#[global] Instance eq_dec : EqDecision t.
Proof. solve_decision. Defined.
End DiffType.

Module Diff.
Import Snap.

Record ResourceDiff := {
  Type_ : DiffType.t;
  Resource : ResourceInfo;
  OldResourceVersion : string;
  NewResourceVersion : string;
  OldSpecHash : string;
  NewSpecHash : string;
  BaselineResource : option ResourceInfo;
  CurrentResource : option ResourceInfo
}.

#[global] Instance ResourceDiff_eq_dec : EqDecision ResourceDiff.
Proof. solve_decision. Defined.

Definition IsPresentInBaseline (r : ResourceDiff) : bool :=
  bool_decide (Type_ r = DiffType.Modified) || bool_decide (Type_ r = DiffType.Removed).

Definition IsPresentInCurrent (r : ResourceDiff) : bool :=
  bool_decide (Type_ r = DiffType.Modified) || bool_decide (Type_ r = DiffType.Added).

Record DiffResult := {
  Added : list ResourceDiff;
  Removed : list ResourceDiff;
  Modified : list ResourceDiff
}.

Definition IsEmpty (d : DiffResult) : bool :=
  Nat.eqb (length (Added d)) 0 && Nat.eqb (length (Removed d)) 0
  && Nat.eqb (length (Modified d)) 0.

(** The three composite literals of [Compare]; fields that a literal does
    not mention keep Go's zero value. *)
Definition addedDiff (res : ResourceInfo) : ResourceDiff :=
  {| Type_ := DiffType.Added; Resource := res;
     OldResourceVersion := ""; NewResourceVersion := "";
     OldSpecHash := ""; NewSpecHash := "";
     BaselineResource := None; CurrentResource := Some res |}.

Definition modifiedDiff (baseRes res : ResourceInfo) : ResourceDiff :=
  {| Type_ := DiffType.Modified; Resource := res;
     OldResourceVersion := ResourceVersion baseRes;
     NewResourceVersion := ResourceVersion res;
     OldSpecHash := SpecHash baseRes;
     NewSpecHash := SpecHash res;
     BaselineResource := Some baseRes; CurrentResource := Some res |}.

Definition removedDiff (res : ResourceInfo) : ResourceDiff :=
  {| Type_ := DiffType.Removed; Resource := res;
     OldResourceVersion := ""; NewResourceVersion := "";
     OldSpecHash := ""; NewSpecHash := "";
     BaselineResource := Some res; CurrentResource := None |}.

Section Compare.
Variable range : gmap string ResourceInfo → list (string * ResourceInfo).

(** Body of the first loop: [for key, res := range current.Resources]. *)
Definition findAddedModified (baseline : Snapshot) (result : DiffResult)
    (kv : string * ResourceInfo) : DiffResult :=
  let '(key, res) := kv in
  match Resources baseline !! key with
  | None =>
      {| Added := Added result ++ [addedDiff res];
         Removed := Removed result;
         Modified := Modified result |}
  | Some baseRes =>
      if bool_decide (ResourceVersion res ≠ ResourceVersion baseRes)
         || bool_decide (SpecHash res ≠ SpecHash baseRes)
      then {| Added := Added result;
              Removed := Removed result;
              Modified := Modified result ++ [modifiedDiff baseRes res] |}
      else result
  end.

(** Body of the second loop: [for key, res := range baseline.Resources]. *)
Definition findRemoved (current : Snapshot) (result : DiffResult)
    (kv : string * ResourceInfo) : DiffResult :=
  let '(key, res) := kv in
  match Resources current !! key with
  | None =>
      {| Added := Added result;
         Removed := Removed result ++ [removedDiff res];
         Modified := Modified result |}
  | Some _ => result
  end.

Definition Compare (baseline current : Snapshot) : DiffResult :=
  let result := {| Added := []; Removed := []; Modified := [] |} in
  let result := foldl (findAddedModified baseline) result (range (Resources current)) in
  let result := foldl (findRemoved current) result (range (Resources baseline)) in
  result.
End Compare.

(** The ResourceKey of an emitted entry: the identity of the record it
    displays. *)
Definition entryKey (e : ResourceDiff) : string := resourceKey (Resource e).

(** A key is emitted in a sequence when one of its entries has that key. *)
Definition emitted (entries : list ResourceDiff) (k : string) : Prop :=
  ∃ e, e ∈ entries ∧ entryKey e = k.

(** A key is unchanged when both snapshots hold it with the same
    resourceVersion and the same specHash. *)
Definition unchanged (baseline current : Snapshot) (k : string) : Prop :=
  ∃ baseRes res,
    Resources baseline !! k = Some baseRes ∧ Resources current !! k = Some res
    ∧ ResourceVersion res = ResourceVersion baseRes
    ∧ SpecHash res = SpecHash baseRes.

End Diff.

(** ** Go's [regexp] package, as far as the filter uses it

    The filter only calls [regexp.Compile], [regexp.MustCompile] and
    [Regexp.MatchString].  The code below is generic in an
    implementation of these; [MustCompile] is defined from [Compile] the
    way the library does it (panic on error). *)

Class RegexpLib := {
  Regexp : Type;
  regexp_Compile : string → option Regexp;  (* [None]: a non-nil error *)
  MatchString : Regexp → string → bool
}.

Definition regexp_MustCompile `{RegexpLib} (pattern : string) : Result Regexp :=
  match regexp_Compile pattern with
  | Some re => Ok re
  | None => Panic ("regexp: Compile(" +:+ pattern +:+ "): error")
  end.

(** *** A concrete regular-expression engine

    An executable model of the fragment of Go's RE2 syntax that the
    patterns of this program are written in: literals, [.], escaped
    punctuation, the classes [\d \w \s], bracket classes with ranges and
    negation, groups, alternation, the postfix operators [* + ?] (with an
    optional non-greedy mark), and the anchors [^] and [$].  Patterns and
    texts are taken byte by byte (ASCII).  A pattern with a syntax error
    of that fragment (unbalanced parenthesis, missing argument of a
    repetition, nested repetition, trailing backslash, unterminated or
    inverted class) is rejected as Go rejects it; constructs outside the
    fragment (counted repetition, [(?...)] groups, other escapes,
    non-ASCII bytes) are rejected as well, although Go accepts some. *)

Module MiniRE.

Inductive re :=
| REmpty                                            (* the empty string *)
| RChar (c : ascii)
| RAny                                              (* [.]: not a newline *)
| RClass (neg : bool) (ranges : list (ascii * ascii))
| RBol                                              (* [^] *)
| REol                                              (* [$] *)
| RSeq (a b : re)
| RAlt (a b : re)
| RStar (a : re).

Definition code (c : ascii) : N := N_of_ascii c.

Definition isAlnum (c : ascii) : bool :=
  let n := code c in
  ((48 <=? n) && (n <=? 57) || (65 <=? n) && (n <=? 90)
   || (97 <=? n) && (n <=? 122))%N.

Definition isRepOp (c : ascii) : bool :=
  bool_decide (c = "*"%char) || bool_decide (c = "+"%char)
  || bool_decide (c = "?"%char).

Definition digitRanges : list (ascii * ascii) := [("0"%char, "9"%char)].
Definition wordRanges : list (ascii * ascii) :=
  [("0"%char, "9"%char); ("A"%char, "Z"%char); ("_"%char, "_"%char);
   ("a"%char, "z"%char)].
Definition spaceRanges : list (ascii * ascii) :=
  [(ascii_of_N 9, ascii_of_N 10); (ascii_of_N 12, ascii_of_N 13);
   (" "%char, " "%char)].

(** The atom written [\c]. *)
Definition parseEscape (c : ascii) : option re :=
  if bool_decide (c = "d"%char) then Some (RClass false digitRanges)
  else if bool_decide (c = "D"%char) then Some (RClass true digitRanges)
  else if bool_decide (c = "w"%char) then Some (RClass false wordRanges)
  else if bool_decide (c = "W"%char) then Some (RClass true wordRanges)
  else if bool_decide (c = "s"%char) then Some (RClass false spaceRanges)
  else if bool_decide (c = "S"%char) then Some (RClass true spaceRanges)
  else if bool_decide (c = "t"%char) then Some (RChar (ascii_of_N 9))
  else if bool_decide (c = "n"%char) then Some (RChar (ascii_of_N 10))
  else if bool_decide (c = "r"%char) then Some (RChar (ascii_of_N 13))
  else if isAlnum c || (128 <=? code c)%N then None
  else Some (RChar c).

(** One member of a bracket class: a byte, possibly escaped. *)
Definition classChar (s : list ascii) : option (ascii * list ascii) :=
  match s with
  | [] => None
  | c :: rest =>
      if bool_decide (c = "\"%char) then
        match rest with
        | e :: rest' =>
            if isAlnum e || (128 <=? code e)%N then None else Some (e, rest')
        | [] => None
        end
      else if (128 <=? code c)%N then None
      else if bool_decide (c = "["%char) then
        match rest with
        | d :: _ => if bool_decide (d = ":"%char) then None else Some (c, rest)
        | [] => Some (c, rest)
        end
      else Some (c, rest)
  end.

(** The members of a bracket class up to the closing bracket; [first]
    holds while a bracket would still be a literal member. *)
Fixpoint parseClassItems (n : nat) (first : bool) (s : list ascii)
    (acc : list (ascii * ascii)) : option (list (ascii * ascii) * list ascii) :=
  match n with
  | O => None
  | S n' =>
      match s with
      | [] => None                                   (* missing closing ] *)
      | c :: rest =>
          if bool_decide (c = "]"%char) && negb first then Some (acc, rest)
          else
            match classChar s with
            | None => None
            | Some (lo, rest1) =>
                match rest1 with
                | d :: rest2 =>
                    if bool_decide (d = "-"%char) then
                      match rest2 with
                      | e :: _ =>
                          if bool_decide (e = "]"%char)
                          then parseClassItems n' false rest1 (acc ++ [(lo, lo)])
                          else
                            match classChar rest2 with
                            | None => None
                            | Some (hi, rest3) =>
                                if (code lo <=? code hi)%N
                                then parseClassItems n' false rest3 (acc ++ [(lo, hi)])
                                else None            (* invalid class range *)
                            end
                      | [] => None
                      end
                    else parseClassItems n' false rest1 (acc ++ [(lo, lo)])
                | [] => None
                end
            end
      end
  end.

Definition parseClass (s : list ascii) : option (re * list ascii) :=
  let '(neg, s1) :=
    match s with
    | c :: rest => if bool_decide (c = "^"%char) then (true, rest) else (false, s)
    | [] => (false, s)
    end in
  match parseClassItems (S (length s1)) true s1 [] with
  | Some (ranges, rest) => Some (RClass neg ranges, rest)
  | None => None
  end.

(** A postfix operator was read; an optional [?] marks it non-greedy, and
    a further operator is a nested repetition. *)
Definition afterRepOp (r : re) (rest : list ascii) : option (re * list ascii) :=
  let rest' :=
    match rest with
    | c :: rest1 => if bool_decide (c = "?"%char) then rest1 else rest
    | [] => rest
    end in
  match rest' with
  | c :: _ => if isRepOp c then None else Some (r, rest')
  | [] => Some (r, rest')
  end.

Fixpoint parseAlt (n : nat) (s : list ascii) {struct n} : option (re * list ascii) :=
  match n with
  | O => None
  | S n' =>
      match parseSeq n' s with
      | None => None
      | Some (a, rest) =>
          match rest with
          | c :: rest1 =>
              if bool_decide (c = "|"%char) then
                match parseAlt n' rest1 with
                | Some (b, rest2) => Some (RAlt a b, rest2)
                | None => None
                end
              else Some (a, rest)
          | [] => Some (a, rest)
          end
      end
  end
with parseSeq (n : nat) (s : list ascii) {struct n} : option (re * list ascii) :=
  match n with
  | O => None
  | S n' =>
      match s with
      | [] => Some (REmpty, s)
      | c :: _ =>
          if bool_decide (c = "|"%char) || bool_decide (c = ")"%char)
          then Some (REmpty, s)
          else
            match parseRep n' s with
            | None => None
            | Some (a, rest) =>
                match parseSeq n' rest with
                | Some (b, rest') => Some (RSeq a b, rest')
                | None => None
                end
            end
      end
  end
with parseRep (n : nat) (s : list ascii) {struct n} : option (re * list ascii) :=
  match n with
  | O => None
  | S n' =>
      match parseAtom n' s with
      | None => None
      | Some (a, rest) =>
          match rest with
          | c :: rest1 =>
              if bool_decide (c = "*"%char) then afterRepOp (RStar a) rest1
              else if bool_decide (c = "+"%char) then afterRepOp (RSeq a (RStar a)) rest1
              else if bool_decide (c = "?"%char) then afterRepOp (RAlt a REmpty) rest1
              else Some (a, rest)
          | [] => Some (a, rest)
          end
      end
  end
with parseAtom (n : nat) (s : list ascii) {struct n} : option (re * list ascii) :=
  match n with
  | O => None
  | S n' =>
      match s with
      | [] => None
      | c :: rest =>
          if bool_decide (c = "("%char) then
            match rest with
            | q :: _ =>
                if bool_decide (q = "?"%char) then None
                else
                  match parseAlt n' rest with
                  | Some (a, d :: rest') =>
                      if bool_decide (d = ")"%char) then Some (a, rest') else None
                  | _ => None                        (* missing closing ) *)
                  end
            | [] => None                             (* missing closing ) *)
            end
          else if isRepOp c then None   (* missing argument to repetition *)
          else if bool_decide (c = ")"%char) then None
          else if bool_decide (c = "{"%char) then None
          else if bool_decide (c = "["%char) then parseClass rest
          else if bool_decide (c = "."%char) then Some (RAny, rest)
          else if bool_decide (c = "^"%char) then Some (RBol, rest)
          else if bool_decide (c = "$"%char) then Some (REol, rest)
          else if bool_decide (c = "\"%char) then
            match rest with
            | e :: rest' =>
                match parseEscape e with
                | Some r => Some (r, rest')
                | None => None
                end
            | [] => None                             (* trailing backslash *)
            end
          else if (128 <=? code c)%N then None
          else Some (RChar c, rest)
      end
  end.

Definition Compile (pattern : string) : option re :=
  let s := list_ascii_of_string pattern in
  match parseAlt (4 * length s + 8) s with
  | Some (r, []) => Some r
  | _ => None                     (* e.g. an unexpected closing parenthesis *)
  end.

Definition inRanges (x : ascii) (ranges : list (ascii * ascii)) : bool :=
  existsb (fun '(lo, hi) => (code lo <=? code x)%N && (code x <=? code hi)%N) ranges.

(** Backtracking matcher in continuation style: [matchK r s bot k] holds
    when [r] matches a prefix of the remaining text [s] and [k] accepts
    what is left; [bot] tells whether [s] is still the whole text. *)
Fixpoint matchK (r : re) (s : list ascii) (bot : bool)
    (k : list ascii → bool → bool) : bool :=
  match r with
  | REmpty => k s bot
  | RChar c =>
      match s with
      | x :: s' => bool_decide (x = c) && k s' false
      | [] => false
      end
  | RAny =>
      match s with
      | x :: s' => negb (bool_decide (x = ascii_of_N 10)) && k s' false
      | [] => false
      end
  | RClass neg ranges =>
      match s with
      | x :: s' => xorb neg (inRanges x ranges) && k s' false
      | [] => false
      end
  | RBol => bot && k s bot
  | REol => bool_decide (s = []) && k s bot
  | RSeq a b => matchK a s bot (fun s' bot' => matchK b s' bot' k)
  | RAlt a b => matchK a s bot k || matchK b s bot k
  | RStar a =>
      (fix loop (n : nat) (s : list ascii) (bot : bool) : bool :=
         k s bot
         || match n with
            | O => false
            | S n' =>
                matchK a s bot
                  (fun s' bot' => (length s' <? length s)%nat && loop n' s' bot')
            end) (length s) s bot
  end.

(** An unanchored search, as [MatchString] does: a match may start at any
    position of the text. *)
Fixpoint search (r : re) (s : list ascii) (bot : bool) : bool :=
  matchK r s bot (fun _ _ => true)
  || match s with
     | [] => false
     | _ :: s' => search r s' false
     end.

Definition Match (r : re) (text : string) : bool :=
  search r (list_ascii_of_string text) true.

#[global] Instance lib : RegexpLib :=
  {| Regexp := re; regexp_Compile := Compile; MatchString := Match |}.

End MiniRE.

(** ** package filter *)

Module Filter.

(** [strings.Join(elems, sep)]. *)
Fixpoint strings_Join (elems : list string) (sep : string) : string :=
  match elems with
  | [] => ""
  | [e] => e
  | e :: rest => e +:+ sep +:+ strings_Join rest sep
  end.

Definition DefaultNoisyResources : list string := [
  (* Event resources *)
  "^events\.k8s\.io/v1/Event$";
  "^events\.k8s\.io/v1beta1/Event$";
  "^v1/Event$";
  (* Endpoint resources *)
  "^v1/Endpoints$";
  "^discovery\.k8s\.io/v1/EndpointSlice$";
  "^discovery\.k8s\.io/v1beta1/EndpointSlice$";
  (* Lease resources *)
  "^coordination\.k8s\.io/v1/Lease$";
  (* Pod status updates *)
  "^v1/Pod$";
  (* Temporary and frequently changing objects *)
  "^admissionregistration\.k8s\.io/v1/MutatingWebhookConfiguration$";
  "^admissionregistration\.k8s\.io/v1/ValidatingWebhookConfiguration$";
  (* Autoscaling resources *)
  "^autoscaling/v[12]/HorizontalPodAutoscaler$";
  (* FluxCD GitRepository status objects *)
  "^source\.toolkit\.fluxcd\.io/v1beta1/GitRepository$";
  "^source\.toolkit\.fluxcd\.io/v1beta2/GitRepository$";
  (* Prometheus resources *)
  "^monitoring\.coreos\.com/v1/ServiceMonitor$";
  "^monitoring\.coreos\.com/v1/PodMonitor$";
  (* Node resources *)
  "^v1/Node$";
  (* Helm releases managed by FluxCD *)
  "^helm\.toolkit\.fluxcd\.io/v1/HelmRelease$";
  "^helm\.toolkit\.fluxcd\.io/v2beta1/HelmRelease$";
  "^helm\.toolkit\.fluxcd\.io/v2/HelmRelease$";
  "^helm\.toolkit\.fluxcd\.io/v2beta2/HelmRelease$";
  (* Kommander Helm release status tracking *)
  "^kommander\.d2iq\.io/v1alpha2/HelmReleaseStatus$";
  "^kommander\.d2iq\.io/v1alpha1/HelmReleaseStatus$"
].

Definition CommonSystemNamespaces : list string :=
  ["kube-system"; "kube-public"; "kube-node-lease"; "default"; "flux-system"].

Section WithRegexp.
Context `{RegexpLib}.

Record ResourceFilter := {
  IncludePatterns : list string;
  ExcludePatterns : list string;
  compiledFilter : option Regexp   (* nil until [Compile] sets it *)
}.

Definition NewResourceFilter : ResourceFilter :=
  {| IncludePatterns := []; ExcludePatterns := []; compiledFilter := None |}.

(** The builder methods mutate the receiver and return it; here they
    return the updated filter. *)
Definition WithNoisy (rf : ResourceFilter) : ResourceFilter :=
  {| IncludePatterns := IncludePatterns rf;
     ExcludePatterns := ExcludePatterns rf ++ DefaultNoisyResources;
     compiledFilter := compiledFilter rf |}.

Definition WithExcludes (rf : ResourceFilter) (patterns : list string) : ResourceFilter :=
  {| IncludePatterns := IncludePatterns rf;
     ExcludePatterns := ExcludePatterns rf ++ patterns;
     compiledFilter := compiledFilter rf |}.

Definition WithIncludes (rf : ResourceFilter) (patterns : list string) : ResourceFilter :=
  {| IncludePatterns := IncludePatterns rf ++ patterns;
     ExcludePatterns := ExcludePatterns rf;
     compiledFilter := compiledFilter rf |}.

(** The single pattern [Compile] builds from the exclude patterns. *)
Definition excludeAlternation (rf : ResourceFilter) : string :=
  "(" +:+ strings_Join (ExcludePatterns rf) ")|(" +:+ ")".

(** [Compile]: [Ok rf'] is a nil error with the receiver updated to [rf'];
    on [Err] the receiver is left as it was. *)
Definition Compile (rf : ResourceFilter) : Result ResourceFilter :=
  if Nat.eqb (length (ExcludePatterns rf)) 0 then
    Ok {| IncludePatterns := IncludePatterns rf;
          ExcludePatterns := ExcludePatterns rf;
          compiledFilter := None |}
  else
    let pattern := excludeAlternation rf in
    match regexp_Compile pattern with
    | None => Err ("error parsing regexp: " +:+ pattern)
    | Some compiled =>
        Ok {| IncludePatterns := IncludePatterns rf;
              ExcludePatterns := ExcludePatterns rf;
              compiledFilter := Some compiled |}
    end.

(** The loop of [ShouldExclude] over the include patterns, followed by
    the [return true] after it. *)
Fixpoint includeLoop (includes : list string) (resourceType : string) : Result bool :=
  match includes with
  | [] => Ok true
  | include :: rest =>
      match regexp_MustCompile include with
      | Ok re =>
          if MatchString re resourceType then Ok false
          else includeLoop rest resourceType
      | Err msg => Err msg
      | Panic msg => Panic msg
      end
  end.

Definition ShouldExclude (rf : ResourceFilter) (resourceType : string) : Result bool :=
  match compiledFilter rf with
  | None => Ok false
  | Some compiled =>
      if MatchString compiled resourceType
      then includeLoop (IncludePatterns rf) resourceType
      else Ok false
  end.

(** A pattern is valid when it compiles; a label matches a pattern when
    the pattern compiles to a regular expression that matches it; a label
    matches the compiled exclude alternation when [Compile] has stored a
    regular expression that matches it. *)
Definition validPattern (pattern : string) : Prop :=
  is_Some (regexp_Compile pattern).

Definition patternMatches (pattern label : string) : Prop :=
  ∃ re, regexp_Compile pattern = Some re ∧ MatchString re label = true.

Definition excludeMatches (rf : ResourceFilter) (label : string) : Prop :=
  ∃ compiled, compiledFilter rf = Some compiled ∧ MatchString compiled label = true.

(** The same three notions as tests that compute. *)
Definition validPatternb (pattern : string) : bool :=
  match regexp_Compile pattern with
  | Some _ => true
  | None => false
  end.

Definition patternMatchesb (pattern label : string) : bool :=
  match regexp_Compile pattern with
  | Some re => MatchString re label
  | None => false
  end.

Definition excludeMatchesb (rf : ResourceFilter) (label : string) : bool :=
  match compiledFilter rf with
  | Some compiled => MatchString compiled label
  | None => false
  end.

(** The filter after [Compile], when it succeeds. *)
Definition compiled (rf : ResourceFilter) : ResourceFilter :=
  match Compile rf with
  | Ok rf' => rf'
  | _ => rf
  end.

End WithRegexp.

End Filter.

(** ** Go's [encoding/json], as far as [json.Marshal] is used on specs

    A value of type [interface{}] as the Kubernetes client hands it over:
    nil, booleans, integers, strings, slices and string-keyed maps.
    [VUnsupported] stands for every value that [json.Marshal] refuses
    (a NaN or infinite float, a channel, a function); other floats are
    not modelled. *)

Module Json.

#[warnings="-register-all"]
Inductive Value :=
| VNil
| VBool (b : bool)
| VInt (n : Z)
| VString (s : string)
| VList (l : list Value)
| VMap (m : gmap string Value)
| VUnsupported.

(** The double-quote character. *)
Definition dquote : ascii := ascii_of_N 34.

(** The size of a value, for induction over nested values. *)
Fixpoint vsize (v : Value) : nat :=
  match v with
  | VMap m => S (map_fold (λ _ v acc, vsize v + acc) 0 m)
  | VList l => S (foldr (λ v acc, vsize v + acc) 0 l)
  | _ => 1
  end.

Definition hexDigit (n : N) : ascii :=
  if (n <? 10)%N then ascii_of_N (48 + n) else ascii_of_N (87 + n).

(** The encoding of one byte inside a JSON string, with the HTML-safe
    escapes that [json.Marshal] applies. *)
Definition escapeByte (c : ascii) : string :=
  let n := N_of_ascii c in
  if bool_decide (c = dquote) then String "\"%char (String dquote "")
  else if bool_decide (c = "\"%char) then "\\"
  else if (n =? 10)%N then "\n"
  else if (n =? 13)%N then "\r"
  else if (n =? 9)%N then "\t"
  else if (n <? 32)%N || bool_decide (c = "<"%char) || bool_decide (c = ">"%char)
          || bool_decide (c = "&"%char)
  then "\u00" +:+ String (hexDigit (n / 16)) (String (hexDigit (n mod 16)) "")
  else String c "".

Fixpoint escapeString (s : string) : string :=
  match s with
  | EmptyString => ""
  | String c rest => escapeByte c +:+ escapeString rest
  end.

Definition quote (s : string) : string :=
  String dquote (escapeString s +:+ String dquote "").

(** Map keys are written in increasing byte order. *)
Definition keyLe {A} (p q : string * A) : Prop := String.leb p.1 q.1.

#[global] Instance keyLe_dec {A} (p q : string * A) : Decision (keyLe p q).
Proof. unfold keyLe. apply _. Defined.

Definition sortByKey {A} (entries : list (string * A)) : list (string * A) :=
  merge_sort keyLe entries.

Definition joinComma (parts : list string) : string :=
  Filter.strings_Join parts ",".

Definition member (kv : string * option string) : option string :=
  match kv.2 with
  | Some text => Some (quote kv.1 +:+ ":" +:+ text)
  | None => None
  end.

Section Marshal.
(** The order in which the encoder meets the entries of a map. *)
Variable range : gmap string (option string) → list (string * option string).

(** [json.Marshal(v)]; [None] is a non-nil error. *)
Fixpoint Marshal (v : Value) : option string :=
  match v with
  | VNil => Some "null"
  | VBool b => Some (if b then "true" else "false")
  | VInt n => Some (pretty n)
  | VString s => Some (quote s)
  | VList l =>
      match mapM Marshal l with
      | Some parts => Some ("[" +:+ joinComma parts +:+ "]")
      | None => None
      end
  | VMap m =>
      match mapM member (sortByKey (range (Marshal <$> m))) with
      | Some parts => Some ("{" +:+ joinComma parts +:+ "}")
      | None => None
      end
  | VUnsupported => None
  end.
End Marshal.

End Json.

(** ** Go's [crypto/md5] and [encoding/hex]

    RFC 1321 on 32-bit words held in [Z]; every addition wraps at 2^32. *)

Module MD5.
Local Open Scope Z_scope.

Definition wrap32 (x : Z) : Z := x mod 2 ^ 32.
Definition not32 (x : Z) : Z := Z.lxor x 4294967295.
Definition rotl32 (x : Z) (c : Z) : Z :=
  Z.lor (wrap32 (Z.shiftl x c)) (Z.shiftr x (32 - c)).

Definition shifts : list Z := [
  7; 12; 17; 22; 7; 12; 17; 22; 7; 12; 17; 22; 7; 12; 17; 22;
  5; 9; 14; 20; 5; 9; 14; 20; 5; 9; 14; 20; 5; 9; 14; 20;
  4; 11; 16; 23; 4; 11; 16; 23; 4; 11; 16; 23; 4; 11; 16; 23;
  6; 10; 15; 21; 6; 10; 15; 21; 6; 10; 15; 21; 6; 10; 15; 21 ].

Definition sines : list Z := [
  3614090360; 3905402710; 606105819; 3250441966; 4118548399; 1200080426;
  2821735955; 4249261313; 1770035416; 2336552879; 4294925233; 2304563134;
  1804603682; 4254626195; 2792965006; 1236535329; 4129170786; 3225465664;
  643717713; 3921069994; 3593408605; 38016083; 3634488961; 3889429448;
  568446438; 3275163606; 4107603335; 1163531501; 2850285829; 4243563512;
  1735328473; 2368359562; 4294588738; 2272392833; 1839030562; 4259657740;
  2763975236; 1272893353; 4139469664; 3200236656; 681279174; 3936430074;
  3572445317; 76029189; 3654602809; 3873151461; 530742520; 3299628645;
  4096336452; 1126891415; 2878612391; 4237533241; 1700485571; 2399980690;
  4293915773; 2240044497; 1873313359; 4264355552; 2734768916; 1309151649;
  4149444226; 3174756917; 718787259; 3951481745 ].

Definition nthZ (l : list Z) (i : Z) : Z := nth (Z.to_nat i) l 0.

(** Little-endian bytes of a value, [n] of them. *)
Fixpoint leBytes (n : nat) (x : Z) : list Z :=
  match n with
  | O => []
  | S n' => x mod 256 :: leBytes n' (x / 256)
  end.

Fixpoint leWord (bytes : list Z) : Z :=
  match bytes with
  | [] => 0
  | b :: rest => b + 256 * leWord rest
  end.

Definition pad (msg : list Z) : list Z :=
  let len := Z.of_nat (length msg) in
  let zeros := Z.to_nat ((55 - len) mod 64) in
  msg ++ [128] ++ repeat 0 zeros ++ leBytes 8 (8 * len).

(** The sixteen words of a 64-byte block. *)
Fixpoint blockWords (n : nat) (block : list Z) : list Z :=
  match n with
  | O => []
  | S n' => leWord (take 4 block) :: blockWords n' (drop 4 block)
  end.

Definition round (M : list Z) (st : Z * Z * Z * Z) (i : Z) : Z * Z * Z * Z :=
  let '(A, B, C, D) := st in
  let '(F, g) :=
    if i <? 16 then (Z.lor (Z.land B C) (Z.land (not32 B) D), i)
    else if i <? 32 then (Z.lor (Z.land D B) (Z.land (not32 D) C), (5 * i + 1) mod 16)
    else if i <? 48 then (Z.lxor (Z.lxor B C) D, (3 * i + 5) mod 16)
    else (Z.lxor C (Z.lor B (not32 D)), (7 * i) mod 16) in
  let F := wrap32 (F + A + nthZ sines i + nthZ M g) in
  (D, wrap32 (B + rotl32 F (nthZ shifts i)), B, C).

Definition block (st : Z * Z * Z * Z) (chunk : list Z) : Z * Z * Z * Z :=
  let M := blockWords 16 chunk in
  let '(a0, b0, c0, d0) := st in
  let '(A, B, C, D) := foldl (round M) st (map Z.of_nat (seq 0 64)) in
  (wrap32 (a0 + A), wrap32 (b0 + B), wrap32 (c0 + C), wrap32 (d0 + D)).

Fixpoint blocks (n : nat) (st : Z * Z * Z * Z) (msg : list Z) : Z * Z * Z * Z :=
  match n with
  | O => st
  | S n' => blocks n' (block st (take 64 msg)) (drop 64 msg)
  end.

(** [md5.Sum(data)]: the sixteen bytes of the digest. *)
Definition Sum (data : string) : list Z :=
  let msg := pad (map (λ c, Z.of_N (N_of_ascii c)) (list_ascii_of_string data)) in
  let '(a, b, c, d) :=
    blocks (length msg / 64) (1732584193, 4023233417, 2562383102, 271733878) msg in
  leBytes 4 a ++ leBytes 4 b ++ leBytes 4 c ++ leBytes 4 d.

(** [hex.EncodeToString]. *)
Fixpoint hex_EncodeToString (bytes : list Z) : string :=
  match bytes with
  | [] => ""
  | b :: rest =>
      String (Json.hexDigit (Z.to_N (b / 16)))
        (String (Json.hexDigit (Z.to_N (b mod 16))) (hex_EncodeToString rest))
  end.

End MD5.

(** ** package k8s *)

Module K8s.
Import Json.

Record Metadata := {
  Name : string;
  Namespace : string;
  UID : string;
  ResourceVersion : string;
  CreationTimestamp : string;
  Labels : gmap string string;
  Annotations : gmap string string
}.

(** A nil map is [None].  The field [Metadata] is [Meta] here. *)
Record Resource := {
  ApiVersion : string;
  Kind : string;
  Meta : Metadata;
  Spec : option (gmap string Value);
  Status : option (gmap string Value);
  AdditionalData : option (gmap string Value)   (* never serialised *)
}.

(** What the discovery client reports: [metav1.APIResource] and
    [metav1.APIResourceList], with the fields the code reads. *)
Record APIResource := {
  ResourceName : string;
  ResourceKind : string;
  Verbs : list string;
  Namespaced : bool
}.

Record APIResourceList := {
  GroupVersion : string;
  APIResources : list APIResource
}.

(** The error of [ServerGroupsAndResources], when there is one. *)
Inductive DiscoveryError :=
| GroupDiscoveryFailed          (* [discovery.IsGroupDiscoveryFailedError] *)
| DiscoveryFailed.

(** A client is what the cluster answers through it: the result of
    [ServerGroupsAndResources], and for [ListResources] (whose body is all
    calls into the cluster) its result for each resource type and
    namespace. *)
Record Client := {
  ServerGroupsAndResources : list APIResourceList * option DiscoveryError;
  ListResources : string → string → Result (list Resource)
}.

Fixpoint containsString (slice : list string) (s : string) : bool :=
  match slice with
  | [] => false
  | item :: rest => if bool_decide (item = s) then true else containsString rest s
  end.

Definition DefaultExcludedResourceTypes : list string := Filter.DefaultNoisyResources.

Section WithRegexp.
Context `{RegexpLib}.

(** One turn of the inner loop of [DiscoverResources]: the resource types
    collected so far, extended or not. *)
Definition discoverOne (resourceFilter : option Filter.ResourceFilter) (gv : string)
    (resourceTypes : list string) (r : APIResource) : Result (list string) :=
  if negb (containsString (Verbs r) "list") then Ok resourceTypes
  else
    let resourceType := gv +:+ "/" +:+ ResourceKind r in
    match resourceFilter with
    | None => Ok (resourceTypes ++ [resourceType])
    | Some rf =>
        excluded ← Filter.ShouldExclude rf resourceType;
        if (excluded : bool) then Ok resourceTypes
        else Ok (resourceTypes ++ [resourceType])
    end.

Fixpoint discoverList (resourceFilter : option Filter.ResourceFilter) (gv : string)
    (resourceTypes : list string) (rs : list APIResource) : Result (list string) :=
  match rs with
  | [] => Ok resourceTypes
  | r :: rest =>
      resourceTypes' ← discoverOne resourceFilter gv resourceTypes r;
      discoverList resourceFilter gv resourceTypes' rest
  end.

Fixpoint discoverAll (resourceFilter : option Filter.ResourceFilter)
    (resourceTypes : list string) (lists : list APIResourceList) : Result (list string) :=
  match lists with
  | [] => Ok resourceTypes
  | resourceList :: rest =>
      resourceTypes' ← discoverList resourceFilter (GroupVersion resourceList)
                         resourceTypes (APIResources resourceList);
      discoverAll resourceFilter resourceTypes' rest
  end.

Definition DiscoverResources (c : Client)
    (resourceFilter : option Filter.ResourceFilter) : Result (list string) :=
  let '(apiResources, err) := ServerGroupsAndResources c in
  match err with
  | Some DiscoveryFailed => Err "failed to discover API resources"
  | Some GroupDiscoveryFailed   (* warning, continue with partial results *)
  | None => discoverAll resourceFilter [] apiResources
  end.

End WithRegexp.

Section WithRange.
Variable range : gmap string (option string) → list (string * option string).
(** The text of the error [json.Marshal] returns on a value it refuses. *)
Variable json_error : Value → string.

(** [CalculateSpecHash]: a prefix of the JSON text stands in for a hash;
    an error of [json.Marshal] is returned as it is. *)
Definition CalculateSpecHash (spec : Value) : Result string :=
  match Marshal range spec with
  | None => Err (json_error spec)
  | Some data =>
      if (20 <? String.length data)%nat
      then Ok (substring 0 20 data +:+ "...")
      else Ok data
  end.

(** A field tagged [omitempty]. *)
Definition omitEmptyString (name value : string) : list (string * option string) :=
  if bool_decide (value = "") then [] else [(name, Some (quote value))].

Definition omitEmptyMap (name : string) (m : option (gmap string Value))
    : list (string * option string) :=
  match m with
  | None => []
  | Some m => if Nat.eqb (size m) 0 then [] else [(name, Marshal range (VMap m))]
  end.

(** A struct is written field by field, in the order of declaration. *)
Definition marshalStruct (fields : list (string * option string)) : option string :=
  match mapM member fields with
  | Some parts => Some ("{" +:+ joinComma parts +:+ "}")
  | None => None
  end.

Definition marshalMetadata (md : Metadata) : option string :=
  marshalStruct (
    [("name", Some (quote (Name md)))]
    ++ omitEmptyString "namespace" (Namespace md)
    ++ [("uid", Some (quote (UID md)));
        ("resourceVersion", Some (quote (ResourceVersion md)));
        ("creationTimestamp", Some (quote (CreationTimestamp md)))]
    ++ omitEmptyMap "labels" (Some (VString <$> Labels md))
    ++ omitEmptyMap "annotations" (Some (VString <$> Annotations md))).

(** [json.Marshal(resource)]. *)
Definition marshalResource (resource : Resource) : option string :=
  marshalStruct (
    [("apiVersion", Some (quote (ApiVersion resource)));
     ("kind", Some (quote (Kind resource)));
     ("metadata", marshalMetadata (Meta resource))]
    ++ omitEmptyMap "spec" (Spec resource)
    ++ omitEmptyMap "status" (Status resource)).

End WithRange.

End K8s.

(** ** package snapshot: capture and hashing *)

Module Capture.
Import Snap.

(** [snapshot.CalculateSpecHash]: the MD5 digest of the JSON text, in hex. *)
Definition CalculateSpecHash
    (range : gmap string (option string) → list (string * option string))
    (json_error : Json.Value → string)
    (spec : Json.Value) : Result string :=
  match Json.Marshal range spec with
  | None => Err ("failed to marshal spec: " +:+ json_error spec)
  | Some data => Ok (MD5.hex_EncodeToString (MD5.Sum data))
  end.

Section CaptureSnapshot.
Context `{RegexpLib}.
Variable range : gmap string (option string) → list (string * option string).
(** The text of the error [json.Marshal] returns on a value it refuses. *)
Variable json_error : Json.Value → string.
(** [json.Unmarshal] into an [interface{}] followed by [yaml.Marshal]. *)
Variable yamlFromJSON : string → option string.
(** [internal_k8s.NewClient] and [time.Now().UTC()]. *)
Variable NewClient : string → Result K8s.Client.
Variable now : Time.

(** Body of the loop over the resources of one type: the key and the
    record stored under it. *)
Definition captureResource (resource : K8s.Resource) : string * ResourceInfo :=
  let gvk := K8s.ApiVersion resource +:+ "/" +:+ K8s.Kind resource in
  let resourceData := K8s.marshalResource range resource in
  let md := K8s.Meta resource in
  (* Fall back to resource version if hash fails *)
  let specHash :=
    match K8s.Spec resource with
    | Some spec =>
        match K8s.CalculateSpecHash range json_error (Json.VMap spec) with
        | Ok hash => hash
        | _ => K8s.ResourceVersion md
        end
    | None => K8s.ResourceVersion md
    end in
  let manifest :=
    match resourceData with
    | Some data =>
        match yamlFromJSON data with
        | Some yamlData => yamlData
        | None => ""
        end
    | None => ""
    end in
  let resourceInfo :=
    {| GroupVersionKind := gvk;
       Namespace := K8s.Namespace md;
       Name := K8s.Name md;
       UID := K8s.UID md;
       ResourceVersion := K8s.ResourceVersion md;
       CreationTimestamp := K8s.CreationTimestamp md;
       SpecHash := specHash;
       Manifest := manifest |} in
  let key := gvk +:+ "|" +:+ K8s.Namespace md +:+ "|" +:+ K8s.Name md in
  (key, resourceInfo).

Definition addResource (resources : gmap string ResourceInfo)
    (resource : K8s.Resource) : gmap string ResourceInfo :=
  let '(key, resourceInfo) := captureResource resource in
  <[key := resourceInfo]> resources.

(** Body of the loop over the resource types; a type whose listing
    returns an error is reported and skipped, a panic of the listing is
    not recovered. *)
Definition captureType (client : K8s.Client) (namespace : string)
    (resources : gmap string ResourceInfo) (resourceType : string)
    : Result (gmap string ResourceInfo) :=
  match K8s.ListResources client resourceType namespace with
  | Ok listed => Ok (foldl addResource resources listed)
  | Err _ => Ok resources
  | Panic msg => Panic msg
  end.

(** The loop over the resource types. *)
Fixpoint captureTypes (client : K8s.Client) (namespace : string)
    (resources : gmap string ResourceInfo) (resourceTypes : list string)
    : Result (gmap string ResourceInfo) :=
  match resourceTypes with
  | [] => Ok resources
  | resourceType :: rest =>
      resources' ← captureType client namespace resources resourceType;
      captureTypes client namespace resources' rest
  end.

(** The filter of a capture: the noisy defaults, and the pattern of the
    user when there is one. *)
Definition captureFilter (ignoreKindRegex : string) : Filter.ResourceFilter :=
  let resourceFilter := Filter.WithNoisy Filter.NewResourceFilter in
  if bool_decide (ignoreKindRegex ≠ "")
  then Filter.WithExcludes resourceFilter [ignoreKindRegex]
  else resourceFilter.

Definition CaptureSnapshot (namespace ignoreKindRegex kubeconfigPath : string)
    : Result Snapshot :=
  match NewClient kubeconfigPath with
  | Err msg => Err ("failed to create Kubernetes client: " +:+ msg)
  | Panic msg => Panic msg
  | Ok client =>
      match Filter.Compile (captureFilter ignoreKindRegex) with
      | Err msg => Err ("failed to compile resource filter: " +:+ msg)
      | Panic msg => Panic msg
      | Ok resourceFilter =>
          match K8s.DiscoverResources client (Some resourceFilter) with
          | Err msg => Err ("failed to discover API resources: " +:+ msg)
          | Panic msg => Panic msg
          | Ok resourceTypes =>
              resources ← captureTypes client namespace ∅ resourceTypes;
              Ok {| Timestamp := now;
                    SnapshotNamespace := namespace;
                    Resources := resources |}
          end
      end
  end.

(** The resources the two loops of a capture visit, in order, when no
    listing panics. *)
Definition listedResources (client : K8s.Client) (namespace : string)
    (resourceTypes : list string) : list K8s.Resource :=
  flat_map (λ resourceType,
    match K8s.ListResources client resourceType namespace with
    | Ok listed => listed
    | _ => []
    end) resourceTypes.

(** The hash of a resource cannot be computed: it has no spec payload,
    or [CalculateSpecHash] returns an error on it. *)
Definition hashFails (resource : K8s.Resource) : Prop :=
  match K8s.Spec resource with
  | None => True
  | Some spec => ∀ hash, K8s.CalculateSpecHash range json_error (Json.VMap spec) ≠ Ok hash
  end.

End CaptureSnapshot.

End Capture.

(** ** package tui: the presentation state machine

    The widgets of the Bubbles library (table, viewport, spinner, help)
    are represented by the part of their state that [Update] reads or
    writes; rendering ([View], styles) is not embedded. *)

Module FilterType.
Inductive t := FilterAll | FilterAdded | FilterRemoved | FilterModified.
#[global] Instance eq_dec : EqDecision t.
Proof. solve_decision. Defined.
End FilterType.

Module Tui.
Import Snap Diff.
Local Open Scope Z_scope.

Inductive stateT :=
| stateReady
| stateCapturingBaseline
| stateBaselineCaptured
| stateCapturingCurrent
| stateShowingDiff
| stateShowingResourceDetail
| stateError.

#[global] Instance stateT_eq_dec : EqDecision stateT.
Proof. solve_decision. Defined.

(** A [key.Binding]: the keys it answers to. *)
Definition Binding := list string.

Record KeyMap := {
  Capture : Binding;
  Continue : Binding;
  Back : Binding;
  Quit : Binding;
  ForceQuit : Binding;
  Help : Binding;
  ToggleView : Binding;
  Up : Binding;
  Down : Binding;
  PageUp : Binding;
  PageDown : Binding;
  Enter : Binding;
  FilterAll : Binding;
  FilterAdded : Binding;
  FilterRemoved : Binding;
  FilterModified : Binding;
  Escape : Binding;
  CopyYAML : Binding
}.

Definition DefaultKeyMap : KeyMap :=
  {| Capture := ["c"];
     Continue := ["c"];
     Back := ["b"];
     Quit := ["q"];
     ForceQuit := ["ctrl+c"];
     Help := ["?"];
     ToggleView := ["tab"];
     Up := ["up"; "k"];
     Down := ["down"; "j"];
     PageUp := ["pgup"];
     PageDown := ["pgdown"];
     Enter := ["enter"];
     FilterAll := ["0"];
     FilterAdded := ["1"];
     FilterRemoved := ["2"];
     FilterModified := ["3"];
     Escape := ["esc"];
     CopyYAML := ["y"] |}.

(** [key.Matches(msg, binding)] for a key message that prints as [k]. *)
Definition key_Matches (k : string) (b : Binding) : bool :=
  bool_decide (k ∈ b).

(** The table widget: columns (title and width), rows, cursor, focus. *)
Definition Row := list string.

Record Table := {
  columns : list (string * Z);
  rows : list Row;
  cursor : Z;
  focus : bool;
  tableHeight : Z;
  tableWidth : Z
}.

Definition clamp (v low high : Z) : Z := Z.min (Z.max v low) high.

Definition table_New (cols : list (string * Z)) (h : Z) : Table :=
  {| columns := cols; rows := []; cursor := 0; focus := true;
     tableHeight := h; tableWidth := 0 |}.

Definition table_SetRows (t : Table) (r : list Row) : Table :=
  {| columns := columns t; rows := r; cursor := cursor t; focus := focus t;
     tableHeight := tableHeight t; tableWidth := tableWidth t |}.

Definition table_SetHeight (t : Table) (h : Z) : Table :=
  {| columns := columns t; rows := rows t; cursor := cursor t; focus := focus t;
     tableHeight := h; tableWidth := tableWidth t |}.

Definition table_SetWidth (t : Table) (w : Z) : Table :=
  {| columns := columns t; rows := rows t; cursor := cursor t; focus := focus t;
     tableHeight := tableHeight t; tableWidth := w |}.

Definition table_Move (t : Table) (delta : Z) : Table :=
  {| columns := columns t; rows := rows t;
     cursor := clamp (cursor t + delta) 0 (Z.of_nat (length (rows t)) - 1);
     focus := focus t;
     tableHeight := tableHeight t; tableWidth := tableWidth t |}.

Definition table_MoveUp (t : Table) (n : Z) : Table := table_Move t (- n).
Definition table_MoveDown (t : Table) (n : Z) : Table := table_Move t n.

(** [SelectedRow]: nil (the empty row) when the cursor is out of range. *)
Definition table_SelectedRow (t : Table) : Row :=
  if (cursor t <? 0) || (Z.of_nat (length (rows t)) <=? cursor t) then []
  else nth (Z.to_nat (cursor t)) (rows t) [].

(** The viewport widget: its text, size and scroll offset. *)
Record Viewport := {
  content : string;
  vpWidth : Z;
  vpHeight : Z;
  yOffset : Z
}.

Definition viewport_New (w h : Z) : Viewport :=
  {| content := ""; vpWidth := w; vpHeight := h; yOffset := 0 |}.

Definition viewport_SetContent (v : Viewport) (s : string) : Viewport :=
  {| content := s; vpWidth := vpWidth v; vpHeight := vpHeight v; yOffset := yOffset v |}.

Definition viewport_GotoTop (v : Viewport) : Viewport :=
  {| content := content v; vpWidth := vpWidth v; vpHeight := vpHeight v; yOffset := 0 |}.

(** Scrolling by [n] lines; the widget keeps the offset inside the text,
    here only above zero. *)
Definition viewport_Scroll (v : Viewport) (n : Z) : Viewport :=
  {| content := content v; vpWidth := vpWidth v; vpHeight := vpHeight v;
     yOffset := Z.max 0 (yOffset v + n) |}.

Definition viewport_LineUp (v : Viewport) (n : Z) : Viewport := viewport_Scroll v (- n).
Definition viewport_LineDown (v : Viewport) (n : Z) : Viewport := viewport_Scroll v n.
Definition viewport_PageUp (v : Viewport) : Viewport := viewport_Scroll v (- vpHeight v).
Definition viewport_PageDown (v : Viewport) : Viewport := viewport_Scroll v (vpHeight v).

Record Model := {
  state : stateT;
  keyMap : KeyMap;
  helpWidth : Z;
  spinner : nat;
  width : Z;
  height : Z;
  namespace : string;
  ignorePattern : string;
  kubeconfigPath : string;
  baseline : option Snapshot;
  current : option Snapshot;
  diffResult : option DiffResult;
  diffOutput : string;
  viewport : Viewport;
  table : Table;
  error : option string;
  showHelp : bool;
  outputFormat : string;
  selectedResource : option ResourceDiff;
  clusterInfo : string;
  resourceFilter : FilterType.t;
  statusMessage : string;
  statusMessageTime : Time
}.

(** Assignments to one field of the model. *)
Definition set_state (v : stateT) (m : Model) : Model :=
  {| state := v; keyMap := keyMap m; helpWidth := helpWidth m; spinner :=
     spinner m; width := width m; height := height m; namespace := namespace
     m; ignorePattern := ignorePattern m; kubeconfigPath := kubeconfigPath
     m; baseline := baseline m; current := current m; diffResult :=
     diffResult m; diffOutput := diffOutput m; viewport := viewport m; table
     := table m; error := error m; showHelp := showHelp m; outputFormat :=
     outputFormat m; selectedResource := selectedResource m; clusterInfo :=
     clusterInfo m; resourceFilter := resourceFilter m; statusMessage :=
     statusMessage m; statusMessageTime := statusMessageTime m |}.
Definition set_baseline (v : option Snapshot) (m : Model) : Model :=
  {| state := state m; keyMap := keyMap m; helpWidth := helpWidth m; spinner
     := spinner m; width := width m; height := height m; namespace :=
     namespace m; ignorePattern := ignorePattern m; kubeconfigPath :=
     kubeconfigPath m; baseline := v; current := current m; diffResult :=
     diffResult m; diffOutput := diffOutput m; viewport := viewport m; table
     := table m; error := error m; showHelp := showHelp m; outputFormat :=
     outputFormat m; selectedResource := selectedResource m; clusterInfo :=
     clusterInfo m; resourceFilter := resourceFilter m; statusMessage :=
     statusMessage m; statusMessageTime := statusMessageTime m |}.
Definition set_current (v : option Snapshot) (m : Model) : Model :=
  {| state := state m; keyMap := keyMap m; helpWidth := helpWidth m; spinner
     := spinner m; width := width m; height := height m; namespace :=
     namespace m; ignorePattern := ignorePattern m; kubeconfigPath :=
     kubeconfigPath m; baseline := baseline m; current := v; diffResult :=
     diffResult m; diffOutput := diffOutput m; viewport := viewport m; table
     := table m; error := error m; showHelp := showHelp m; outputFormat :=
     outputFormat m; selectedResource := selectedResource m; clusterInfo :=
     clusterInfo m; resourceFilter := resourceFilter m; statusMessage :=
     statusMessage m; statusMessageTime := statusMessageTime m |}.
Definition set_diffResult (v : option DiffResult) (m : Model) : Model :=
  {| state := state m; keyMap := keyMap m; helpWidth := helpWidth m; spinner
     := spinner m; width := width m; height := height m; namespace :=
     namespace m; ignorePattern := ignorePattern m; kubeconfigPath :=
     kubeconfigPath m; baseline := baseline m; current := current m;
     diffResult := v; diffOutput := diffOutput m; viewport := viewport m;
     table := table m; error := error m; showHelp := showHelp m;
     outputFormat := outputFormat m; selectedResource := selectedResource m;
     clusterInfo := clusterInfo m; resourceFilter := resourceFilter m;
     statusMessage := statusMessage m; statusMessageTime :=
     statusMessageTime m |}.
Definition set_diffOutput (v : string) (m : Model) : Model :=
  {| state := state m; keyMap := keyMap m; helpWidth := helpWidth m; spinner
     := spinner m; width := width m; height := height m; namespace :=
     namespace m; ignorePattern := ignorePattern m; kubeconfigPath :=
     kubeconfigPath m; baseline := baseline m; current := current m;
     diffResult := diffResult m; diffOutput := v; viewport := viewport m;
     table := table m; error := error m; showHelp := showHelp m;
     outputFormat := outputFormat m; selectedResource := selectedResource m;
     clusterInfo := clusterInfo m; resourceFilter := resourceFilter m;
     statusMessage := statusMessage m; statusMessageTime :=
     statusMessageTime m |}.
Definition set_viewport (v : Viewport) (m : Model) : Model :=
  {| state := state m; keyMap := keyMap m; helpWidth := helpWidth m; spinner
     := spinner m; width := width m; height := height m; namespace :=
     namespace m; ignorePattern := ignorePattern m; kubeconfigPath :=
     kubeconfigPath m; baseline := baseline m; current := current m;
     diffResult := diffResult m; diffOutput := diffOutput m; viewport := v;
     table := table m; error := error m; showHelp := showHelp m;
     outputFormat := outputFormat m; selectedResource := selectedResource m;
     clusterInfo := clusterInfo m; resourceFilter := resourceFilter m;
     statusMessage := statusMessage m; statusMessageTime :=
     statusMessageTime m |}.
Definition set_table (v : Table) (m : Model) : Model :=
  {| state := state m; keyMap := keyMap m; helpWidth := helpWidth m; spinner
     := spinner m; width := width m; height := height m; namespace :=
     namespace m; ignorePattern := ignorePattern m; kubeconfigPath :=
     kubeconfigPath m; baseline := baseline m; current := current m;
     diffResult := diffResult m; diffOutput := diffOutput m; viewport :=
     viewport m; table := v; error := error m; showHelp := showHelp m;
     outputFormat := outputFormat m; selectedResource := selectedResource m;
     clusterInfo := clusterInfo m; resourceFilter := resourceFilter m;
     statusMessage := statusMessage m; statusMessageTime :=
     statusMessageTime m |}.
Definition set_error (v : option string) (m : Model) : Model :=
  {| state := state m; keyMap := keyMap m; helpWidth := helpWidth m; spinner
     := spinner m; width := width m; height := height m; namespace :=
     namespace m; ignorePattern := ignorePattern m; kubeconfigPath :=
     kubeconfigPath m; baseline := baseline m; current := current m;
     diffResult := diffResult m; diffOutput := diffOutput m; viewport :=
     viewport m; table := table m; error := v; showHelp := showHelp m;
     outputFormat := outputFormat m; selectedResource := selectedResource m;
     clusterInfo := clusterInfo m; resourceFilter := resourceFilter m;
     statusMessage := statusMessage m; statusMessageTime :=
     statusMessageTime m |}.
Definition set_showHelp (v : bool) (m : Model) : Model :=
  {| state := state m; keyMap := keyMap m; helpWidth := helpWidth m; spinner
     := spinner m; width := width m; height := height m; namespace :=
     namespace m; ignorePattern := ignorePattern m; kubeconfigPath :=
     kubeconfigPath m; baseline := baseline m; current := current m;
     diffResult := diffResult m; diffOutput := diffOutput m; viewport :=
     viewport m; table := table m; error := error m; showHelp := v;
     outputFormat := outputFormat m; selectedResource := selectedResource m;
     clusterInfo := clusterInfo m; resourceFilter := resourceFilter m;
     statusMessage := statusMessage m; statusMessageTime :=
     statusMessageTime m |}.
Definition set_outputFormat (v : string) (m : Model) : Model :=
  {| state := state m; keyMap := keyMap m; helpWidth := helpWidth m; spinner
     := spinner m; width := width m; height := height m; namespace :=
     namespace m; ignorePattern := ignorePattern m; kubeconfigPath :=
     kubeconfigPath m; baseline := baseline m; current := current m;
     diffResult := diffResult m; diffOutput := diffOutput m; viewport :=
     viewport m; table := table m; error := error m; showHelp := showHelp m;
     outputFormat := v; selectedResource := selectedResource m; clusterInfo
     := clusterInfo m; resourceFilter := resourceFilter m; statusMessage :=
     statusMessage m; statusMessageTime := statusMessageTime m |}.
Definition set_selectedResource (v : option ResourceDiff) (m : Model) : Model :=
  {| state := state m; keyMap := keyMap m; helpWidth := helpWidth m; spinner
     := spinner m; width := width m; height := height m; namespace :=
     namespace m; ignorePattern := ignorePattern m; kubeconfigPath :=
     kubeconfigPath m; baseline := baseline m; current := current m;
     diffResult := diffResult m; diffOutput := diffOutput m; viewport :=
     viewport m; table := table m; error := error m; showHelp := showHelp m;
     outputFormat := outputFormat m; selectedResource := v; clusterInfo :=
     clusterInfo m; resourceFilter := resourceFilter m; statusMessage :=
     statusMessage m; statusMessageTime := statusMessageTime m |}.
Definition set_resourceFilter (v : FilterType.t) (m : Model) : Model :=
  {| state := state m; keyMap := keyMap m; helpWidth := helpWidth m; spinner
     := spinner m; width := width m; height := height m; namespace :=
     namespace m; ignorePattern := ignorePattern m; kubeconfigPath :=
     kubeconfigPath m; baseline := baseline m; current := current m;
     diffResult := diffResult m; diffOutput := diffOutput m; viewport :=
     viewport m; table := table m; error := error m; showHelp := showHelp m;
     outputFormat := outputFormat m; selectedResource := selectedResource m;
     clusterInfo := clusterInfo m; resourceFilter := v; statusMessage :=
     statusMessage m; statusMessageTime := statusMessageTime m |}.
Definition set_statusMessage (v : string) (m : Model) : Model :=
  {| state := state m; keyMap := keyMap m; helpWidth := helpWidth m; spinner
     := spinner m; width := width m; height := height m; namespace :=
     namespace m; ignorePattern := ignorePattern m; kubeconfigPath :=
     kubeconfigPath m; baseline := baseline m; current := current m;
     diffResult := diffResult m; diffOutput := diffOutput m; viewport :=
     viewport m; table := table m; error := error m; showHelp := showHelp m;
     outputFormat := outputFormat m; selectedResource := selectedResource m;
     clusterInfo := clusterInfo m; resourceFilter := resourceFilter m;
     statusMessage := v; statusMessageTime := statusMessageTime m |}.
Definition set_statusMessageTime (v : Time) (m : Model) : Model :=
  {| state := state m; keyMap := keyMap m; helpWidth := helpWidth m; spinner
     := spinner m; width := width m; height := height m; namespace :=
     namespace m; ignorePattern := ignorePattern m; kubeconfigPath :=
     kubeconfigPath m; baseline := baseline m; current := current m;
     diffResult := diffResult m; diffOutput := diffOutput m; viewport :=
     viewport m; table := table m; error := error m; showHelp := showHelp m;
     outputFormat := outputFormat m; selectedResource := selectedResource m;
     clusterInfo := clusterInfo m; resourceFilter := resourceFilter m;
     statusMessage := statusMessage m; statusMessageTime := v |}.
Definition set_width (v : Z) (m : Model) : Model :=
  {| state := state m; keyMap := keyMap m; helpWidth := helpWidth m; spinner
     := spinner m; width := v; height := height m; namespace := namespace m;
     ignorePattern := ignorePattern m; kubeconfigPath := kubeconfigPath m;
     baseline := baseline m; current := current m; diffResult := diffResult
     m; diffOutput := diffOutput m; viewport := viewport m; table := table
     m; error := error m; showHelp := showHelp m; outputFormat :=
     outputFormat m; selectedResource := selectedResource m; clusterInfo :=
     clusterInfo m; resourceFilter := resourceFilter m; statusMessage :=
     statusMessage m; statusMessageTime := statusMessageTime m |}.
Definition set_height (v : Z) (m : Model) : Model :=
  {| state := state m; keyMap := keyMap m; helpWidth := helpWidth m; spinner
     := spinner m; width := width m; height := v; namespace := namespace m;
     ignorePattern := ignorePattern m; kubeconfigPath := kubeconfigPath m;
     baseline := baseline m; current := current m; diffResult := diffResult
     m; diffOutput := diffOutput m; viewport := viewport m; table := table
     m; error := error m; showHelp := showHelp m; outputFormat :=
     outputFormat m; selectedResource := selectedResource m; clusterInfo :=
     clusterInfo m; resourceFilter := resourceFilter m; statusMessage :=
     statusMessage m; statusMessageTime := statusMessageTime m |}.
Definition set_helpWidth (v : Z) (m : Model) : Model :=
  {| state := state m; keyMap := keyMap m; helpWidth := v; spinner :=
     spinner m; width := width m; height := height m; namespace := namespace
     m; ignorePattern := ignorePattern m; kubeconfigPath := kubeconfigPath
     m; baseline := baseline m; current := current m; diffResult :=
     diffResult m; diffOutput := diffOutput m; viewport := viewport m; table
     := table m; error := error m; showHelp := showHelp m; outputFormat :=
     outputFormat m; selectedResource := selectedResource m; clusterInfo :=
     clusterInfo m; resourceFilter := resourceFilter m; statusMessage :=
     statusMessage m; statusMessageTime := statusMessageTime m |}.
Definition set_spinner (v : nat) (m : Model) : Model :=
  {| state := state m; keyMap := keyMap m; helpWidth := helpWidth m; spinner
     := v; width := width m; height := height m; namespace := namespace m;
     ignorePattern := ignorePattern m; kubeconfigPath := kubeconfigPath m;
     baseline := baseline m; current := current m; diffResult := diffResult
     m; diffOutput := diffOutput m; viewport := viewport m; table := table
     m; error := error m; showHelp := showHelp m; outputFormat :=
     outputFormat m; selectedResource := selectedResource m; clusterInfo :=
     clusterInfo m; resourceFilter := resourceFilter m; statusMessage :=
     statusMessage m; statusMessageTime := statusMessageTime m |}.

Definition tableColumns : list (string * Z) :=
  [("OPERATION", 12); ("KIND", 35); ("NAMESPACE", 20); ("NAME", 30);
   ("RESOURCE VERSION", 25); ("SPEC HASH", 25)].

Definition New (namespace ignorePattern kubeconfigPath : string) : Model :=
  {| state := stateReady;
     keyMap := DefaultKeyMap;
     helpWidth := 0;
     spinner := O;
     width := 0;
     height := 0;
     namespace := namespace;
     ignorePattern := ignorePattern;
     kubeconfigPath := kubeconfigPath;
     baseline := None;
     current := None;
     diffResult := None;
     diffOutput := "";
     viewport := {| content := ""; vpWidth := 0; vpHeight := 0; yOffset := 0 |};
     table := table_New tableColumns 20;
     error := None;
     showHelp := true;
     outputFormat := "table";
     selectedResource := None;
     clusterInfo := "";
     resourceFilter := FilterType.FilterAll;
     statusMessage := "";
     statusMessageTime := 0 |}.

Inductive Msg :=
| KeyMsg (k : string)
| WindowSizeMsg (w h : Z)
| spinner_TickMsg
| baselineCapturedMsg (snapshot : option Snapshot) (err : option string)
| currentStateCapturedMsg (snapshot : option Snapshot) (err : option string)
| diffOutputUpdatedMsg (output : string)
| resourceDetailLoadedMsg (output : string)
| tableUpdatedMsg (r : list Row)
| clearStatusMessageMsg
| otherMsg.

(** The commands [Update] hands to the runtime.  A command made by a
    method of the model holds the copy of the model it was made from. *)
Inductive Cmd :=
| tea_Quit
| captureBaselineCmd (m : Model)
| captureCurrentStateCmd (m : Model)
| spinner_Tick
| updateDiffOutputCmd (m : Model)
| updateTableWithFilterCmd (m : Model)
| loadResourceDetailCmd (m : Model)
| hideStatusMessageCmd (seconds : Z)
| viewport_Cmd.

Definition addedRow (res : ResourceDiff) : Row :=
  ["Added"; GroupVersionKind (Resource res); Namespace (Resource res);
   Name (Resource res); ResourceVersion (Resource res); SpecHash (Resource res)].

Definition removedRow (res : ResourceDiff) : Row :=
  ["Removed"; GroupVersionKind (Resource res); Namespace (Resource res);
   Name (Resource res); ResourceVersion (Resource res); SpecHash (Resource res)].

Definition modifiedRow (res : ResourceDiff) : Row :=
  ["Modified"; GroupVersionKind (Resource res); Namespace (Resource res);
   Name (Resource res);
   OldResourceVersion res +:+ " → " +:+ NewResourceVersion res;
   OldSpecHash res +:+ " → " +:+ NewSpecHash res].

Definition buildTableRowsForAddedOnly (d : DiffResult) : list Row := map addedRow (Added d).
Definition buildTableRowsForRemovedOnly (d : DiffResult) : list Row := map removedRow (Removed d).
Definition buildTableRowsForModifiedOnly (d : DiffResult) : list Row := map modifiedRow (Modified d).

Definition buildTableRows (d : DiffResult) : list Row :=
  map addedRow (Added d) ++ map removedRow (Removed d) ++ map modifiedRow (Modified d).

Definition minWidths : list Z := [10; 20; 15; 15; 15; 15].
Definition flexFactors : list Z := [1; 3; 2; 3; 2; 2].

(** The sum of a list of integers, without bound. *)
Definition sumZ (l : list Z) : Z := foldl Z.add 0 l.

(** Go's [int], taken at its 64 bits: a result that does not fit wraps
    around; division truncates towards zero. *)
Definition wrap (x : Z) : Z := (x + 2 ^ 63) mod 2 ^ 64 - 2 ^ 63.
Definition int_add (x y : Z) : Z := wrap (x + y).
Definition int_sub (x y : Z) : Z := wrap (x - y).
Definition int_mul (x y : Z) : Z := wrap (x * y).
Definition int_quot (x y : Z) : Z := wrap (Z.quot x y).

(** [for _, w := range l { total += w }]. *)
Definition sumInt (l : list Z) : Z := foldl int_add 0 l.

Definition adjustColumnWidths (cols : list (string * Z)) (totalWidth : Z)
    : list (string * Z) :=
  let totalMinWidth := sumInt minWidths in
  let totalFlex := sumInt flexFactors in
  let extraSpace := int_sub (int_sub totalWidth totalMinWidth) 5 in
  let extraSpace := if extraSpace <? 0 then 0 else extraSpace in
  imap (λ i col,
    match minWidths !! i, flexFactors !! i with
    | Some minWidth, Some flex =>
        let flexSpace :=
          if 0 <? totalFlex then int_quot (int_mul extraSpace flex) totalFlex else 0 in
        (col.1, int_add minWidth flexSpace)
    | _, _ => col
    end) cols.

(** The first entry of [resources] with the identity shown in the row. *)
Definition findIn (resources : list ResourceDiff) (kind namespace name : string)
    : option ResourceDiff :=
  list_find (λ res, GroupVersionKind (Resource res) = kind
                    ∧ Namespace (Resource res) = namespace
                    ∧ Name (Resource res) = name) resources
  ≫= λ found, Some found.2.

Definition findSelectedResource (m : Model) (selectedRow : Row) : option ResourceDiff :=
  match diffResult m with
  | None => None
  | Some d =>
      match selectedRow with
      | operation :: kind :: namespace :: name :: _ :: _ :: _ =>
          if bool_decide (operation = "Added") then findIn (Added d) kind namespace name
          else if bool_decide (operation = "Removed") then findIn (Removed d) kind namespace name
          else if bool_decide (operation = "Modified") then findIn (Modified d) kind namespace name
          else None
      | _ => None
      end
  end.

Definition three_seconds : Z := 3000000000.

Section Update.
Variable range : gmap string ResourceInfo → list (string * ResourceInfo).
(** [clipboard.WriteAll]: the error it returns, if any. *)
Variable clipboard_WriteAll : string → option string.
(** [time.Now()]. *)
Variable now : Time.

Definition isCapturing (s : stateT) : bool :=
  bool_decide (s = stateCapturingBaseline) || bool_decide (s = stateCapturingCurrent).

(** The part of the key handler after its first [switch]: scrolling,
    then [return m, tea.Batch(cmds...)]. *)
Definition scrollKeys (m : Model) (cmds : list Cmd) (k : string) : Model * list Cmd :=
  let km := keyMap m in
  if decide (state m = stateShowingDiff) then
    if bool_decide (outputFormat m = "table") then
      if key_Matches k (Up km) then (set_table (table_MoveUp (table m) 1) m, [])
      else if key_Matches k (Down km) then (set_table (table_MoveDown (table m) 1) m, [])
      else if key_Matches k (PageUp km) then (set_table (table_MoveUp (table m) 10) m, [])
      else if key_Matches k (PageDown km) then (set_table (table_MoveDown (table m) 10) m, [])
      else (m, cmds)
    else
      if key_Matches k (Up km) then (set_viewport (viewport_LineUp (viewport m) 1) m, cmds)
      else if key_Matches k (Down km) then (set_viewport (viewport_LineDown (viewport m) 1) m, cmds)
      else if key_Matches k (PageUp km) then (set_viewport (viewport_PageUp (viewport m)) m, cmds)
      else if key_Matches k (PageDown km) then (set_viewport (viewport_PageDown (viewport m)) m, cmds)
      else (m, cmds)
  else if decide (state m = stateShowingResourceDetail) then
    if key_Matches k (Up km) then (set_viewport (viewport_LineUp (viewport m) 1) m, cmds)
    else if key_Matches k (Down km) then (set_viewport (viewport_LineDown (viewport m) 1) m, cmds)
    else if key_Matches k (PageUp km) then (set_viewport (viewport_PageUp (viewport m)) m, cmds)
    else if key_Matches k (PageDown km) then (set_viewport (viewport_PageDown (viewport m)) m, cmds)
    else (m, cmds)
  else (m, cmds).

Definition manifestOf (r : option ResourceInfo) : string :=
  match r with
  | Some res => Manifest res
  | None => ""
  end.

(** The manifest the copy key puts on the clipboard. *)
Definition yamlToCopy (sel : ResourceDiff) : string :=
  match Type_ sel with
  | DiffType.Added => manifestOf (CurrentResource sel)
  | DiffType.Removed => manifestOf (BaselineResource sel)
  | DiffType.Modified =>
      if bool_decide (manifestOf (CurrentResource sel) ≠ "")
      then manifestOf (CurrentResource sel)
      else manifestOf (BaselineResource sel)
  end.

Definition showStatus (text : string) (m : Model) : Model * list Cmd :=
  (set_statusMessageTime (now + three_seconds) (set_statusMessage text m),
   [hideStatusMessageCmd 3]).

Definition setFilter (f : FilterType.t) (m : Model) (k : string) : Model * list Cmd :=
  if decide (resourceFilter m ≠ f)
  then let m := set_resourceFilter f m in scrollKeys m [updateTableWithFilterCmd m] k
  else scrollKeys m [] k.

Definition toggleView (m : Model) (k : string) : Model * list Cmd :=
  if bool_decide (outputFormat m = "table")
  then let m := set_outputFormat "yaml" m in scrollKeys m [updateDiffOutputCmd m] k
  else if bool_decide (outputFormat m = "yaml")
  then let m := set_outputFormat "json" m in scrollKeys m [updateDiffOutputCmd m] k
  else if bool_decide (outputFormat m = "json")
  then let m := set_outputFormat "table" m in scrollKeys m [updateDiffOutputCmd m] k
  else scrollKeys m [] k.

(** [case tea.KeyMsg] of [Update]: the first case of the [switch] whose
    condition holds is taken, also when its body does nothing. *)
Definition updateKey (m : Model) (k : string) : Model * list Cmd :=
  let km := keyMap m in
  if key_Matches k (ForceQuit km) then (m, [tea_Quit])
  else if key_Matches k (Quit km) then
    if decide (state m = stateShowingResourceDetail)
    then (* Return to diff view when quitting from detail view *)
      (set_state stateShowingDiff m, [])
    else if negb (isCapturing (state m)) then (m, [tea_Quit])
    else scrollKeys m [] k
  else if key_Matches k (Escape km) && bool_decide (state m = stateShowingResourceDetail)
  then (set_selectedResource None (set_state stateShowingDiff m), [])
  else if key_Matches k (CopyYAML km) then
    match decide (state m = stateShowingResourceDetail), selectedResource m with
    | left _, Some sel =>
        let yamlManifest := yamlToCopy sel in
        if bool_decide (yamlManifest ≠ "") then
          match clipboard_WriteAll yamlManifest with
          | None => showStatus "✓ YAML copied to clipboard" m
          | Some err => showStatus ("✗ Failed to copy to clipboard: " +:+ err) m
          end
        else showStatus "✗ No YAML manifest available to copy" m
    | _, _ => scrollKeys m [] k
    end
  else if key_Matches k (Help km) then scrollKeys (set_showHelp (negb (showHelp m)) m) [] k
  else if key_Matches k (ToggleView km) && bool_decide (state m = stateShowingDiff)
  then toggleView m k
  else if key_Matches k (FilterAll km) && bool_decide (state m = stateShowingDiff)
  then setFilter FilterType.FilterAll m k
  else if key_Matches k (FilterAdded km) && bool_decide (state m = stateShowingDiff)
  then setFilter FilterType.FilterAdded m k
  else if key_Matches k (FilterRemoved km) && bool_decide (state m = stateShowingDiff)
  then setFilter FilterType.FilterRemoved m k
  else if key_Matches k (FilterModified km) && bool_decide (state m = stateShowingDiff)
  then setFilter FilterType.FilterModified m k
  else if key_Matches k (Capture km) && bool_decide (state m = stateReady) then
    let m := set_state stateCapturingBaseline m in
    scrollKeys m [captureBaselineCmd m; spinner_Tick] k
  else if key_Matches k (Continue km) && bool_decide (state m = stateBaselineCaptured) then
    let m := set_state stateCapturingCurrent m in
    scrollKeys m [captureCurrentStateCmd m; spinner_Tick] k
  else if key_Matches k (Continue km) && bool_decide (state m = stateShowingDiff) then
    (* Move current snapshot to baseline position *)
    let m := set_baseline (current m) m in
    let m := set_current None m in
    let m := set_diffResult None m in
    let m := set_diffOutput "" m in
    let m := set_state stateCapturingCurrent m in
    scrollKeys m [captureCurrentStateCmd m; spinner_Tick] k
  else if key_Matches k (Back km) then
    match state m with
    | stateBaselineCaptured =>
        scrollKeys (set_baseline None (set_state stateReady m)) [] k
    | stateShowingDiff =>
        scrollKeys (set_diffOutput "" (set_diffResult None (set_current None
                      (set_state stateBaselineCaptured m)))) [] k
    | stateShowingResourceDetail =>
        scrollKeys (set_selectedResource None (set_state stateShowingDiff m)) [] k
    | _ => scrollKeys m [] k
    end
  else if key_Matches k (Enter km) && bool_decide (state m = stateShowingDiff)
          && bool_decide (outputFormat m = "table") then
    if negb (focus (table m)) then scrollKeys m [] k
    else
      let selectedRow := table_SelectedRow (table m) in
      if Nat.eqb (length selectedRow) 0 then scrollKeys m [] k
      else
        match findSelectedResource m selectedRow with
        | Some resourceDiff =>
            let m := set_selectedResource (Some resourceDiff) m in
            let m := set_state stateShowingResourceDetail m in
            scrollKeys m [loadResourceDetailCmd m] k
        | None => scrollKeys m [] k
        end
  else scrollKeys m [] k.

Definition updateWindowSize (m : Model) (w h : Z) : Model * list Cmd :=
  let m := set_height h m in
  let m := set_width w m in
  let headerHeight := 6 in
  let footerHeight := if showHelp m then 6 else 2 in
  let viewportHeight := int_sub (int_sub h headerHeight) footerHeight in
  let m := set_viewport (viewport_SetContent (viewport_New w viewportHeight) (diffOutput m)) m in
  let m := set_table (table_SetWidth (table_SetHeight (table m) viewportHeight) w) m in
  let adjustedColumns := adjustColumnWidths (columns (table m)) w in
  let m := set_table (table_New adjustedColumns viewportHeight) m in
  let m :=
    match decide (state m = stateShowingDiff), diffResult m with
    | left _, Some d =>
        if bool_decide (outputFormat m = "table")
        then set_table (table_SetRows (table m) (buildTableRows d)) m
        else m
    | _, _ => m
    end in
  (set_helpWidth w m, [viewport_Cmd]).

(** [Update]: the new model and the commands of the batch it returns
    ([return m, nil] is the empty batch).  [diff.Compare] dereferences both
    snapshots: a nil one is a panic. *)
Definition Update (m : Model) (msg : Msg) : Result (Model * list Cmd) :=
  match msg with
  | KeyMsg k => Ok (updateKey m k)
  | WindowSizeMsg w h => Ok (updateWindowSize m w h)
  | spinner_TickMsg =>
      if isCapturing (state m) then Ok (set_spinner (S (spinner m)) m, [spinner_Tick])
      else Ok (m, [])
  | baselineCapturedMsg snapshot err =>
      let m := set_baseline snapshot (set_state stateBaselineCaptured m) in
      match err with
      | Some e => Ok (set_error (Some e) (set_state stateError m), [])
      | None => Ok (m, [])
      end
  | currentStateCapturedMsg snapshot err =>
      match err with
      | Some e => Ok (set_error (Some e) (set_state stateError m), [])
      | None =>
          let m := set_state stateShowingDiff (set_current snapshot m) in
          match baseline m, current m with
          | Some b, Some c =>
              let m := set_diffResult (Some (Compare range b c)) m in
              Ok (m, [updateDiffOutputCmd m])
          | _, _ => Panic "invalid memory address or nil pointer dereference"
          end
      end
  | diffOutputUpdatedMsg output =>
      let m := set_diffOutput output m in
      if bool_decide (outputFormat m = "table") then Ok (m, [updateTableWithFilterCmd m])
      else Ok (set_viewport (viewport_GotoTop (viewport_SetContent (viewport m) (diffOutput m))) m, [])
  | resourceDetailLoadedMsg output =>
      Ok (set_viewport (viewport_GotoTop (viewport_SetContent (viewport m) output)) m, [])
  | tableUpdatedMsg r => Ok (set_table (table_SetRows (table m) r) m, [])
  | clearStatusMessageMsg => Ok (set_statusMessage "" m, [])
  | otherMsg => Ok (m, [])
  end.

Definition isQuit (c : Cmd) : bool :=
  match c with
  | tea_Quit => true
  | _ => false
  end.

(** Whether the batch a handler returned asks the runtime to stop. *)
Definition quits (cmds : list Cmd) : bool := existsb isQuit cmds.

(** The loop of the runtime: messages are handled one at a time, in the
    order of their delivery, until a handler returns [tea.Quit].  The
    result tells whether the loop was ended by a quit. *)
Fixpoint Run (m : Model) (msgs : list Msg) : Result (Model * bool) :=
  match msgs with
  | [] => Ok (m, false)
  | msg :: rest =>
      match Update m msg with
      | Ok (m', cmds) =>
          if quits cmds then Ok (m', true) else Run m' rest
      | Err e => Err e
      | Panic e => Panic e
      end
  end.

End Update.

End Tui.

(** ** package main: the command line *)

Module Cli.

(** What cobra makes of the arguments: one of the two subcommands with
    its flags, the bare root command (which prints the usage), or an
    error such as an unknown command or flag. *)
Inductive Invocation :=
| invokeStart (namespace ignorePattern kubeconfigPath : string)
              (useDefaultExclusions includeSystemNamespaces : bool)
| invokeList
| invokeRoot
| invokeInvalid (err : string).

(** The model the [start] command hands to the runtime. *)
Definition startModel (namespace ignorePattern kubeconfigPath : string)
    (useDefaultExclusions : bool) : Tui.Model :=
  let finalIgnorePattern := if useDefaultExclusions then "" else ignorePattern in
  Tui.New namespace finalIgnorePattern kubeconfigPath.

(** The exit status of [main].  [p_Run] is [p.Run()] of the Bubble Tea
    program: the final model and the error of the runtime, if any.  The
    status is 1 where the code calls [os.Exit(1)] and 0 where [main]
    returns. *)
Definition main (inv : Invocation)
    (p_Run : Tui.Model → Tui.Model * option string) : Z :=
  match inv with
  | invokeStart namespace ignorePattern kubeconfigPath useDefaultExclusions _ =>
      let model := startModel namespace ignorePattern kubeconfigPath useDefaultExclusions in
      match (p_Run model).2 with
      | Some _ => 1
      | None => 0
      end
  | invokeList => 0
  | invokeRoot => 0
  | invokeInvalid _ => 1
  end%Z.

(** [p.Run()] on a sequence of delivered messages: the runtime may fail
    to start (no terminal); otherwise it runs the loop and returns the
    final model.  A panic of the handler is caught by the runtime and
    comes back as its error. *)
Definition runProgram
    (range : gmap string Snap.ResourceInfo → list (string * Snap.ResourceInfo))
    (clipboard_WriteAll : string → option string) (now : Snap.Time)
    (startupError : option string) (msgs : list Tui.Msg)
    (model : Tui.Model) : Tui.Model * option string :=
  match startupError with
  | Some e => (model, Some e)
  | None =>
      match Tui.Run range clipboard_WriteAll now model msgs with
      | Ok (m, _) => (m, None)
      | Err e => (model, Some e)
      | Panic e => (model, Some e)
      end
  end.

End Cli.

(** ** The diff engine, entry by entry

    What each loop of [Compare] emits at one entry of the map it visits,
    and when two snapshots agree at a key. *)

Module DiffSpec.
Import Snap Diff.

Definition addedAt (baseline : Snapshot) (kv : string * ResourceInfo)
    : option ResourceDiff :=
  match Resources baseline !! kv.1 with
  | None => Some (addedDiff kv.2)
  | Some _ => None
  end.

Definition modifiedAt (baseline : Snapshot) (kv : string * ResourceInfo)
    : option ResourceDiff :=
  match Resources baseline !! kv.1 with
  | Some baseRes =>
      if bool_decide (ResourceVersion kv.2 ≠ ResourceVersion baseRes)
         || bool_decide (SpecHash kv.2 ≠ SpecHash baseRes)
      then Some (modifiedDiff baseRes kv.2)
      else None
  | None => None
  end.

Definition removedAt (current : Snapshot) (kv : string * ResourceInfo)
    : option ResourceDiff :=
  match Resources current !! kv.1 with
  | None => Some (removedDiff kv.2)
  | Some _ => None
  end.

(** Two snapshots agree at a key when both lack it, or both hold it with
    the same resourceVersion and the same specHash. *)
Definition agreeAt (baseline current : Snapshot) (k : string) : Prop :=
  match Resources baseline !! k, Resources current !! k with
  | Some baseRes, Some res =>
      ResourceVersion res = ResourceVersion baseRes ∧ SpecHash res = SpecHash baseRes
  | None, None => True
  | _, _ => False
  end.

Definition emptyResult : DiffResult :=
  {| Added := []; Removed := []; Modified := [] |}.

End DiffSpec.

(** ** package tui: what the commands do when the runtime runs them

    A command is a closure over the copy of the model it was made from;
    running it yields the message that is delivered to [Update] next, or
    none.  The text differ, the JSON and YAML printers of the diff and
    the capture are taken from outside. *)

Module TuiCmd.
Import Snap Diff Tui.

(** The line feed. *)
Definition nl : string := String (ascii_of_N 10) "".

Definition nilDereference : string :=
  "invalid memory address or nil pointer dereference".

Section Commands.
(** [generateYAMLDiff]: go-diff and the colours of lipgloss. *)
Variable generateYAMLDiff : string → string → string.
(** [diff.OutputJSON] and [diff.OutputYAML] into a string builder. *)
Variable OutputJSON : option DiffResult → string.
Variable OutputYAML : option DiffResult → string.
(** [snapshot.CaptureSnapshot] on the cluster at hand. *)
Variable CaptureSnapshot : string → string → string → Result Snapshot.

Definition detailHeader (sel : ResourceDiff) : string :=
  "Kind: " +:+ GroupVersionKind (Resource sel) +:+ nl
  +:+ "Name: " +:+ Name (Resource sel) +:+ nl
  +:+ "Namespace: " +:+ Namespace (Resource sel) +:+ nl
  +:+ "---" +:+ nl +:+ nl.

(** The closure of [loadResourceDetailCmd]. *)
Definition loadResourceDetail (m : Model) : Result (option Msg) :=
  match selectedResource m with
  | None => Ok None
  | Some sel =>
      if IsPresentInBaseline sel && IsPresentInCurrent sel then
        (* It's a modified resource, show a diff *)
        match BaselineResource sel, CurrentResource sel with
        | Some old, Some new =>
            Ok (Some (resourceDetailLoadedMsg
              (detailHeader sel +:+ "## YAML Diff (- old, + new)" +:+ nl +:+ nl
               +:+ generateYAMLDiff (Manifest old) (Manifest new))))
        | _, _ => Panic nilDereference
        end
      else if IsPresentInBaseline sel then
        (* Removed resource *)
        match BaselineResource sel with
        | Some old =>
            Ok (Some (resourceDetailLoadedMsg
              (detailHeader sel +:+ "## Removed Resource (Baseline Manifest)" +:+ nl +:+ nl
               +:+ Manifest old)))
        | None => Panic nilDereference
        end
      else
        (* Added resource *)
        match CurrentResource sel with
        | Some new =>
            Ok (Some (resourceDetailLoadedMsg
              (detailHeader sel +:+ "## Added Resource (Current Manifest)" +:+ nl +:+ nl
               +:+ Manifest new)))
        | None => Panic nilDereference
        end
  end.

(** The closure of [updateTableWithFilterCmd]. *)
Definition updateTableWithFilter (m : Model) : Result (option Msg) :=
  match diffResult m with
  | None => Ok None
  | Some d =>
      Ok (Some (tableUpdatedMsg
        match resourceFilter m with
        | FilterType.FilterAll => buildTableRows d
        | FilterType.FilterAdded => buildTableRowsForAddedOnly d
        | FilterType.FilterRemoved => buildTableRowsForRemovedOnly d
        | FilterType.FilterModified => buildTableRowsForModifiedOnly d
        end))
  end.

(** The closure of [updateDiffOutputCmd]; in table format it calls
    [IsEmpty] on the diff, which must not be nil. *)
Definition updateDiffOutput (m : Model) : Result (option Msg) :=
  if bool_decide (outputFormat m = "json")
  then Ok (Some (diffOutputUpdatedMsg (OutputJSON (diffResult m))))
  else if bool_decide (outputFormat m = "yaml")
  then Ok (Some (diffOutputUpdatedMsg (OutputYAML (diffResult m))))
  else
    match diffResult m with
    | Some d =>
        Ok (Some (diffOutputUpdatedMsg
          (if IsEmpty d then "No differences detected" else "")))
    | None => Panic nilDereference
    end.

(** The closures of [captureBaselineCmd] and [captureCurrentStateCmd]. *)
Definition captureBaseline (m : Model) : Result (option Msg) :=
  match CaptureSnapshot (namespace m) (ignorePattern m) (kubeconfigPath m) with
  | Ok snapshot => Ok (Some (baselineCapturedMsg (Some snapshot) None))
  | Err e => Ok (Some (baselineCapturedMsg None (Some e)))
  | Panic e => Panic e
  end.

Definition captureCurrentState (m : Model) : Result (option Msg) :=
  match CaptureSnapshot (namespace m) (ignorePattern m) (kubeconfigPath m) with
  | Ok snapshot => Ok (Some (currentStateCapturedMsg (Some snapshot) None))
  | Err e => Ok (Some (currentStateCapturedMsg None (Some e)))
  | Panic e => Panic e
  end.

(** What the runtime delivers after running a command. *)
Definition runCmd (c : Cmd) : Result (option Msg) :=
  match c with
  | tea_Quit => Ok None
  | captureBaselineCmd m => captureBaseline m
  | captureCurrentStateCmd m => captureCurrentState m
  | spinner_Tick => Ok (Some spinner_TickMsg)
  | updateDiffOutputCmd m => updateDiffOutput m
  | updateTableWithFilterCmd m => updateTableWithFilter m
  | loadResourceDetailCmd m => loadResourceDetail m
  | hideStatusMessageCmd _ => Ok (Some clearStatusMessageMsg)
  | viewport_Cmd => Ok None
  end.

End Commands.

End TuiCmd.

(** ** The runtime of Bubble Tea around [Update]

    A running program is its model and the commands that were handed to
    the runtime and have not finished.  Commands of a batch run
    concurrently: they finish in any order, between the events of the
    terminal, and the message of a command that finishes is handled by
    [Update].  [Init] returns no command. *)

Module Runtime.
Import Snap Diff Tui TuiCmd.
Local Open Scope Z_scope.

Record Program := {
  model : Model;
  pending : list Cmd
}.

(** What happens to a running program.  A command reads the cluster as
    it is when the command runs: [world] is the cluster and the clock
    that the command at position [i] of the pending ones finds. *)
Inductive Event (World : Type) :=
| keyPress (k : string)
| resize (w h : Z)
| otherInput
| finish (i : nat) (world : World).
Arguments keyPress {World} k.
Arguments resize {World} w h.
Arguments otherInput {World}.
Arguments finish {World} i world.

Section Loop.
Variable range : gmap string ResourceInfo → list (string * ResourceInfo).
Variable clipboard_WriteAll : string → option string.
Variable now : Time.
Variable generateYAMLDiff : string → string → string.
Variable OutputJSON : option DiffResult → string.
Variable OutputYAML : option DiffResult → string.
(** [snapshot.CaptureSnapshot], of a cluster and a clock. *)
Variable World : Type.
Variable CaptureSnapshot : World → string → string → string → Result Snapshot.

(** A message is handled; [None] is the program that has ended. *)
Definition handle (p : Program) (msg : Msg) : Result (option Program) :=
  match Update range clipboard_WriteAll now (model p) msg with
  | Ok (m, cmds) => Ok (Some {| model := m; pending := pending p ++ cmds |})
  | Err e => Err e
  | Panic e => Panic e
  end.

Definition step (p : Program) (ev : Event World) : Result (option Program) :=
  match ev with
  | keyPress k => handle p (KeyMsg k)
  | resize w h => handle p (WindowSizeMsg w h)
  | otherInput => handle p otherMsg
  | finish i world =>
      match pending p !! i with
      | None => Ok (Some p)
      | Some tea_Quit => Ok None
      | Some c =>
          let p := {| model := model p; pending := delete i (pending p) |} in
          match runCmd generateYAMLDiff OutputJSON OutputYAML (CaptureSnapshot world) c with
          | Ok (Some msg) => handle p msg
          | Ok None => Ok (Some p)
          | Err e => Err e
          | Panic e => Panic e
          end
      end
  end.

Fixpoint run (p : Program) (events : list (Event World)) : Result (option Program) :=
  match events with
  | [] => Ok (Some p)
  | ev :: rest =>
      match step p ev with
      | Ok (Some p') => run p' rest
      | r => r
      end
  end.

End Loop.

Definition initial (m : Model) : Program := {| model := m; pending := [] |}.






(** Two models with the same state and the same pointers. *)
Definition sameCore (m m' : Model) : Prop :=
  state m' = state m ∧ baseline m' = baseline m ∧ current m' = current m
  ∧ diffResult m' = diffResult m ∧ selectedResource m' = selectedResource m.



Definition isCapture (c : Cmd) : bool :=
  match c with
  | captureBaselineCmd _ | captureCurrentStateCmd _ => true
  | _ => false
  end.



(** The states a message can lead to from a state. *)
Definition successors (msg : Msg) (s : stateT) : list stateT :=
  match msg with
  | KeyMsg _ =>
      match s with
      | stateReady => [stateReady; stateCapturingBaseline]
      | stateBaselineCaptured =>
          [stateBaselineCaptured; stateCapturingCurrent; stateReady]
      | stateShowingDiff =>
          [stateShowingDiff; stateCapturingCurrent; stateBaselineCaptured;
           stateShowingResourceDetail]
      | stateShowingResourceDetail => [stateShowingResourceDetail; stateShowingDiff]
      | _ => [s]
      end
  | baselineCapturedMsg _ err =>
      [match err with Some _ => stateError | None => stateBaselineCaptured end]
  | currentStateCapturedMsg _ err =>
      [match err with Some _ => stateError | None => stateShowingDiff end]
  | _ => [s]
  end.

(** What a capture is called with. *)
Definition config (m : Model) : string * string * string :=
  (namespace m, ignorePattern m, kubeconfigPath m).




End Runtime.

(** ** package ui: the line dialog *)

Module Dialog.

(** [strings.TrimSpace] and [strings.ToLower] on ASCII text. *)
Definition isSpace (c : ascii) : bool :=
  let n := N_of_ascii c in
  ((n =? 32) || (9 <=? n) && (n <=? 13))%N.

Fixpoint trimLeft (s : string) : string :=
  match s with
  | String c rest => if isSpace c then trimLeft rest else s
  | EmptyString => EmptyString
  end.

Definition strings_TrimSpace (s : string) : string :=
  String.rev (trimLeft (String.rev (trimLeft s))).

Definition lowerChar (c : ascii) : ascii :=
  let n := N_of_ascii c in
  if ((65 <=? n) && (n <=? 90))%N then ascii_of_N (n + 32) else c.

Fixpoint strings_ToLower (s : string) : string :=
  match s with
  | String c rest => String (lowerChar c) (strings_ToLower rest)
  | EmptyString => EmptyString
  end.

Definition hint : string :=
  "Type 'continue' to proceed with diff, or 'exit' to cancel.".

(** [WaitForUserAction] on the lines that standard input holds before it
    ends: what is printed, and the result.  Reading past the last line
    is the error of [ReadString]. *)
Fixpoint waitLoop (lines : list string) (printed : list string)
    : list string * Result unit :=
  let printed := printed ++ ["> "] in
  match lines with
  | [] => (printed, Err "error reading input: EOF")
  | line :: rest =>
      let input := strings_TrimSpace line in
      if bool_decide (strings_ToLower input = "continue") then (printed, Ok tt)
      else if bool_decide (strings_ToLower input = "exit")
              || bool_decide (strings_ToLower input = "quit")
      then (printed, Err "diff process canceled by user")
      else if bool_decide (input ≠ "") then waitLoop rest (printed ++ [hint])
      else waitLoop rest printed
  end.

Definition WaitForUserAction (lines : list string) : list string * Result unit :=
  waitLoop lines ["Execute your command(s) and type 'continue' when done."].

(** The command a line stands for, if any. *)
Definition command (line : string) : string :=
  strings_ToLower (strings_TrimSpace line).

(** A line that ends the dialog. *)
Definition decisive (line : string) : Prop :=
  command line ∈ ["continue"; "exit"; "quit"].

#[global] Instance decisive_dec (line : string) : Decision (decisive line).
Proof. unfold decisive. apply _. Defined.

(** The number of prompts among the printed pieces. *)
Definition prompts (printed : list string) : nat :=
  length (filter (λ piece, piece = "> ") printed).

(** Text of ASCII characters only, on which [isSpace] and [lowerChar]
    are what Go's [unicode] package does. *)
Definition ascii7 (s : string) : bool :=
  forallb (λ c, (N_of_ascii c <? 128)%N) (list_ascii_of_string s).

End Dialog.

(** ** package k8s: [ListResources]

    The cluster is what it answers: the resources of a group version
    ([ServerResourcesForGroupVersion]), the items of a list call of the
    dynamic client, all namespaces or one, and [schema.ParseGroupVersion];
    [None] is a non-nil error.  An item is an [unstructured.Unstructured]:
    its object and what its getters return. *)

Module K8sList.
Import K8s.

Definition slash : ascii := "/"%char.

(** [strings.Split(s, "/")]: at least one part, the last one after the
    last slash. *)
Fixpoint strings_Split (s : string) : list string :=
  match s with
  | EmptyString => [""]
  | String c rest =>
      if bool_decide (c = slash) then "" :: strings_Split rest
      else
        match strings_Split rest with
        | part :: parts => String c part :: parts
        | [] => [String c ""]
        end
  end.

Record Item := {
  Object : gmap string Json.Value;
  GetAPIVersion : string;
  GetKind : string;
  GetName : string;
  GetNamespace : string;
  GetUID : string;
  GetResourceVersion : string;
  GetCreationTimestamp : string   (* [.String()] of the time *)
}.

Record Cluster := {
  ServerResourcesForGroupVersion : string → option (list APIResource);
  schema_ParseGroupVersion : string → option (string * string);
  (* group, version and resource name; the namespace of the call, if any *)
  List : string * string * string → option string → option (list Item)
}.

(** [obj.(map[string]interface{})] on the entry of a key. *)
Definition mapAt (object : gmap string Json.Value) (key : string)
    : option (gmap string Json.Value) :=
  match object !! key with
  | Some (Json.VMap m) => Some m
  | _ => None
  end.

(** The body of the loop over the items. *)
Definition toResource (item : Item) : Resource :=
  {| ApiVersion := GetAPIVersion item;
     Kind := GetKind item;
     Meta := {| Name := GetName item;
                Namespace := GetNamespace item;
                UID := GetUID item;
                ResourceVersion := GetResourceVersion item;
                CreationTimestamp := GetCreationTimestamp item;
                Labels := ∅;
                Annotations := ∅ |};
     Spec := mapAt (Object item) "spec";
     Status := mapAt (Object item) "status";
     AdditionalData := None |}.

(** [ListResources] from the lookup of the group version on. *)
Definition listKind (c : Cluster) (resourceType groupVersion kind namespace : string)
    : Result (list Resource) :=
  match ServerResourcesForGroupVersion c groupVersion with
  | None => Err ("failed to get resources for " +:+ groupVersion)
  | Some apiResources =>
      match list_find (λ r, ResourceKind r = kind) apiResources with
      | None => Err ("resource not found: " +:+ resourceType)
      | Some (_, resource) =>
          match schema_ParseGroupVersion c groupVersion with
          | None => Err ("invalid group version: " +:+ groupVersion)
          | Some (group, version) =>
              let gvr := (group, version, ResourceName resource) in
              let listed :=
                if Namespaced resource && bool_decide (namespace ≠ "")
                then List c gvr (Some namespace)
                else List c gvr None in
              match listed with
              | None => Err "failed to list resources"
              | Some items => Ok (toResource <$> items)
              end
          end
      end
  end.

Definition ListResources (c : Cluster) (resourceType namespace : string)
    : Result (list Resource) :=
  let parts := strings_Split resourceType in
  if (length parts <? 2)%nat
  then Err ("invalid resource type format: " +:+ resourceType)
  else
    let kind := default "" (last parts) in
    let groupVersion := Filter.strings_Join (take (length parts - 1) parts) "/" in
    listKind c resourceType groupVersion kind namespace.

(** No slash in a text. *)
Fixpoint noSlash (s : string) : bool :=
  match s with
  | EmptyString => true
  | String c rest => negb (bool_decide (c = slash)) && noSlash rest
  end.

End K8sList.

(** ** package snapshot: the client of the first design

    [GetAPIResources] of [KubernetesClient].  [schema.ParseGroupVersion]
    is taken from outside: the group and the version of a label, or an
    error. *)

Module LegacyClient.
Import K8s.

(** A [metav1.APIResource] after its [Group] and [Version] were set. *)
Record GroupVersioned := {
  resource : APIResource;
  Group : string;
  Version : string
}.

Section GetAPIResources.
Context `{RegexpLib}.
Variable schema_ParseGroupVersion : string → option (string * string).

(** [ignorePattern != nil && ignorePattern.MatchString(kind)]. *)
Definition ignored (ignorePattern : option Regexp) (kind : string) : bool :=
  match ignorePattern with
  | Some re => MatchString re kind
  | None => false
  end.

(** Body of the inner loop. *)
Definition keepResource (ignorePattern : option Regexp) (gv : string * string)
    (resources : list GroupVersioned) (r : APIResource) : list GroupVersioned :=
  if negb (containsString (Verbs r) "list") then resources
  else if ignored ignorePattern (ResourceKind r) then resources
  else resources ++ [{| resource := r; Group := gv.1; Version := gv.2 |}].

(** Body of the outer loop: a list whose label does not parse is
    skipped. *)
Definition keepList (ignorePattern : option Regexp)
    (resources : list GroupVersioned) (apiList : APIResourceList)
    : list GroupVersioned :=
  match schema_ParseGroupVersion (GroupVersion apiList) with
  | None => resources
  | Some gv => foldl (keepResource ignorePattern gv) resources (APIResources apiList)
  end.

Definition GetAPIResources (c : Client) (ignorePattern : option Regexp)
    : Result (list GroupVersioned) :=
  let '(resourceList, err) := ServerGroupsAndResources c in
  match err with
  | Some _ => Err "failed to get server resources"
  | None => Ok (foldl (keepList ignorePattern) [] resourceList)
  end.

(** The resources of one list that are kept, as a list. *)
Definition keptOf (ignorePattern : option Regexp) (apiList : APIResourceList)
    : list GroupVersioned :=
  match schema_ParseGroupVersion (GroupVersion apiList) with
  | None => []
  | Some gv =>
      (λ r, {| resource := r; Group := gv.1; Version := gv.2 |})
        <$> filter (λ r, "list" ∈ Verbs r ∧ ignored ignorePattern (ResourceKind r) = false)
              (APIResources apiList)
  end.

End GetAPIResources.

End LegacyClient.

(** ** Values that [json.Marshal] accepts, and the digits of a digest *)

Module JsonSpec.
Import Json.

(** No unsupported value anywhere inside. *)
Fixpoint supported (v : Value) : bool :=
  match v with
  | VList l => forallb supported l
  | VMap m => map_fold (λ _ v acc, supported v && acc) true m
  | VUnsupported => false
  | _ => true
  end.

(** One of [0-9a-f]. *)
Definition isLowerHex (c : ascii) : bool :=
  let n := N_of_ascii c in
  ((48 <=? n) && (n <=? 57) || (97 <=? n) && (n <=? 102))%N.

End JsonSpec.

(** ** Discovery and capture, as lists

    The resource types a discovery answer offers for listing, and those
    among them that a compiled filter keeps. *)

Module CaptureSpec.
Import K8s.

Definition canList (r : APIResource) : Prop := "list" ∈ Verbs r.

#[global] Instance canList_dec (r : APIResource) : Decision (canList r).
Proof. unfold canList. apply _. Defined.

Definition typesOf (resourceList : APIResourceList) : list string :=
  (λ r, GroupVersion resourceList +:+ "/" +:+ ResourceKind r)
    <$> filter canList (APIResources resourceList).

Definition listableTypes (lists : list APIResourceList) : list string :=
  lists ≫= typesOf.

(** The key of a resource, in the format [GVK|NS|Name] that the field
    [Resources] of a snapshot is documented with. *)
Definition keyOf (resource : Resource) : string :=
  (ApiVersion resource +:+ "/" +:+ Kind resource)
  +:+ "|" +:+ Namespace (Meta resource) +:+ "|" +:+ Name (Meta resource).

(** A record has the identity, the version token and the creation time
    of a resource. *)
Definition describes (info : Snap.ResourceInfo) (resource : Resource) : Prop :=
  Snap.GroupVersionKind info = ApiVersion resource +:+ "/" +:+ Kind resource
  ∧ Snap.Namespace info = Namespace (Meta resource)
  ∧ Snap.Name info = Name (Meta resource)
  ∧ Snap.UID info = UID (Meta resource)
  ∧ Snap.ResourceVersion info = ResourceVersion (Meta resource)
  ∧ Snap.CreationTimestamp info = CreationTimestamp (Meta resource).

Section WithRegexp.
Context `{RegexpLib}.

Definition kept (rf : Filter.ResourceFilter) (resourceType : string) : Prop :=
  Filter.excludeMatchesb rf resourceType = false.

#[global] Instance kept_dec rf resourceType : Decision (kept rf resourceType).
Proof. unfold kept. apply _. Defined.

Definition discovered (c : Client) (rf : Filter.ResourceFilter) : list string :=
  filter (kept rf) (listableTypes (ServerGroupsAndResources c).1).

(** The snapshot of a capture that gets as far as listing: the records
    of the listed resources of the discovered types, stored one after
    the other. *)
Definition captured
    (range : gmap string (option string) → list (string * option string))
    (json_error : Json.Value → string)
    (yamlFromJSON : string → option string)
    (now : Snap.Time) (namespace ignoreKindRegex : string)
    (client : Client) : Snap.Snapshot :=
  {| Snap.Timestamp := now;
     Snap.SnapshotNamespace := namespace;
     Snap.Resources :=
       foldl (Capture.addResource range json_error yamlFromJSON) ∅
         (Capture.listedResources client namespace
            (discovered client
               (Filter.compiled (Capture.captureFilter ignoreKindRegex)))) |}.

End WithRegexp.

End CaptureSpec.

(** * Example data

    The scenario of the design document: a Deployment whose version token
    moves from 1 to 2 with the same hash, a ConfigMap that appears, a Pod
    that disappears, and a Service that stays as it was. *)

Module Scenario.
Import Snap.

Definition record (gvk ns name rv hash : string) : ResourceInfo :=
  {| GroupVersionKind := gvk; Namespace := ns; Name := name;
     UID := "uid-" +:+ name; ResourceVersion := rv;
     CreationTimestamp := "2025-04-18 10:00:00 +0000 UTC";
     SpecHash := hash; Manifest := "kind: " +:+ gvk |}.

Definition deployment1 := record "apps/v1/Deployment" "myapp" "x" "1" "h1".
Definition deployment2 := record "apps/v1/Deployment" "myapp" "x" "2" "h1".
Definition configmap := record "v1/ConfigMap" "myapp" "cfg" "7" "h2".
Definition oldpod := record "v1/Pod" "myapp" "old-pod" "5" "h3".
Definition service := record "v1/Service" "myapp" "svc" "9" "h4".

Definition keyed (rs : list ResourceInfo) : gmap string ResourceInfo :=
  list_to_map (map (λ r, (resourceKey r, r)) rs).

Definition baseline : Snapshot :=
  {| Timestamp := 1744970537000000000%Z; SnapshotNamespace := "myapp";
     Resources := keyed [deployment1; oldpod; service] |}.

Definition current : Snapshot :=
  {| Timestamp := 1744970600000000000%Z; SnapshotNamespace := "myapp";
     Resources := keyed [deployment2; configmap; service] |}.

(** One possible visiting order of [range]. *)
Definition range : gmap string ResourceInfo → list (string * ResourceInfo) :=
  map_to_list.

(** Another one. *)
Definition rangeBack : gmap string ResourceInfo → list (string * ResourceInfo) :=
  λ m, reverse (map_to_list m).

End Scenario.

(** Three filters on the concrete engine: Pods excluded and included
    again; Pods excluded with an include pattern that is no regular
    expression; and both include patterns, the valid one first. *)
Module FilterExample.
Import Filter.

Definition podExcluded : ResourceFilter :=
  WithExcludes NewResourceFilter ["^v1/Pod$"].
Definition podIncluded : ResourceFilter := WithIncludes podExcluded ["^v1/Pod$"].
Definition badInclude : ResourceFilter := WithIncludes podExcluded ["("].
Definition podThenBad : ResourceFilter := WithIncludes podExcluded ["^v1/Pod$"; "("].

End FilterExample.

(** A spec payload, and two visiting orders for the maps inside it. *)
Module SpecExample.
Import Json.

Definition spec : Value :=
  VMap {[ "replicas" := VInt 3;
          "paused" := VBool false;
          "selector" := VMap {[ "matchLabels" := VMap {[ "app" := VString "x" ]} ]} ]}.

(** A payload that [json.Marshal] refuses. *)
Definition badSpec : gmap string Value :=
  {[ "replicas" := VInt 3; "weight" := VUnsupported ]}.

Definition forward : gmap string (option string) → list (string * option string) :=
  map_to_list.
Definition backward : gmap string (option string) → list (string * option string) :=
  λ m, reverse (map_to_list m).

(** The error of [json.Marshal] on a value it refuses, here always the
    one for a channel. *)
Definition json_error (v : Value) : string := "json: unsupported type: chan int".

End SpecExample.

(** A small cluster: a Deployment with a spec payload, a ConfigMap
    without one, a Widget whose payload cannot be serialised, Pods (which
    the default filter drops) and a resource type that cannot be listed. *)
Module ClusterExample.
Import K8s.

Definition metadata (ns name rv : string) : Metadata :=
  {| Name := name; Namespace := ns; UID := "uid-" +:+ name; ResourceVersion := rv;
     CreationTimestamp := "2025-04-18 10:00:00 +0000 UTC";
     Labels := ∅; Annotations := ∅ |}.

Definition deployment : Resource :=
  {| ApiVersion := "apps/v1"; Kind := "Deployment"; Meta := metadata "myapp" "x" "1";
     Spec := Some {[ "replicas" := Json.VInt 3 ]};
     Status := None; AdditionalData := None |}.

Definition configmap : Resource :=
  {| ApiVersion := "v1"; Kind := "ConfigMap"; Meta := metadata "myapp" "cfg" "7";
     Spec := None; Status := None; AdditionalData := None |}.

Definition widget : Resource :=
  {| ApiVersion := "example.com/v1"; Kind := "Widget"; Meta := metadata "myapp" "w" "41";
     Spec := Some SpecExample.badSpec; Status := None; AdditionalData := None |}.

Definition listable (kind : string) : APIResource :=
  {| ResourceName := kind; ResourceKind := kind; Verbs := ["get"; "list"];
     Namespaced := true |}.

Definition client : Client :=
  {| ServerGroupsAndResources :=
       ([ {| GroupVersion := "apps/v1"; APIResources := [listable "Deployment"] |};
          {| GroupVersion := "v1";
             APIResources :=
               [listable "ConfigMap"; listable "Pod"; listable "Secret";
                {| ResourceName := "bindings"; ResourceKind := "Binding";
                   Verbs := ["create"]; Namespaced := true |}] |};
          {| GroupVersion := "example.com/v1"; APIResources := [listable "Widget"] |} ],
        Some GroupDiscoveryFailed);
     ListResources := λ resourceType namespace,
       if bool_decide (resourceType = "apps/v1/Deployment") then Ok [deployment]
       else if bool_decide (resourceType = "v1/ConfigMap") then Ok [configmap]
       else if bool_decide (resourceType = "example.com/v1/Widget") then Ok [widget]
       else Err "failed to list resources" |}.

Definition NewClient (kubeconfigPath : string) : Result Client := Ok client.

(** The same cluster behind a client whose listing of Secrets panics. *)
Definition panicking : Client :=
  {| ServerGroupsAndResources := ServerGroupsAndResources client;
     ListResources := λ resourceType namespace,
       if bool_decide (resourceType = "v1/Secret")
       then Panic "runtime error: index out of range"
       else ListResources client resourceType namespace |}.

(** In place of the YAML printer: the manifest is the JSON text. *)
Definition yamlFromJSON (data : string) : option string := Some data.

Definition now : Snap.Time := 1744970537000000000%Z.

(** The filter of a capture without a pattern of the user, compiled, and
    the resource types that discovery keeps with it. *)
Definition resourceFilter : Filter.ResourceFilter :=
  Filter.compiled (Capture.captureFilter "").

Definition resourceTypes : list string :=
  match DiscoverResources client (Some resourceFilter) with
  | Ok types => types
  | _ => []
  end.

(** The snapshot of a capture of the namespace [myapp], and the one
    taken a minute later. *)
Definition snapshot : Snap.Snapshot :=
  CaptureSpec.captured SpecExample.forward SpecExample.json_error yamlFromJSON now "myapp" "" client.

Definition later : Snap.Time := 1744970597000000000%Z.

Definition snapshotLater : Snap.Snapshot :=
  CaptureSpec.captured SpecExample.forward SpecExample.json_error yamlFromJSON later "myapp" "" client.

End ClusterExample.

(** A session of the interactive program on the scenario: capture the
    baseline, capture the current state, look at the diff. *)
Module Session.
Import Tui.

Definition clipboard_WriteAll (text : string) : option string := None.
Definition now : Snap.Time := 1744970700000000000%Z.

Definition scenarioDiff : Diff.DiffResult :=
  Diff.Compare Scenario.range Scenario.baseline Scenario.current.

(** The messages up to the table of differences being on screen. *)
Definition toDiff : list Msg :=
  [ KeyMsg "c";
    baselineCapturedMsg (Some Scenario.baseline) None;
    KeyMsg "c";
    currentStateCapturedMsg (Some Scenario.current) None;
    diffOutputUpdatedMsg "";
    tableUpdatedMsg (buildTableRows scenarioDiff) ].

(** Then the first row is opened. *)
Definition toDetail : list Msg := toDiff ++ [KeyMsg "enter"].

(** A session whose first capture fails. *)
Definition toError : list Msg :=
  [ KeyMsg "c";
    baselineCapturedMsg None (Some "failed to create Kubernetes client") ].

Definition start : Model := Cli.startModel "myapp" "" "" true.

(** The model after a sequence of messages was handled. *)
Definition after (msgs : list Msg) : Model :=
  match Run Scenario.range clipboard_WriteAll now start msgs with
  | Ok (m, _) => m
  | _ => start
  end.

End Session.

(** A cluster that lists one cluster-scoped resource type. *)
Module ListExample.
Import K8s K8sList.

Definition namespaces : APIResource :=
  {| ResourceName := "namespaces"; ResourceKind := "Namespace";
     Verbs := ["get"; "list"]; Namespaced := false |}.

Definition item : Item :=
  {| Object := {[ "spec" := Json.VMap {[ "finalizers" :=
                                           Json.VList [Json.VString "kubernetes"] ]} ]};
     GetAPIVersion := "v1"; GetKind := "Namespace"; GetName := "myapp";
     GetNamespace := ""; GetUID := "uid-myapp"; GetResourceVersion := "3";
     GetCreationTimestamp := "2025-04-18 10:00:00 +0000 UTC" |}.

Definition cluster : Cluster :=
  {| ServerResourcesForGroupVersion := λ gv,
       if bool_decide (gv = "v1") then Some [namespaces] else None;
     schema_ParseGroupVersion := λ gv,
       if bool_decide (gv = "v1") then Some ("", "v1") else None;
     List := λ gvr namespace,
       match namespace with
       | None => Some [item]
       | Some _ => None
       end |}.

End ListExample.

(** A run of the program against a cluster that changes between the
    two captures: the Deployment is scaled and a second one appears.
    The printers of the diff are taken as simple as can be. *)
Module RuntimeExample.
Import Runtime.

Definition generateYAMLDiff (oldYAML newYAML : string) : string :=
  "- " +:+ oldYAML +:+ TuiCmd.nl +:+ "+ " +:+ newYAML.
Definition OutputJSON (d : option Diff.DiffResult) : string := "{}".
Definition OutputYAML (d : option Diff.DiffResult) : string := "{}".

(** The Deployments of the cluster and the time, when a command runs. *)
Definition World : Type := list K8s.Resource * Snap.Time.

Definition clientOf (deployments : list K8s.Resource) : K8s.Client :=
  {| K8s.ServerGroupsAndResources :=
       ([ {| K8s.GroupVersion := "apps/v1";
             K8s.APIResources := [ClusterExample.listable "Deployment"] |} ], None);
     K8s.ListResources := λ resourceType namespace,
       if bool_decide (resourceType = "apps/v1/Deployment") then Ok deployments
       else Err "failed to list resources" |}.

Definition exampleCapture (world : World)
    (namespace ignoreKindRegex kubeconfigPath : string) : Result Snap.Snapshot :=
  Capture.CaptureSnapshot SpecExample.forward SpecExample.json_error
    ClusterExample.yamlFromJSON (λ _, Ok (clientOf world.1)) world.2
    namespace ignoreKindRegex kubeconfigPath.

Definition scaled : K8s.Resource :=
  {| K8s.ApiVersion := "apps/v1"; K8s.Kind := "Deployment";
     K8s.Meta := ClusterExample.metadata "myapp" "x" "2";
     K8s.Spec := Some {[ "replicas" := Json.VInt 5 ]};
     K8s.Status := None; K8s.AdditionalData := None |}.

Definition added : K8s.Resource :=
  {| K8s.ApiVersion := "apps/v1"; K8s.Kind := "Deployment";
     K8s.Meta := ClusterExample.metadata "myapp" "y" "3";
     K8s.Spec := Some {[ "replicas" := Json.VInt 1 ]};
     K8s.Status := None; K8s.AdditionalData := None |}.

Definition before : World := ([ClusterExample.deployment], ClusterExample.now).
Definition after : World := ([scaled; added], ClusterExample.later).

(** A capture, a resize, a second capture of the cluster as it is
    then, the table of differences, and the detail of the row under the
    cursor. *)
Definition events : list (Event World) :=
  [keyPress "c"; resize 120 40; finish 0 before; keyPress "c"; finish 2 after;
   finish 3 after; finish 3 after; keyPress "enter"; finish 3 after].

Definition exampleRun (m : Tui.Model) (evs : list (Event World))
    : Result (option Program) :=
  Runtime.run Scenario.range Session.clipboard_WriteAll Session.now
    generateYAMLDiff OutputJSON OutputYAML World exampleCapture (initial m) evs.

(** The program started with [-i ^v1/Secret$] and the default
    exclusions, after these events. *)
Definition flagged : Tui.Model := Cli.startModel "myapp" "^v1/Secret$" "" true.

Definition afterEvents : Program :=
  match exampleRun flagged events with
  | Ok (Some p) => p
  | _ => initial flagged
  end.

End RuntimeExample.

(** * Properties *)

Lemma range_lookup {V} (range : gmap string V → list (string * V)) m k v :
  RangeOracle range → (k, v) ∈ range m ↔ m !! k = Some v.
Proof.
  intros Hr. rewrite (Hr m). apply elem_of_map_to_list.
Qed.

(** ** The diff engine *)

Module DiffProps.
Import Snap Diff.

(** *** What each loop of [Compare] appends *)

Lemma findAddedModified_Removed b l r :
  Removed (foldl (findAddedModified b) r l) = Removed r.
Proof.
  revert r. induction l as [|[k res] l IH]; intros r; simpl; [done|].
  rewrite IH. unfold findAddedModified.
  destruct (Resources b !! k); [|done]. by case_match.
Qed.

Lemma findRemoved_Added c l r :
  Added (foldl (findRemoved c) r l) = Added r.
Proof.
  revert r. induction l as [|[k res] l IH]; intros r; simpl; [done|].
  rewrite IH. unfold findRemoved. by destruct (Resources c !! k).
Qed.

Lemma findRemoved_Modified c l r :
  Modified (foldl (findRemoved c) r l) = Modified r.
Proof.
  revert r. induction l as [|[k res] l IH]; intros r; simpl; [done|].
  rewrite IH. unfold findRemoved. by destruct (Resources c !! k).
Qed.

Lemma elem_of_findAddedModified_Added b l r e :
  e ∈ Added (foldl (findAddedModified b) r l) ↔
  e ∈ Added r ∨ ∃ k res, (k, res) ∈ l ∧ Resources b !! k = None ∧ e = addedDiff res.
Proof.
  revert r. induction l as [|[k res] l IH]; intros r; simpl.
  - split; [by left|]. intros [?|(? & ? & Hin & _)]; [done|]. by apply elem_of_nil in Hin.
  - rewrite IH. unfold findAddedModified.
    destruct (Resources b !! k) as [baseRes|] eqn:Hk.
    + assert (Added (if bool_decide (ResourceVersion res ≠ ResourceVersion baseRes)
                        || bool_decide (SpecHash res ≠ SpecHash baseRes)
                     then {| Added := Added r; Removed := Removed r;
                             Modified := Modified r ++ [modifiedDiff baseRes res] |}
                     else r) = Added r) as -> by (by case_match).
      split.
      * intros [?|(k' & res' & Hin & Hn & ->)]; [by left|].
        right. exists k', res'. split_and!; [by right|done..].
      * intros [?|(k' & res' & Hin & Hn & ->)]; [by left|].
        apply elem_of_cons in Hin as [[= -> ->]|Hin]; [congruence|].
        right. by exists k', res'.
    + simpl. rewrite elem_of_app, list_elem_of_singleton. split.
      * intros [[?| ->]|(k' & res' & Hin & Hn & ->)]; [by left| |].
        -- right. exists k, res. split_and!; [by left|done..].
        -- right. exists k', res'. split_and!; [by right|done..].
      * intros [?|(k' & res' & Hin & Hn & ->)]; [by left; left|].
        apply elem_of_cons in Hin as [[= -> ->]|Hin]; [by left; right|].
        right. by exists k', res'.
Qed.

Lemma elem_of_findAddedModified_Modified b l r e :
  e ∈ Modified (foldl (findAddedModified b) r l) ↔
  e ∈ Modified r ∨ ∃ k res baseRes,
    (k, res) ∈ l ∧ Resources b !! k = Some baseRes
    ∧ (ResourceVersion res ≠ ResourceVersion baseRes ∨ SpecHash res ≠ SpecHash baseRes)
    ∧ e = modifiedDiff baseRes res.
Proof.
  revert r. induction l as [|[k res] l IH]; intros r; simpl.
  - split; [by left|]. intros [?|(? & ? & ? & Hin & _)]; [done|]. by apply elem_of_nil in Hin.
  - rewrite IH. unfold findAddedModified.
    destruct (Resources b !! k) as [baseRes|] eqn:Hk.
    + destruct (bool_decide (ResourceVersion res ≠ ResourceVersion baseRes)
                || bool_decide (SpecHash res ≠ SpecHash baseRes)) eqn:Hc; simpl.
      * apply orb_true_iff in Hc.
        rewrite !bool_decide_eq_true in Hc.
        rewrite elem_of_app, list_elem_of_singleton. split.
        -- intros [[?| ->]|(k' & res' & b' & Hin & Hb & Hd & ->)]; [by left| |].
           ++ right. exists k, res, baseRes. split_and!; [by left|done..].
           ++ right. exists k', res', b'. split_and!; [by right|done..].
        -- intros [?|(k' & res' & b' & Hin & Hb & Hd & ->)]; [by left; left|].
           apply elem_of_cons in Hin as [[= -> ->]|Hin].
           ++ left; right. congruence.
           ++ right. by exists k', res', b'.
      * apply orb_false_iff in Hc.
        rewrite !bool_decide_eq_false in Hc. destruct Hc as [Hv Hh].
        split.
        -- intros [?|(k' & res' & b' & Hin & Hb & Hd & ->)]; [by left|].
           right. exists k', res', b'. split_and!; [by right|done..].
        -- intros [?|(k' & res' & b' & Hin & Hb & Hd & ->)]; [by left|].
           apply elem_of_cons in Hin as [[= -> ->]|Hin].
           ++ rewrite Hk in Hb. injection Hb as <-. tauto.
           ++ right. by exists k', res', b'.
    + simpl. split.
      * intros [?|(k' & res' & b' & Hin & Hb & Hd & ->)]; [by left|].
        right. exists k', res', b'. split_and!; [by right|done..].
      * intros [?|(k' & res' & b' & Hin & Hb & Hd & ->)]; [by left|].
        apply elem_of_cons in Hin as [[= -> ->]|Hin]; [congruence|].
        right. by exists k', res', b'.
Qed.

Lemma elem_of_findRemoved_Removed c l r e :
  e ∈ Removed (foldl (findRemoved c) r l) ↔
  e ∈ Removed r ∨ ∃ k res, (k, res) ∈ l ∧ Resources c !! k = None ∧ e = removedDiff res.
Proof.
  revert r. induction l as [|[k res] l IH]; intros r; simpl.
  - split; [by left|]. intros [?|(? & ? & Hin & _)]; [done|]. by apply elem_of_nil in Hin.
  - rewrite IH. unfold findRemoved.
    destruct (Resources c !! k) as [curRes|] eqn:Hk; simpl.
    + split.
      * intros [?|(k' & res' & Hin & Hn & ->)]; [by left|].
        right. exists k', res'. split_and!; [by right|done..].
      * intros [?|(k' & res' & Hin & Hn & ->)]; [by left|].
        apply elem_of_cons in Hin as [[= -> ->]|Hin]; [congruence|].
        right. by exists k', res'.
    + rewrite elem_of_app, list_elem_of_singleton. split.
      * intros [[?| ->]|(k' & res' & Hin & Hn & ->)]; [by left| |].
        -- right. exists k, res. split_and!; [by left|done..].
        -- right. exists k', res'. split_and!; [by right|done..].
      * intros [?|(k' & res' & Hin & Hn & ->)]; [by left; left|].
        apply elem_of_cons in Hin as [[= -> ->]|Hin]; [by left; right|].
        right. by exists k', res'.
Qed.

(** *** The three sequences of [Compare], by membership *)

Section Characterisation.
Variable range : gmap string ResourceInfo → list (string * ResourceInfo).
Hypothesis Hrange : RangeOracle range.

Lemma elem_of_Added baseline current e :
  e ∈ Added (Compare range baseline current) ↔
  ∃ k res, Resources current !! k = Some res ∧ Resources baseline !! k = None
           ∧ e = addedDiff res.
Proof.
  unfold Compare. rewrite findRemoved_Added, elem_of_findAddedModified_Added. simpl.
  split.
  - intros [Hin|(k & res & Hin & ? & ?)]; [by apply elem_of_nil in Hin|].
    exists k, res. by rewrite <- (range_lookup range).
  - intros (k & res & Hin & ? & ?). right.
    exists k, res. by rewrite (range_lookup range).
Qed.

Lemma elem_of_Modified baseline current e :
  e ∈ Modified (Compare range baseline current) ↔
  ∃ k res baseRes,
    Resources current !! k = Some res ∧ Resources baseline !! k = Some baseRes
    ∧ (ResourceVersion res ≠ ResourceVersion baseRes ∨ SpecHash res ≠ SpecHash baseRes)
    ∧ e = modifiedDiff baseRes res.
Proof.
  unfold Compare. rewrite findRemoved_Modified, elem_of_findAddedModified_Modified. simpl.
  split.
  - intros [Hin|(k & res & b & Hin & ? & ? & ?)]; [by apply elem_of_nil in Hin|].
    exists k, res, b. by rewrite <- (range_lookup range).
  - intros (k & res & b & Hin & ? & ? & ?). right.
    exists k, res, b. by rewrite (range_lookup range).
Qed.

Lemma elem_of_Removed baseline current e :
  e ∈ Removed (Compare range baseline current) ↔
  ∃ k res, Resources baseline !! k = Some res ∧ Resources current !! k = None
           ∧ e = removedDiff res.
Proof.
  unfold Compare. rewrite elem_of_findRemoved_Removed, findAddedModified_Removed. simpl.
  split.
  - intros [Hin|(k & res & Hin & ? & ?)]; [by apply elem_of_nil in Hin|].
    exists k, res. by rewrite <- (range_lookup range).
  - intros (k & res & Hin & ? & ?). right.
    exists k, res. by rewrite (range_lookup range).
Qed.

(** With records stored under their own identity, the key of an emitted
    entry is the map key it was found under. *)
Lemma Added_key baseline current e :
  KeyedByIdentity current →
  e ∈ Added (Compare range baseline current) →
  ∃ res, Resources current !! entryKey e = Some res
         ∧ Resources baseline !! entryKey e = None ∧ e = addedDiff res.
Proof.
  intros Hc (k & res & Hk & Hb & ->)%elem_of_Added.
  exists res. unfold entryKey; simpl. by rewrite <- (Hc k res Hk).
Qed.

Lemma Removed_key baseline current e :
  KeyedByIdentity baseline →
  e ∈ Removed (Compare range baseline current) →
  ∃ res, Resources baseline !! entryKey e = Some res
         ∧ Resources current !! entryKey e = None ∧ e = removedDiff res.
Proof.
  intros Hb (k & res & Hk & Hc & ->)%elem_of_Removed.
  exists res. unfold entryKey; simpl. by rewrite <- (Hb k res Hk).
Qed.

Lemma Modified_key baseline current e :
  KeyedByIdentity current →
  e ∈ Modified (Compare range baseline current) →
  ∃ res baseRes,
    Resources current !! entryKey e = Some res
    ∧ Resources baseline !! entryKey e = Some baseRes
    ∧ (ResourceVersion res ≠ ResourceVersion baseRes ∨ SpecHash res ≠ SpecHash baseRes)
    ∧ e = modifiedDiff baseRes res.
Proof.
  intros Hc (k & res & b & Hk & Hb & Hd & ->)%elem_of_Modified.
  exists res, b. unfold entryKey; simpl. by rewrite <- (Hc k res Hk).
Qed.

End Characterisation.

(** *** The classification *)

(** C1. For a key held by both snapshots, [Compare] emits it as a
    Modified entry exactly when the resourceVersion values differ or the
    specHash values differ; that entry is the one carrying the old and new
    resourceVersion, the old and new specHash and both records; and when
    both values are equal the key is in none of the three sequences. *)
Theorem Compare_modified_iff
    (range : gmap string ResourceInfo → list (string * ResourceInfo))
    (baseline current : Snapshot) (k : string) (baseRes res : ResourceInfo) :
  RangeOracle range →
  KeyedByIdentity baseline → KeyedByIdentity current →
  Resources baseline !! k = Some baseRes →
  Resources current !! k = Some res →
  let d := Compare range baseline current in
  (emitted (Modified d) k ↔
     ResourceVersion res ≠ ResourceVersion baseRes ∨ SpecHash res ≠ SpecHash baseRes)
  ∧ (∀ e, e ∈ Modified d → entryKey e = k →
       e = modifiedDiff baseRes res
       ∧ OldResourceVersion e = ResourceVersion baseRes
       ∧ NewResourceVersion e = ResourceVersion res
       ∧ OldSpecHash e = SpecHash baseRes
       ∧ NewSpecHash e = SpecHash res)
  ∧ (ResourceVersion res = ResourceVersion baseRes →
     SpecHash res = SpecHash baseRes →
     ¬ emitted (Added d) k ∧ ¬ emitted (Removed d) k ∧ ¬ emitted (Modified d) k).
Proof.
  intros Hr Hb Hc Hkb Hkc d.
  assert (Hmod : ∀ e, e ∈ Modified d → entryKey e = k →
            (ResourceVersion res ≠ ResourceVersion baseRes
             ∨ SpecHash res ≠ SpecHash baseRes) ∧ e = modifiedDiff baseRes res).
  { intros e He Hek.
    destruct (Modified_key range Hr _ _ e Hc He) as (res' & b' & Hc' & Hb' & Hd & ->).
    rewrite Hek in Hc', Hb'. by simplify_eq. }
  split_and!.
  - split.
    + intros (e & He & Hek). by apply (Hmod e).
    + intros Hd. exists (modifiedDiff baseRes res). split.
      * apply (elem_of_Modified range Hr). by exists k, res, baseRes.
      * unfold entryKey; simpl. symmetry. by apply (Hc k res).
  - intros e He Hek. by destruct (Hmod e He Hek) as [_ ->].
  - intros Hv Hh. split_and!.
    + intros (e & He & Hek).
      destruct (Added_key range Hr _ _ e Hc He) as (? & _ & Hn & _). congruence.
    + intros (e & He & Hek).
      destruct (Removed_key range Hr _ _ e Hb He) as (? & _ & Hn & _). congruence.
    + intros (e & He & Hek). destruct (Hmod e He Hek) as [[?|?] _]; congruence.
Qed.

(** C2. Every key of either snapshot falls in exactly one of the classes
    unchanged, Added, Removed and Modified, and no key is emitted in two
    of the three sequences. *)
Theorem Compare_partition
    (range : gmap string ResourceInfo → list (string * ResourceInfo))
    (A B : Snapshot) :
  RangeOracle range →
  KeyedByIdentity A → KeyedByIdentity B →
  let d := Compare range A B in
  (∀ k, k ∈ dom (Resources A) ∪ dom (Resources B) →
     (unchanged A B k ∨ emitted (Added d) k ∨ emitted (Removed d) k
      ∨ emitted (Modified d) k)
     ∧ ¬ (unchanged A B k ∧ emitted (Added d) k)
     ∧ ¬ (unchanged A B k ∧ emitted (Removed d) k)
     ∧ ¬ (unchanged A B k ∧ emitted (Modified d) k))
  ∧ (∀ k, ¬ (emitted (Added d) k ∧ emitted (Removed d) k)
          ∧ ¬ (emitted (Added d) k ∧ emitted (Modified d) k)
          ∧ ¬ (emitted (Removed d) k ∧ emitted (Modified d) k)).
Proof.
  intros Hr HA HB d.
  assert (Hadd : ∀ k, emitted (Added d) k →
            Resources A !! k = None ∧ is_Some (Resources B !! k)).
  { intros k (e & He & <-).
    destruct (Added_key range Hr _ _ e HB He) as (? & ? & ? & _). eauto. }
  assert (Hrem : ∀ k, emitted (Removed d) k →
            is_Some (Resources A !! k) ∧ Resources B !! k = None).
  { intros k (e & He & <-).
    destruct (Removed_key range Hr _ _ e HA He) as (? & ? & ? & _). eauto. }
  assert (Hmod : ∀ k, emitted (Modified d) k →
            ∃ a b, Resources A !! k = Some a ∧ Resources B !! k = Some b
                   ∧ (ResourceVersion b ≠ ResourceVersion a ∨ SpecHash b ≠ SpecHash a)).
  { intros k (e & He & <-).
    destruct (Modified_key range Hr _ _ e HB He) as (b & a & ? & ? & ? & _). eauto. }
  split.
  - intros k Hk. split_and!.
    + destruct (Resources A !! k) as [a|] eqn:Ha, (Resources B !! k) as [b|] eqn:Hb.
      * destruct (decide (ResourceVersion b = ResourceVersion a)) as [Hv|Hv];
          [destruct (decide (SpecHash b = SpecHash a)) as [Hh|Hh]|].
        -- left. by exists a, b.
        -- do 3 right. exists (modifiedDiff a b). split.
           ++ apply (elem_of_Modified range Hr). exists k, b, a. eauto.
           ++ unfold entryKey; simpl. symmetry. by apply (HB k b).
        -- do 3 right. exists (modifiedDiff a b). split.
           ++ apply (elem_of_Modified range Hr). exists k, b, a. eauto.
           ++ unfold entryKey; simpl. symmetry. by apply (HB k b).
      * right; right; left. exists (removedDiff a). split.
        -- apply (elem_of_Removed range Hr). by exists k, a.
        -- unfold entryKey; simpl. symmetry. by apply (HA k a).
      * right; left. exists (addedDiff b). split.
        -- apply (elem_of_Added range Hr). by exists k, b.
        -- unfold entryKey; simpl. symmetry. by apply (HB k b).
      * exfalso. apply elem_of_union in Hk as [Hk|Hk];
          apply elem_of_dom in Hk as [? ?]; congruence.
    + intros [(a & b & Ha & Hb & _) [HnA _]%Hadd]. congruence.
    + intros [(a & b & Ha & Hb & _) [_ HnB]%Hrem]. congruence.
    + intros [(a & b & Ha & Hb & Hv & Hh) (a' & b' & Ha' & Hb' & Hd)%Hmod].
      simplify_eq. tauto.
  - intros k. split_and!.
    + intros [[HnA _]%Hadd [[? HsA] _]%Hrem]. congruence.
    + intros [[HnA _]%Hadd (a & b & Ha & _)%Hmod]. congruence.
    + intros [[_ HnB]%Hrem (a & b & _ & Hb & _)%Hmod]. congruence.
Qed.

(** C3. An Added entry carries the current record and no baseline record,
    a Removed entry the baseline record and no current record, a Modified
    entry both; and each sequence holds entries of its own type only. *)
Theorem Compare_entry_records
    (range : gmap string ResourceInfo → list (string * ResourceInfo))
    (baseline current : Snapshot) :
  let d := Compare range baseline current in
  (∀ e, e ∈ Added d →
     Type_ e = DiffType.Added
     ∧ is_Some (CurrentResource e) ∧ BaselineResource e = None)
  ∧ (∀ e, e ∈ Removed d →
       Type_ e = DiffType.Removed
       ∧ is_Some (BaselineResource e) ∧ CurrentResource e = None)
  ∧ (∀ e, e ∈ Modified d →
       Type_ e = DiffType.Modified
       ∧ is_Some (BaselineResource e) ∧ is_Some (CurrentResource e)).
Proof.
  intros d. subst d. unfold Compare. split_and!; intros e.
  - rewrite findRemoved_Added, elem_of_findAddedModified_Added. simpl.
    intros [Hin|(k & res & _ & _ & ->)]; [by apply elem_of_nil in Hin|].
    simpl. eauto.
  - rewrite elem_of_findRemoved_Removed, findAddedModified_Removed. simpl.
    intros [Hin|(k & res & _ & _ & ->)]; [by apply elem_of_nil in Hin|].
    simpl. eauto.
  - rewrite findRemoved_Modified, elem_of_findAddedModified_Modified. simpl.
    intros [Hin|(k & res & b & _ & _ & _ & ->)]; [by apply elem_of_nil in Hin|].
    simpl. eauto.
Qed.

(** *** The theorems at the scenario of the design document *)

Lemma scenario_range : RangeOracle Scenario.range.
Proof. intros m. reflexivity. Qed.

Lemma scenario_rangeBack : RangeOracle Scenario.rangeBack.
Proof. intros m. apply reverse_Permutation. Qed.

Lemma scenario_baseline_keyed : KeyedByIdentity Scenario.baseline.
Proof. apply (bool_decide_unpack _). vm_compute. exact I. Qed.

Lemma scenario_current_keyed : KeyedByIdentity Scenario.current.
Proof. apply (bool_decide_unpack _). vm_compute. exact I. Qed.

Lemma Compare_modified_iff_witness :
  let k := "apps/v1/Deployment|myapp|x" in
  let d := Compare Scenario.range Scenario.baseline Scenario.current in
  (Resources Scenario.baseline !! k = Some Scenario.deployment1
   ∧ Resources Scenario.current !! k = Some Scenario.deployment2)
  ∧ (emitted (Modified d) k ↔
       ResourceVersion Scenario.deployment2 ≠ ResourceVersion Scenario.deployment1
       ∨ SpecHash Scenario.deployment2 ≠ SpecHash Scenario.deployment1).
Proof.
  intros k d.
  assert (Hb : Resources Scenario.baseline !! k = Some Scenario.deployment1)
    by (vm_compute; reflexivity).
  assert (Hc : Resources Scenario.current !! k = Some Scenario.deployment2)
    by (vm_compute; reflexivity).
  split; [by split|].
  exact (proj1 (Compare_modified_iff Scenario.range Scenario.baseline
                  Scenario.current k Scenario.deployment1 Scenario.deployment2
                  scenario_range scenario_baseline_keyed scenario_current_keyed
                  Hb Hc)).
Defined.

Lemma Compare_partition_witness :
  let k := "v1/ConfigMap|myapp|cfg" in
  let A := Scenario.baseline in
  let B := Scenario.current in
  let d := Compare Scenario.range A B in
  (KeyedByIdentity A ∧ KeyedByIdentity B ∧ k ∈ dom (Resources A) ∪ dom (Resources B))
  ∧ (unchanged A B k ∨ emitted (Added d) k ∨ emitted (Removed d) k
     ∨ emitted (Modified d) k)
  ∧ ¬ (unchanged A B k ∧ emitted (Added d) k)
  ∧ ¬ (unchanged A B k ∧ emitted (Removed d) k)
  ∧ ¬ (unchanged A B k ∧ emitted (Modified d) k).
Proof.
  intros k A B d.
  assert (Hk : k ∈ dom (Resources A) ∪ dom (Resources B)).
  { apply elem_of_union_r, elem_of_dom. exists Scenario.configmap.
    vm_compute. reflexivity. }
  split; [split_and!; [apply scenario_baseline_keyed|apply scenario_current_keyed|exact Hk]|].
  exact (proj1 (Compare_partition Scenario.range A B
                  scenario_range scenario_baseline_keyed scenario_current_keyed)
               k Hk).
Defined.

(** The expected result of the scenario: the ConfigMap is added, the Pod
    removed, the Deployment modified on its version token alone. *)
Example scenario_diff :
  Compare Scenario.range Scenario.baseline Scenario.current
  = {| Added := [addedDiff Scenario.configmap];
       Removed := [removedDiff Scenario.oldpod];
       Modified := [modifiedDiff Scenario.deployment1 Scenario.deployment2] |}.
Proof. vm_compute. reflexivity. Qed.

End DiffProps.

(** ** The resource filter *)

Module FilterProps.
Import Filter.

Section Generic.
Context `{RegexpLib}.

(** *** The loop over the include patterns *)

Lemma includeLoop_true includes label :
  includeLoop includes label = Ok true ↔
  ∀ p, p ∈ includes → validPattern p ∧ ¬ patternMatches p label.
Proof.
  induction includes as [|p includes IH]; simpl.
  - split; [|done]. intros _ p Hp. by apply elem_of_nil in Hp.
  - unfold regexp_MustCompile.
    destruct (regexp_Compile p) as [re|] eqn:Hp; simpl.
    + destruct (MatchString re label) eqn:Hm.
      * split; [done|]. intros Hall. exfalso.
        destruct (Hall p) as [_ Hn]; [by left|].
        apply Hn. by exists re.
      * rewrite IH. split.
        -- intros Hall q [->|Hq]%elem_of_cons; [|by apply Hall].
           split; [by exists re|]. intros (re' & Hre' & Hm'). congruence.
        -- intros Hall q Hq. apply Hall. by right.
    + split; [done|]. intros Hall. exfalso.
      destruct (Hall p) as [[re Hre] _]; [by left|]. unfold Regexp in *. congruence.
Qed.

Lemma includeLoop_false includes label :
  includeLoop includes label = Ok false ↔
  ∃ pre p post, includes = pre ++ p :: post ∧ patternMatches p label
    ∧ ∀ q, q ∈ pre → validPattern q ∧ ¬ patternMatches q label.
Proof.
  induction includes as [|p includes IH]; simpl.
  - split; [done|]. intros (pre & q & post & Heq & _). by destruct pre.
  - unfold regexp_MustCompile.
    destruct (regexp_Compile p) as [re|] eqn:Hp; simpl.
    + destruct (MatchString re label) eqn:Hm.
      * split; [|done]. intros _. exists [], p, includes. split_and!; [done| |].
        -- by exists re.
        -- intros q Hq. by apply elem_of_nil in Hq.
      * rewrite IH. split.
        -- intros (pre & q & post & -> & Hq & Hpre).
           exists (p :: pre), q, post. split_and!; [done..|].
           intros r [->|Hr]%elem_of_cons; [|by apply Hpre].
           split; [by exists re|]. intros (re' & Hre' & Hm'). congruence.
        -- intros (pre & q & post & Heq & Hq & Hpre).
           destruct pre as [|p' pre]; simpl in Heq; simplify_eq.
           ++ destruct Hq as (re' & Hre' & Hm'). congruence.
           ++ exists pre, q, post. split_and!; [done..|].
              intros r Hr. apply Hpre. by right.
    + split; [done|]. intros (pre & q & post & Heq & Hq & Hpre).
      destruct pre as [|p' pre]; simpl in Heq; simplify_eq.
      * destruct Hq as (re' & Hre' & _). congruence.
      * destruct (Hpre p') as [[re Hre] _]; [by left|]. congruence.
Qed.

Lemma includeLoop_panic includes label :
  (∃ msg, includeLoop includes label = Panic msg) ↔
  ∃ pre p post, includes = pre ++ p :: post ∧ ¬ validPattern p
    ∧ ∀ q, q ∈ pre → validPattern q ∧ ¬ patternMatches q label.
Proof.
  induction includes as [|p includes IH]; simpl.
  - split; [by intros [? ?]|]. intros (pre & q & post & Heq & _). by destruct pre.
  - unfold regexp_MustCompile.
    destruct (regexp_Compile p) as [re|] eqn:Hp; simpl.
    + destruct (MatchString re label) eqn:Hm.
      * split; [by intros [? ?]|]. intros (pre & q & post & Heq & Hq & Hpre).
        destruct pre as [|p' pre]; simpl in Heq; simplify_eq.
        -- destruct Hq. by exists re.
        -- destruct (Hpre p') as [_ Hn]; [by left|]. destruct Hn. by exists re.
      * rewrite IH. split.
        -- intros (pre & q & post & -> & Hq & Hpre).
           exists (p :: pre), q, post. split_and!; [done..|].
           intros r [->|Hr]%elem_of_cons; [|by apply Hpre].
           split; [by exists re|]. intros (re' & Hre' & Hm'). congruence.
        -- intros (pre & q & post & Heq & Hq & Hpre).
           destruct pre as [|p' pre]; simpl in Heq; simplify_eq.
           ++ destruct Hq. by exists re.
           ++ exists pre, q, post. split_and!; [done..|].
              intros r Hr. apply Hpre. by right.
    + split; [|by eauto]. intros _. exists [], p, includes. split_and!; [done| |].
      * intros [re Hre]. congruence.
      * intros q Hq. by apply elem_of_nil in Hq.
Qed.

Lemma includeLoop_no_error includes label msg :
  includeLoop includes label ≠ Err msg.
Proof.
  induction includes as [|p includes IH]; simpl; [done|].
  unfold regexp_MustCompile. destruct (regexp_Compile p); simpl; [|done].
  by destruct (MatchString _ label).
Qed.

(** *** [Compile] *)

Lemma Compile_no_excludes rf :
  ExcludePatterns rf = [] →
  Compile rf = Ok {| IncludePatterns := IncludePatterns rf;
                     ExcludePatterns := ExcludePatterns rf;
                     compiledFilter := None |}.
Proof. intros Hex. unfold Compile. by rewrite Hex. Qed.

Lemma Compile_Ok rf rf' :
  Compile rf = Ok rf' ↔
  IncludePatterns rf' = IncludePatterns rf
  ∧ ExcludePatterns rf' = ExcludePatterns rf
  ∧ ((ExcludePatterns rf = [] ∧ compiledFilter rf' = None)
     ∨ (ExcludePatterns rf ≠ []
        ∧ ∃ compiled, regexp_Compile (excludeAlternation rf) = Some compiled
                      ∧ compiledFilter rf' = Some compiled)).
Proof.
  unfold Compile. destruct rf' as [i' e' c'].
  destruct (ExcludePatterns rf) as [|e es]; simpl.
  - split.
    + intros [= <- <- <-]. eauto.
    + intros (-> & -> & [[_ ->]|[? _]]); done.
  - destruct (regexp_Compile (excludeAlternation rf)) as [re|].
    + split.
      * intros [= <- <- <-]. split_and!; [done..|]. right. eauto.
      * intros (-> & -> & [[? _]|[_ (re' & [= <-] & ->)]]); done.
    + split; [done|].
      intros (_ & _ & [[? _]|[_ (re' & ? & _)]]); done.
Qed.

(** *** [ShouldExclude] *)

Lemma ShouldExclude_unfold rf label compiled :
  compiledFilter rf = Some compiled → MatchString compiled label = true →
  ShouldExclude rf label = includeLoop (IncludePatterns rf) label.
Proof. intros Hc Hm. unfold ShouldExclude. by rewrite Hc, Hm. Qed.

Lemma ShouldExclude_not_excluded rf label :
  ¬ excludeMatches rf label → ShouldExclude rf label = Ok false.
Proof.
  intros Hn. unfold ShouldExclude.
  destruct (compiledFilter rf) as [c|] eqn:Hc; [|done].
  destruct (MatchString c label) eqn:Hm; [|done].
  destruct Hn. by exists c.
Qed.

Lemma ShouldExclude_true rf label :
  ShouldExclude rf label = Ok true ↔
  excludeMatches rf label
  ∧ ∀ p, p ∈ IncludePatterns rf → validPattern p ∧ ¬ patternMatches p label.
Proof.
  split.
  - intros Hs. unfold ShouldExclude in Hs.
    destruct (compiledFilter rf) as [c|] eqn:Hc; [|done].
    destruct (MatchString c label) eqn:Hm; [|done].
    split; [by exists c|]. by apply includeLoop_true.
  - intros [(c & Hc & Hm) Hall].
    rewrite (ShouldExclude_unfold rf label c Hc Hm). by apply includeLoop_true.
Qed.

(** With include patterns that all compile, [ShouldExclude] returns a
    boolean, and it is true exactly when the label matches the exclude
    alternation and no include pattern. *)
Lemma ShouldExclude_valid_includes (rf : ResourceFilter) (label : string) :
  Forall validPattern (IncludePatterns rf) →
  (ShouldExclude rf label = Ok true ↔
     excludeMatches rf label ∧ ∀ p, p ∈ IncludePatterns rf → ¬ patternMatches p label)
  ∧ (ShouldExclude rf label = Ok false ↔
     ¬ (excludeMatches rf label ∧ ∀ p, p ∈ IncludePatterns rf → ¬ patternMatches p label)).
Proof.
  intros Hvalid. rewrite Forall_forall in Hvalid.
  assert (Htrue : ShouldExclude rf label = Ok true ↔
     excludeMatches rf label ∧ ∀ p, p ∈ IncludePatterns rf → ¬ patternMatches p label).
  { rewrite ShouldExclude_true. split.
    - intros [? Hall]. split; [done|]. intros p Hp. by apply Hall.
    - intros [? Hall]. split; [done|]. intros p Hp. split; [by apply Hvalid|by apply Hall]. }
  split; [done|]. rewrite <- Htrue. split; [by intros ->|].
  intros Hn. unfold ShouldExclude in *.
  destruct (compiledFilter rf) as [c|]; [|done].
  destruct (MatchString c label); [|done].
  destruct (includeLoop (IncludePatterns rf) label) as [[|]|msg|msg] eqn:Hl; [done..| |].
  - by apply includeLoop_no_error in Hl.
  - assert (Hp : ∃ msg, includeLoop (IncludePatterns rf) label = Panic msg) by eauto.
    apply includeLoop_panic in Hp as (pre & p & post & Heq & Hinv & _).
    destruct Hinv. apply Hvalid. rewrite Heq. apply elem_of_app. right. by left.
Qed.

(** C4, as the code has it. [ShouldExclude] returns true exactly when the
    label matches the compiled exclude alternation and every include
    pattern is a valid regular expression that does not match the label.
    Where every include pattern is a valid regular expression it returns
    a boolean, true exactly when the label matches the exclude
    alternation and no include pattern.  A filter compiled from no
    exclude pattern excludes nothing.  With exclude pattern [^v1/Pod$]
    and include pattern [^v1/Pod$], of a regexp library in which that
    pattern and the alternation built from it match [v1/Pod], the label
    matches the compiled exclude alternation and is not excluded, while
    the same filter without the include pattern excludes it. *)
Theorem ShouldExclude_iff (rf : ResourceFilter) (label : string) :
  (ShouldExclude rf label = Ok true ↔
     excludeMatches rf label
     ∧ ∀ p, p ∈ IncludePatterns rf → validPattern p ∧ ¬ patternMatches p label)
  ∧ (Forall validPattern (IncludePatterns rf) →
       (ShouldExclude rf label = Ok true ↔
          excludeMatches rf label
          ∧ ∀ p, p ∈ IncludePatterns rf → ¬ patternMatches p label)
       ∧ (ShouldExclude rf label = Ok false ↔
          ¬ (excludeMatches rf label
             ∧ ∀ p, p ∈ IncludePatterns rf → ¬ patternMatches p label)))
  ∧ (∀ rf0, ExcludePatterns rf0 = [] → Compile rf0 = Ok rf →
       ShouldExclude rf label = Ok false)
  ∧ (∀ rf0,
       ExcludePatterns rf0 = ["^v1/Pod$"] → IncludePatterns rf0 = ["^v1/Pod$"] →
       patternMatches "^v1/Pod$" "v1/Pod" → patternMatches "(^v1/Pod$)" "v1/Pod" →
       Compile rf0 = Ok rf →
       excludeMatches rf "v1/Pod"
       ∧ ShouldExclude rf "v1/Pod" = Ok false
       ∧ ShouldExclude {| IncludePatterns := [];
                          ExcludePatterns := ExcludePatterns rf;
                          compiledFilter := compiledFilter rf |} "v1/Pod" = Ok true).
Proof.
  split_and!.
  - apply ShouldExclude_true.
  - apply ShouldExclude_valid_includes.
  - intros rf0 Hex Hok. rewrite (Compile_no_excludes rf0 Hex) in Hok.
    injection Hok as <-. done.
  - intros rf0 Hex Hin (re & Hre & Hm) (alt & Halt & Hmalt) (Hi & _ & Hc)%Compile_Ok.
    assert (Hcf : compiledFilter rf = Some alt).
    { destruct Hc as [[Hnil _]|(_ & c & Hc & ->)]; [by rewrite Hex in Hnil|].
      unfold excludeAlternation in Hc. rewrite Hex in Hc. simpl in Hc.
      rewrite <- Halt, <- Hc. reflexivity. }
    split_and!.
    + by exists alt.
    + unfold ShouldExclude. rewrite Hcf, Hmalt, Hi, Hin. simpl.
      unfold regexp_MustCompile. by rewrite Hre, Hm.
    + unfold ShouldExclude. simpl. by rewrite Hcf, Hmalt.
Qed.

(** C10, as the code has it. [Compile] never looks at the include
    patterns: replacing them changes nothing but the patterns carried
    along.  On a label that matches the compiled exclude alternation,
    [ShouldExclude] panics exactly when some include pattern is invalid
    and every include pattern before it is valid and does not match the
    label; and if an include pattern matches the label while all those
    before it are valid and do not, it returns false, whatever follows. *)
Theorem ShouldExclude_panics_iff (rf : ResourceFilter) (label : string) :
  (∀ includes,
     Compile {| IncludePatterns := includes;
                ExcludePatterns := ExcludePatterns rf;
                compiledFilter := compiledFilter rf |}
     = match Compile rf with
       | Ok rf' => Ok {| IncludePatterns := includes;
                         ExcludePatterns := ExcludePatterns rf';
                         compiledFilter := compiledFilter rf' |}
       | Err msg => Err msg
       | Panic msg => Panic msg
       end)
  ∧ (excludeMatches rf label →
       ((∃ msg, ShouldExclude rf label = Panic msg) ↔
          ∃ pre p post, IncludePatterns rf = pre ++ p :: post ∧ ¬ validPattern p
            ∧ ∀ q, q ∈ pre → validPattern q ∧ ¬ patternMatches q label)
       ∧ (ShouldExclude rf label = Ok false ↔
          ∃ pre p post, IncludePatterns rf = pre ++ p :: post ∧ patternMatches p label
            ∧ ∀ q, q ∈ pre → validPattern q ∧ ¬ patternMatches q label)).
Proof.
  split.
  - intros includes. unfold Compile, excludeAlternation. simpl.
    destruct (length (ExcludePatterns rf) =? 0)%nat; [done|].
    by destruct (regexp_Compile _).
  - intros (c & Hc & Hm). rewrite (ShouldExclude_unfold rf label c Hc Hm).
    split; [apply includeLoop_panic|apply includeLoop_false].
Qed.

(** *** The tests that compute agree with the notions they test *)

Lemma Compile_compiled rf : isOk (Compile rf) = true → Compile rf = Ok (compiled rf).
Proof. unfold compiled. by destruct (Compile rf). Qed.

Lemma validPatternb_spec p : validPatternb p = true ↔ validPattern p.
Proof.
  unfold validPatternb, validPattern. by destruct (regexp_Compile p).
Qed.

Lemma patternMatchesb_spec p label : patternMatchesb p label = true ↔ patternMatches p label.
Proof.
  unfold patternMatchesb, patternMatches. destruct (regexp_Compile p) as [re|]; split.
  - by eauto.
  - by intros (re' & [= <-] & ?).
  - done.
  - by intros (? & ? & _).
Qed.

Lemma excludeMatchesb_spec rf label :
  excludeMatchesb rf label = true ↔ excludeMatches rf label.
Proof.
  unfold excludeMatchesb, excludeMatches. destruct (compiledFilter rf) as [c|]; split.
  - by eauto.
  - by intros (c' & [= <-] & ?).
  - done.
  - by intros (? & ? & _).
Qed.

End Generic.

(** *** On the concrete engine *)

Example noisy_excludes_pods :
  let rf := compiled (WithNoisy NewResourceFilter) in
  Compile (WithNoisy NewResourceFilter) = Ok rf
  ∧ ShouldExclude rf "v1/Pod" = Ok true
  ∧ ShouldExclude rf "autoscaling/v2/HorizontalPodAutoscaler" = Ok true
  ∧ ShouldExclude rf "events.k8s.io/v1/Event" = Ok true
  ∧ ShouldExclude rf "apps/v1/Deployment" = Ok false
  ∧ ShouldExclude rf "v1/PodTemplate" = Ok false.
Proof.
  intros rf. split; [apply Compile_compiled|split_and!]; vm_compute; reflexivity.
Qed.

Lemma ShouldExclude_iff_witness :
  let rf := compiled FilterExample.podIncluded in
  (Compile FilterExample.podIncluded = Ok rf
   ∧ patternMatches "^v1/Pod$" "v1/Pod" ∧ patternMatches "(^v1/Pod$)" "v1/Pod")
  ∧ excludeMatches rf "v1/Pod"
  ∧ ShouldExclude rf "v1/Pod" = Ok false
  ∧ ShouldExclude {| IncludePatterns := [];
                     ExcludePatterns := ExcludePatterns rf;
                     compiledFilter := compiledFilter rf |} "v1/Pod" = Ok true.
Proof.
  intros rf.
  assert (Hc : Compile FilterExample.podIncluded = Ok rf)
    by (apply Compile_compiled; vm_compute; reflexivity).
  assert (Hp : patternMatches "^v1/Pod$" "v1/Pod").
  { apply patternMatchesb_spec. vm_compute. reflexivity. }
  assert (Ha : patternMatches "(^v1/Pod$)" "v1/Pod").
  { apply patternMatchesb_spec. vm_compute. reflexivity. }
  split; [done|].
  exact (proj2 (proj2 (proj2 (ShouldExclude_iff rf "v1/Pod"))) FilterExample.podIncluded
           eq_refl eq_refl Hp Ha Hc).
Defined.

(** Where an include pattern is not a regular expression, [Compile]
    accepts the filter, the label matches the exclude alternation and no
    include pattern, and [ShouldExclude] does not return true: it
    panics. *)
Lemma ShouldExclude_invalid_include_counterexample :
  let rf := compiled FilterExample.badInclude in
  Compile FilterExample.badInclude = Ok rf
  ∧ ¬ (ShouldExclude rf "v1/Pod" = Ok true ↔
         excludeMatches rf "v1/Pod"
         ∧ ∀ p, p ∈ IncludePatterns rf → ¬ patternMatches p "v1/Pod").
Proof.
  intros rf. split; [apply Compile_compiled; vm_compute; reflexivity|].
  assert (Hp : isPanic (ShouldExclude rf "v1/Pod") = true) by (vm_compute; reflexivity).
  assert (Hi : IncludePatterns rf = ["("]) by (vm_compute; reflexivity).
  intros [_ Hback]. rewrite Hback in Hp; [done|]. split.
  - apply excludeMatchesb_spec. vm_compute. reflexivity.
  - intros p Hin Hm%patternMatchesb_spec. rewrite Hi in Hin.
    apply list_elem_of_singleton in Hin as ->. by vm_compute in Hm.
Qed.

Lemma ShouldExclude_panics_iff_witness :
  let rf := compiled FilterExample.badInclude in
  (Compile FilterExample.badInclude = Ok rf ∧ excludeMatches rf "v1/Pod")
  ∧ ((∃ msg, ShouldExclude rf "v1/Pod" = Panic msg) ↔
       ∃ pre p post, IncludePatterns rf = pre ++ p :: post ∧ ¬ validPattern p
         ∧ ∀ q, q ∈ pre → validPattern q ∧ ¬ patternMatches q "v1/Pod").
Proof.
  intros rf.
  assert (Hc : Compile FilterExample.badInclude = Ok rf)
    by (apply Compile_compiled; vm_compute; reflexivity).
  assert (Hex : excludeMatches rf "v1/Pod").
  { apply excludeMatchesb_spec. vm_compute. reflexivity. }
  split; [done|].
  exact (proj1 (proj2 (ShouldExclude_panics_iff rf "v1/Pod") Hex)).
Defined.

(** C10 as stated fails where an include pattern before the invalid one
    matches the label: [Compile] succeeds, the include list holds the
    invalid pattern, the label matches the exclude alternation, and
    [ShouldExclude] returns false without a panic. *)
Lemma invalid_include_no_panic_counterexample :
  let rf := compiled FilterExample.podThenBad in
  Compile FilterExample.podThenBad = Ok rf
  ∧ IncludePatterns rf = ["^v1/Pod$"; "("]
  ∧ ¬ validPattern "("
  ∧ excludeMatches rf "v1/Pod"
  ∧ ShouldExclude rf "v1/Pod" = Ok false.
Proof.
  intros rf. split_and!.
  - apply Compile_compiled. vm_compute. reflexivity.
  - vm_compute. reflexivity.
  - intros Hv%validPatternb_spec. by vm_compute in Hv.
  - apply excludeMatchesb_spec. vm_compute. reflexivity.
  - vm_compute. reflexivity.
Qed.

End FilterProps.

(** ** Spec hashes *)

Module JsonProps.
Import Json.

(** *** Byte order on keys *)

Lemma string_leb_trans s1 s2 s3 :
  String.leb s1 s2 = true → String.leb s2 s3 = true → String.leb s1 s3 = true.
Proof.
  unfold String.leb. revert s2 s3.
  induction s1 as [|c1 s1 IH]; intros [|c2 s2] [|c3 s3]; simpl; try done.
  unfold Ascii.compare.
  destruct (N.compare_spec (N_of_ascii c1) (N_of_ascii c2)) as [E12|L12|G12];
    destruct (N.compare_spec (N_of_ascii c2) (N_of_ascii c3)) as [E23|L23|G23];
    destruct (N.compare_spec (N_of_ascii c1) (N_of_ascii c3)) as [E13|L13|G13];
    try done; try lia.
  apply IH.
Qed.

#[local] Instance keyLe_trans {A} : Transitive (@keyLe A).
Proof.
  intros x y z. unfold keyLe. rewrite !Is_true_true. apply string_leb_trans.
Qed.

#[local] Instance keyLe_total {A} : Total (@keyLe A).
Proof.
  intros x y. unfold keyLe. rewrite !Is_true_true. apply String.leb_total.
Qed.

(** Sorting by key forgets the order in which the entries of a map were
    met. *)
Lemma sortByKey_range {A} (range1 range2 : gmap string A → list (string * A)) m :
  RangeOracle range1 → RangeOracle range2 →
  sortByKey (range1 m) = sortByKey (range2 m).
Proof.
  intros H1 H2. unfold sortByKey.
  assert (Hin : ∀ (range : gmap string A → list (string * A)) x,
            RangeOracle range → x ∈ merge_sort keyLe (range m) → m !! x.1 = Some x.2).
  { intros range [k v] Hr Hx. rewrite merge_sort_Permutation in Hx.
    by apply (range_lookup range). }
  apply (Sorted_unique_strong keyLe).
  - intros [k1 v1] [k2 v2] Hx1%(Hin range1) Hx2%(Hin range2) Hle1 Hle2; [|done..].
    unfold keyLe in *; simpl in *. apply Is_true_true in Hle1, Hle2.
    pose proof (String.leb_antisym _ _ Hle1 Hle2) as ->. congruence.
  - apply Sorted_merge_sort, _.
  - apply Sorted_merge_sort, _.
  - rewrite !merge_sort_Permutation. by rewrite (H1 m), (H2 m).
Qed.

(** *** Induction over nested values *)

Lemma vsize_lookup (m : gmap string Value) k v :
  m !! k = Some v → vsize v < vsize (VMap m).
Proof.
  simpl. intros Hk. apply Nat.lt_succ_r. revert k v Hk.
  apply (map_fold_weak_ind
           (λ r (m : gmap string Value), ∀ k v, m !! k = Some v → vsize v ≤ r)).
  - intros k v Hk. by rewrite lookup_empty in Hk.
  - intros i x m' r Hi IH k v Hk.
    destruct (decide (i = k)) as [->|Hne].
    + rewrite lookup_insert_eq in Hk. injection Hk as ->. lia.
    + rewrite lookup_insert_ne in Hk by done. specialize (IH k v Hk). lia.
Qed.

Lemma vsize_elem_of (l : list Value) v :
  v ∈ l → vsize v < vsize (VList l).
Proof.
  simpl. intros Hv. apply Nat.lt_succ_r.
  induction Hv as [v l|v w l _ IH]; simpl; lia.
Qed.

Lemma Value_nested_ind (P : Value → Prop) :
  P VNil → (∀ b, P (VBool b)) → (∀ n, P (VInt n)) → (∀ s, P (VString s)) →
  (∀ l, Forall P l → P (VList l)) →
  (∀ m, map_Forall (λ _, P) m → P (VMap m)) →
  P VUnsupported →
  ∀ v, P v.
Proof.
  intros Hnil Hbool Hint Hstr Hlist Hmap Hun v.
  remember (vsize v) as n eqn:Hn. revert v Hn.
  induction n as [n IH] using lt_wf_ind. intros v ->.
  destruct v as [| | | |l|m|]; auto.
  - apply Hlist, Forall_forall. intros x Hx.
    by apply (IH (vsize x)), eq_refl; apply vsize_elem_of.
  - apply Hmap. intros k x Hx.
    by apply (IH (vsize x)), eq_refl; eapply vsize_lookup.
Qed.

(** *** Determinism of the encoder and of the two hash functions *)

Lemma Marshal_range (range1 range2 : gmap string (option string) → list (string * option string)) v :
  RangeOracle range1 → RangeOracle range2 →
  Marshal range1 v = Marshal range2 v.
Proof.
  intros H1 H2. induction v as [| | | |l IH|m IH|] using Value_nested_ind; simpl; try done.
  - by rewrite (Forall_mapM_ext _ _ _ IH).
  - assert (Marshal range1 <$> m = Marshal range2 <$> m) as ->.
    { apply map_fmap_ext. intros k x Hx. by apply (IH k x). }
    by rewrite (sortByKey_range range1 range2).
Qed.

(** C6. Two runs of the hash function on the same spec value return the
    same string, in whatever order each run meets the keys of the maps
    inside the value.  This holds of [CalculateSpecHash] of package k8s,
    which capture uses, and of the MD5 variant of package snapshot. *)
Theorem CalculateSpecHash_deterministic
    (range1 range2 : gmap string (option string) → list (string * option string))
    (json_error : Value → string) (spec : Value) :
  RangeOracle range1 → RangeOracle range2 →
  K8s.CalculateSpecHash range1 json_error spec
  = K8s.CalculateSpecHash range2 json_error spec
  ∧ Capture.CalculateSpecHash range1 json_error spec
    = Capture.CalculateSpecHash range2 json_error spec.
Proof.
  intros H1 H2. unfold K8s.CalculateSpecHash, Capture.CalculateSpecHash.
  by rewrite (Marshal_range range1 range2 spec H1 H2).
Qed.

Lemma forward_range : RangeOracle SpecExample.forward.
Proof. intros m. reflexivity. Qed.

Lemma backward_range : RangeOracle SpecExample.backward.
Proof. intros m. apply reverse_Permutation. Qed.

Lemma CalculateSpecHash_deterministic_witness :
  (RangeOracle SpecExample.forward ∧ RangeOracle SpecExample.backward)
  ∧ K8s.CalculateSpecHash SpecExample.forward SpecExample.json_error SpecExample.spec
    = K8s.CalculateSpecHash SpecExample.backward SpecExample.json_error SpecExample.spec
  ∧ Capture.CalculateSpecHash SpecExample.forward SpecExample.json_error SpecExample.spec
    = Capture.CalculateSpecHash SpecExample.backward SpecExample.json_error
        SpecExample.spec.
Proof.
  split; [split; [apply forward_range|apply backward_range]|].
  exact (CalculateSpecHash_deterministic SpecExample.forward SpecExample.backward
           SpecExample.json_error SpecExample.spec forward_range backward_range).
Defined.

(** The two hashes of the example payload: the first twenty bytes of its
    JSON text, keys in byte order, and the MD5 digest of that text. *)
Example spec_hash_prefix :
  K8s.CalculateSpecHash SpecExample.backward SpecExample.json_error SpecExample.spec
  = Ok ("{" +:+ quote "paused" +:+ ":false," +:+ String dquote "rep" +:+ "...").
Proof. vm_compute. reflexivity. Qed.

Example spec_hash_md5 :
  Capture.CalculateSpecHash SpecExample.forward SpecExample.json_error
    (VMap {[ "replicas" := VInt 3 ]})
  = Ok "c73a67b47eb7e030a7ca1de8535fac6a".
Proof. vm_compute. reflexivity. Qed.

Example bad_spec_fails :
  K8s.CalculateSpecHash SpecExample.forward SpecExample.json_error
    (VMap SpecExample.badSpec)
  = Err "json: unsupported type: chan int"
  ∧ Capture.CalculateSpecHash SpecExample.forward SpecExample.json_error
      (VMap SpecExample.badSpec)
    = Err "failed to marshal spec: json: unsupported type: chan int".
Proof. split; vm_compute; reflexivity. Qed.

End JsonProps.

(** ** Capture *)

Module CaptureProps.
Import Snap Capture.

Section Generic.
Context `{RegexpLib}.
Variable range : gmap string (option string) → list (string * option string).
Variable json_error : Json.Value → string.
Variable yamlFromJSON : string → option string.
Variable NewClient : string → Result K8s.Client.
Variable now : Time.

Abbreviation captureResource := (captureResource range json_error yamlFromJSON).
Abbreviation addResource := (addResource range json_error yamlFromJSON).
Abbreviation captureType := (captureType range json_error yamlFromJSON).
Abbreviation captureTypes := (captureTypes range json_error yamlFromJSON).

Lemma captureResource_key resource :
  (captureResource resource).1 = resourceKey (captureResource resource).2.
Proof. reflexivity. Qed.

Lemma captureResource_keyOf resource :
  (captureResource resource).1 = CaptureSpec.keyOf resource.
Proof. reflexivity. Qed.

Lemma captureResource_describes resource :
  CaptureSpec.describes (captureResource resource).2 resource.
Proof. by repeat split. Qed.

(** The record of a resource whose hash fails holds its version token
    in place of the hash; every other field is as for any resource. *)
Lemma captureResource_fallback resource :
  hashFails range json_error resource →
  SpecHash (captureResource resource).2 = K8s.ResourceVersion (K8s.Meta resource).
Proof.
  unfold hashFails. simpl. destruct (K8s.Spec resource) as [spec|]; [|done].
  intros Hfail.
  destruct (K8s.CalculateSpecHash range json_error (Json.VMap spec)) eqn:Hh; [|done..].
  by destruct (Hfail a).
Qed.

(** The two nested loops are one loop over all listed resources, unless
    a listing panics; the first panic is the outcome then. *)
Lemma captureTypes_spec client namespace resourceTypes resources :
  match captureTypes client namespace resources resourceTypes with
  | Ok result =>
      result = foldl addResource resources (listedResources client namespace resourceTypes)
      ∧ ∀ resourceType, resourceType ∈ resourceTypes →
          isPanic (K8s.ListResources client resourceType namespace) = false
  | Err _ => False
  | Panic msg =>
      ∃ resourceType, resourceType ∈ resourceTypes
        ∧ K8s.ListResources client resourceType namespace = Panic msg
  end.
Proof.
  revert resources. induction resourceTypes as [|rt rts IH]; intros resources.
  - simpl. split; [done|]. by intros ? ?%elem_of_nil.
  - cbn [Capture.captureTypes listedResources flat_map]. unfold Capture.captureType.
    destruct (K8s.ListResources client rt namespace) as [listed|e|e] eqn:Hl; csimpl.
    + specialize (IH (foldl addResource resources listed)).
      destruct (Capture.captureTypes _ _ _ _ _ _ _) as [result|?|msg]; [|done|].
      * destruct IH as [-> Hnp]. split; [by rewrite foldl_app|].
        intros rt' [->|?]%elem_of_cons; [by rewrite Hl|by apply Hnp].
      * destruct IH as (rt' & ? & ?). exists rt'. split; [by right|done].
    + specialize (IH resources).
      destruct (Capture.captureTypes _ _ _ _ _ _ _) as [result|?|msg]; [|done|].
      * destruct IH as [-> Hnp]. split; [done|].
        intros rt' [->|?]%elem_of_cons; [by rewrite Hl|by apply Hnp].
      * destruct IH as (rt' & ? & ?). exists rt'. split; [by right|done].
    + exists rt. split; [by left|done].
Qed.

Lemma captureTypes_Ok client namespace resourceTypes resources :
  (∀ resourceType, resourceType ∈ resourceTypes →
     isPanic (K8s.ListResources client resourceType namespace) = false) →
  captureTypes client namespace resources resourceTypes
  = Ok (foldl addResource resources (listedResources client namespace resourceTypes)).
Proof.
  intros Hnp. pose proof (captureTypes_spec client namespace resourceTypes resources) as Hs.
  destruct (Capture.captureTypes _ _ _ _ _ _ _) as [result|?|msg]; [|done|].
  - by destruct Hs as [-> _].
  - destruct Hs as (rt & Hin & Hp). specialize (Hnp rt Hin). by rewrite Hp in Hnp.
Qed.

Lemma addResource_insert resources resource :
  addResource resources resource
  = <[CaptureSpec.keyOf resource := (captureResource resource).2]> resources.
Proof. reflexivity. Qed.

(** A key that no resource of the list has is left as it was. *)
Lemma lookup_foldl_addResource_other listed resources key :
  (∀ r, r ∈ listed → CaptureSpec.keyOf r ≠ key) →
  foldl addResource resources listed !! key = resources !! key.
Proof.
  revert resources. induction listed as [|r listed IH]; intros resources Hne; [done|].
  cbn [foldl]. rewrite IH by (intros r' Hr'; apply Hne; by right).
  rewrite addResource_insert. apply lookup_insert_ne. apply Hne. by left.
Qed.

(** After the loop a key holds the record of the last resource that has
    it. *)
Lemma lookup_foldl_addResource_last earlier resource later resources :
  (∀ other, other ∈ later → CaptureSpec.keyOf other ≠ CaptureSpec.keyOf resource) →
  foldl addResource resources (earlier ++ resource :: later)
    !! CaptureSpec.keyOf resource
  = Some (captureResource resource).2.
Proof.
  intros Hlater. rewrite foldl_app. cbn [foldl].
  rewrite lookup_foldl_addResource_other by done.
  rewrite addResource_insert. apply lookup_insert_eq.
Qed.

(** A key is the key of no resource of a list, or there is a last
    resource with it. *)
Lemma last_with_key listed key :
  (∀ r, r ∈ listed → CaptureSpec.keyOf r ≠ key)
  ∨ ∃ earlier resource later,
      listed = earlier ++ resource :: later
      ∧ CaptureSpec.keyOf resource = key
      ∧ ∀ other, other ∈ later → CaptureSpec.keyOf other ≠ key.
Proof.
  induction listed as [|r listed IH].
  - left. by intros ? ?%elem_of_nil.
  - destruct IH as [Hnone|(earlier & resource & later & -> & Hk & Hlater)].
    + destruct (decide (CaptureSpec.keyOf r = key)) as [Hr|Hr].
      * right. exists [], r, listed. by split_and!.
      * left. intros r' [->|?]%elem_of_cons; [done|by apply Hnone].
    + right. exists (r :: earlier), resource, later. by split_and!.
Qed.

Lemma foldl_addResource_keyed listed resources :
  map_Forall (λ k r, k = resourceKey r) resources →
  map_Forall (λ k r, k = resourceKey r) (foldl addResource resources listed).
Proof.
  revert resources. induction listed as [|r listed IH]; intros resources Hk; [done|].
  simpl. apply IH. unfold Capture.addResource.
  destruct (captureResource r) as [k i] eqn:Hr.
  apply map_Forall_insert_2; [|done].
  pose proof (captureResource_key r) as Hkey. by rewrite Hr in Hkey.
Qed.

(** X21. Every snapshot a capture returns stores its records under the
    key of their identity. *)
Lemma CaptureSnapshot_keyed namespace ignoreKindRegex kubeconfigPath snapshot :
  CaptureSnapshot range json_error yamlFromJSON NewClient now
    namespace ignoreKindRegex kubeconfigPath
  = Ok snapshot →
  KeyedByIdentity snapshot.
Proof.
  unfold CaptureSnapshot, KeyedByIdentity. intros Hs.
  destruct (NewClient kubeconfigPath) as [client| |]; [|done..].
  destruct (Filter.Compile _) as [resourceFilter| |]; [|done..].
  destruct (K8s.DiscoverResources _ _) as [resourceTypes| |]; [|done..].
  pose proof (captureTypes_spec client namespace resourceTypes ∅) as Hl.
  destruct (Capture.captureTypes _ _ _ _ _ _ _) as [resources| |]; [|done..].
  destruct Hl as [-> _]. csimpl in Hs. injection Hs as <-. simpl.
  apply foldl_addResource_keyed, map_Forall_empty.
Qed.

(** C7. Once the client is built, the filter compiled and discovery
    done, and as long as no listing panics, the capture returns a
    snapshot whatever happens while hashing.  The key
    [apiVersion/kind|namespace|name] of every listed resource is in the
    snapshot.  Under the key of a resource is the record of the last
    listed resource with that key: it has the identity, the
    resourceVersion and the creation time of that resource, and when the
    resource has no spec payload, or its hash computation fails, the
    resourceVersion of the resource is the specHash of the record. *)
Theorem CaptureSnapshot_hash_fallback
    (namespace ignoreKindRegex kubeconfigPath : string)
    (client : K8s.Client) (resourceFilter : Filter.ResourceFilter)
    (resourceTypes : list string) :
  NewClient kubeconfigPath = Ok client →
  Filter.Compile (captureFilter ignoreKindRegex) = Ok resourceFilter →
  K8s.DiscoverResources client (Some resourceFilter) = Ok resourceTypes →
  (∀ resourceType, resourceType ∈ resourceTypes →
     isPanic (K8s.ListResources client resourceType namespace) = false) →
  ∃ snapshot,
    CaptureSnapshot range json_error yamlFromJSON NewClient now
      namespace ignoreKindRegex kubeconfigPath
    = Ok snapshot
    ∧ (∀ resource, resource ∈ listedResources client namespace resourceTypes →
         is_Some (Resources snapshot !! CaptureSpec.keyOf resource))
    ∧ (∀ earlier resource later,
         listedResources client namespace resourceTypes = earlier ++ resource :: later →
         (∀ other, other ∈ later →
            CaptureSpec.keyOf other ≠ CaptureSpec.keyOf resource) →
         ∃ info,
           Resources snapshot !! CaptureSpec.keyOf resource = Some info
           ∧ CaptureSpec.describes info resource
           ∧ (hashFails range json_error resource →
              SpecHash info = K8s.ResourceVersion (K8s.Meta resource)
              ∧ SpecHash info = ResourceVersion info)).
Proof.
  intros Hclient Hcompile Hdiscover Hnp.
  exists {| Timestamp := now; SnapshotNamespace := namespace;
            Resources := foldl addResource ∅
                           (listedResources client namespace resourceTypes) |}.
  split.
  { unfold CaptureSnapshot. rewrite Hclient, Hcompile, Hdiscover.
    by rewrite captureTypes_Ok. }
  cbn [Resources]. split.
  - intros resource Hr.
    destruct (last_with_key (listedResources client namespace resourceTypes)
                (CaptureSpec.keyOf resource))
      as [Hnone|(earlier & last & later & Hl & Hk & Hlater)].
    + by destruct (Hnone resource Hr).
    + rewrite Hl, <- Hk. rewrite lookup_foldl_addResource_last; [by eauto|].
      intros other Ho. rewrite Hk. by apply Hlater.
  - intros earlier resource later Hl Hlater. rewrite Hl.
    exists (captureResource resource).2. split_and!.
    + by apply lookup_foldl_addResource_last.
    + apply captureResource_describes.
    + intros Hfail. split; [by apply captureResource_fallback|].
      by rewrite (captureResource_fallback resource Hfail).
Qed.

End Generic.

(** *** On the example cluster *)

Example discovery_example :
  ClusterExample.resourceTypes
  = ["apps/v1/Deployment"; "v1/ConfigMap"; "v1/Secret"; "example.com/v1/Widget"].
Proof. vm_compute. reflexivity. Qed.

Example capture_example :
  let hashes := λ key,
    (λ snapshot, (λ r, (ResourceVersion r, SpecHash r)) <$> Resources snapshot !! key)
    <$> CaptureSnapshot SpecExample.forward SpecExample.json_error
          ClusterExample.yamlFromJSON ClusterExample.NewClient ClusterExample.now
          "myapp" "" "" in
  hashes "apps/v1/Deployment|myapp|x"
  = Ok (Some ("1", "{" +:+ Json.quote "replicas" +:+ ":3}"))
  ∧ hashes "v1/ConfigMap|myapp|cfg" = Ok (Some ("7", "7"))
  ∧ hashes "example.com/v1/Widget|myapp|w" = Ok (Some ("41", "41"))
  ∧ hashes "v1/Secret|myapp|s" = Ok None.
Proof. intros hashes. split_and!; vm_compute; reflexivity. Qed.

Lemma example_listings resourceType namespace :
  isPanic (K8s.ListResources ClusterExample.client resourceType namespace) = false.
Proof. simpl. by repeat case_bool_decide. Qed.

Lemma CaptureSnapshot_hash_fallback_witness :
  ∃ snapshot info,
    CaptureSnapshot SpecExample.forward SpecExample.json_error
      ClusterExample.yamlFromJSON ClusterExample.NewClient ClusterExample.now
      "myapp" "" "" = Ok snapshot
    ∧ hashFails SpecExample.forward SpecExample.json_error ClusterExample.widget
    ∧ Resources snapshot !! "example.com/v1/Widget|myapp|w" = Some info
    ∧ CaptureSpec.describes info ClusterExample.widget
    ∧ SpecHash info = "41".
Proof.
  assert (Hcompile : Filter.Compile (captureFilter "") = Ok ClusterExample.resourceFilter)
    by (apply FilterProps.Compile_compiled; vm_compute; reflexivity).
  assert (Hdiscover : K8s.DiscoverResources ClusterExample.client
                        (Some ClusterExample.resourceFilter)
                      = Ok ClusterExample.resourceTypes)
    by (vm_compute; reflexivity).
  destruct (CaptureSnapshot_hash_fallback SpecExample.forward SpecExample.json_error
              ClusterExample.yamlFromJSON ClusterExample.NewClient ClusterExample.now
              "myapp" "" "" ClusterExample.client ClusterExample.resourceFilter
              ClusterExample.resourceTypes eq_refl Hcompile Hdiscover
              (λ resourceType _, example_listings resourceType "myapp"))
    as (snapshot & Hs & _ & Hlast).
  assert (Hbad : K8s.CalculateSpecHash SpecExample.forward SpecExample.json_error
                   (Json.VMap SpecExample.badSpec)
                 = Err "json: unsupported type: chan int") by (vm_compute; reflexivity).
  assert (Hfail : hashFails SpecExample.forward SpecExample.json_error
                    ClusterExample.widget).
  { unfold hashFails. cbn [K8s.Spec ClusterExample.widget].
    intros hash Hh. rewrite Hbad in Hh. discriminate. }
  assert (Hlisted : listedResources ClusterExample.client "myapp" ClusterExample.resourceTypes
                    = [ClusterExample.deployment; ClusterExample.configmap]
                      ++ ClusterExample.widget :: []) by (vm_compute; reflexivity).
  destruct (Hlast _ ClusterExample.widget _ Hlisted) as (info & Hinfo & Hd & Hhash).
  { intros other Ho. apply elem_of_nil in Ho. destruct Ho. }
  exists snapshot, info.
  split; [exact Hs|]. split; [exact Hfail|]. split; [exact Hinfo|].
  split; [exact Hd|]. exact (proj1 (Hhash Hfail)).
Defined.

End CaptureProps.

(** ** The presentation state machine *)

Module TuiProps.
Import Tui.

Section Generic.
Variable range : gmap string Snap.ResourceInfo → list (string * Snap.ResourceInfo).
Variable clipboard_WriteAll : string → option string.
Variable now : Snap.Time.

Abbreviation Update := (Update range clipboard_WriteAll now).
Abbreviation Run := (Run range clipboard_WriteAll now).

(** The force-quit key ends the loop in every state. *)
Lemma ForceQuit_quits m k :
  key_Matches k (ForceQuit (keyMap m)) = true →
  Update m (KeyMsg k) = Ok (m, [tea_Quit]).
Proof. intros Hk. simpl. unfold updateKey. by rewrite Hk. Qed.

(** While a capture is running the quit key neither ends the loop nor
    changes the state. *)
Lemma Quit_while_capturing m k :
  key_Matches k (ForceQuit (keyMap m)) = false →
  key_Matches k (Quit (keyMap m)) = true →
  isCapturing (state m) = true →
  Update m (KeyMsg k) = Ok (m, []).
Proof.
  intros Hf Hq Hc. simpl. unfold updateKey. rewrite Hf, Hq.
  unfold isCapturing in Hc.
  destruct (state m) eqn:Hs; try done; simpl; unfold scrollKeys; by rewrite Hs.
Qed.

(** C9, as the code has it. From Ready, BaselineCaptured, ShowingDiff and
    Error the quit command ends the interactive loop.  From
    ShowingResourceDetail it leads back to ShowingDiff and the loop goes
    on with the next message. *)
Theorem Quit_ends_loop (m : Model) (k : string) (rest : list Msg) :
  key_Matches k (Quit (keyMap m)) = true →
  (state m ∈ [stateReady; stateBaselineCaptured; stateShowingDiff; stateError] →
     Update m (KeyMsg k) = Ok (m, [tea_Quit])
     ∧ Run m (KeyMsg k :: rest) = Ok (m, true))
  ∧ (state m = stateShowingResourceDetail →
     key_Matches k (ForceQuit (keyMap m)) = false →
     Update m (KeyMsg k) = Ok (set_state stateShowingDiff m, [])
     ∧ Run m (KeyMsg k :: rest) = Run (set_state stateShowingDiff m) rest).
Proof.
  intros Hq. split.
  - intros Hs.
    assert (Hu : Update m (KeyMsg k) = Ok (m, [tea_Quit])).
    { simpl. unfold updateKey.
      destruct (key_Matches k (ForceQuit (keyMap m))); [done|]. rewrite Hq.
      repeat (apply elem_of_cons in Hs as [Hs|Hs]; [by rewrite Hs|]).
      by apply elem_of_nil in Hs. }
    split; [done|]. cbn [Tui.Run]. by rewrite Hu.
  - intros Hs Hf.
    assert (Hu : Update m (KeyMsg k) = Ok (set_state stateShowingDiff m, [])).
    { simpl. unfold updateKey. by rewrite Hf, Hq, Hs. }
    split; [done|]. cbn [Tui.Run]. by rewrite Hu.
Qed.

End Generic.

(** *** On the example session *)

Example session_reaches_diff :
  Run Scenario.range Session.clipboard_WriteAll Session.now
    Session.start Session.toDiff = Ok (Session.after Session.toDiff, false)
  ∧ state (Session.after Session.toDiff) = stateShowingDiff
  ∧ diffResult (Session.after Session.toDiff) = Some Session.scenarioDiff
  ∧ length (rows (table (Session.after Session.toDiff))) = 3.
Proof. split_and!; vm_compute; reflexivity. Qed.

Lemma Quit_ends_loop_witness :
  let m := Session.after Session.toDiff in
  (key_Matches "q" (Quit (keyMap m)) = true
   ∧ state m ∈ [stateReady; stateBaselineCaptured; stateShowingDiff; stateError])
  ∧ Update Scenario.range Session.clipboard_WriteAll Session.now m (KeyMsg "q")
    = Ok (m, [tea_Quit]).
Proof.
  intros m.
  assert (Hq : key_Matches "q" (Quit (keyMap m)) = true) by (vm_compute; reflexivity).
  assert (Hst : state m = stateShowingDiff) by (vm_compute; reflexivity).
  assert (Hs : state m ∈ [stateReady; stateBaselineCaptured; stateShowingDiff; stateError])
    by (rewrite Hst; right; right; left).
  split; [by split|].
  exact (proj1 (proj1 (Quit_ends_loop Scenario.range Session.clipboard_WriteAll
                         Session.now m "q" [] Hq) Hs)).
Defined.

(** C9 as stated fails in ShowingResourceDetail: with a row of the diff
    opened, the quit command does not end the loop; the program is back
    in ShowingDiff. *)
Lemma Quit_in_detail_counterexample :
  let m := Session.after Session.toDetail in
  let m' := Session.after (Session.toDetail ++ [KeyMsg "q"]) in
  Run Scenario.range Session.clipboard_WriteAll Session.now
    Session.start Session.toDetail = Ok (m, false)
  ∧ state m = stateShowingResourceDetail
  ∧ Update Scenario.range Session.clipboard_WriteAll Session.now m (KeyMsg "q")
    = Ok (m', [])
  ∧ state m' = stateShowingDiff
  ∧ Run Scenario.range Session.clipboard_WriteAll Session.now
      Session.start (Session.toDetail ++ [KeyMsg "q"]) = Ok (m', false).
Proof. intros m m'. split_and!; vm_compute; reflexivity. Qed.

End TuiProps.

(** ** Exit status *)

Module CliProps.
Import Tui Cli.

(** [main] exits with 0 or 1 and nothing else. *)
Lemma main_zero_or_one inv p_Run : main inv p_Run = 0%Z ∨ main inv p_Run = 1%Z.
Proof.
  destruct inv; simpl; auto. destruct (p_Run _).2; auto.
Qed.

(** The exit status does not depend on the model the runtime returns. *)
Lemma main_ignores_model inv p_Run p_Run' :
  (∀ m, (p_Run m).2 = (p_Run' m).2) → main inv p_Run = main inv p_Run'.
Proof. intros Heq. destruct inv; simpl; [|done..]. by rewrite Heq. Qed.

(** C8 on the code. A session that ends, by the quit key, on a non-empty
    diff exits with 0 and not 2; a session whose capture failed, so that
    no diff was produced, exits with 0 as well; a failure of the runtime
    exits with 1; no run exits with 2, or with 3 or more. *)
Theorem main_exit_status :
  let run := runProgram Scenario.range Session.clipboard_WriteAll Session.now in
  let inv := invokeStart "myapp" "" "" true false in
  let m := Session.after (Session.toDiff ++ [KeyMsg "q"]) in
  let e := Session.after (Session.toError ++ [KeyMsg "q"]) in
  (run None (Session.toDiff ++ [KeyMsg "q"]) Session.start = (m, None)
   ∧ state m = stateShowingDiff
   ∧ Diff.IsEmpty <$> diffResult m = Some false
   ∧ main inv (run None (Session.toDiff ++ [KeyMsg "q"])) = 0%Z)
  ∧ (run None (Session.toError ++ [KeyMsg "q"]) Session.start = (e, None)
     ∧ state e = stateError ∧ diffResult e = None
     ∧ main inv (run None (Session.toError ++ [KeyMsg "q"])) = 0%Z)
  ∧ main inv (run (Some "could not open a new TTY") []) = 1%Z
  ∧ (∀ inv p_Run, main inv p_Run ≠ 2%Z ∧ ¬ (3 ≤ main inv p_Run)%Z).
Proof.
  intros run inv m e. split_and!; try (vm_compute; reflexivity).
  intros inv' p_Run. destruct (main_zero_or_one inv' p_Run) as [-> | ->]; lia.
Qed.

End CliProps.

(** ** More on the diff engine *)

Module DiffExtra.
Import Snap Diff DiffSpec.

(** *** The sequences as lists *)

Lemma Added_foldl b l r :
  Added (foldl (findAddedModified b) r l) = Added r ++ omap (addedAt b) l.
Proof.
  revert r. induction l as [|[k res] l IH]; intros r; simpl.
  - by rewrite app_nil_r.
  - rewrite IH. unfold findAddedModified, addedAt. simpl.
    destruct (Resources b !! k) as [baseRes|]; simpl.
    + by case_match.
    + by rewrite <- app_assoc.
Qed.

Lemma Modified_foldl b l r :
  Modified (foldl (findAddedModified b) r l) = Modified r ++ omap (modifiedAt b) l.
Proof.
  revert r. induction l as [|[k res] l IH]; intros r; simpl.
  - by rewrite app_nil_r.
  - rewrite IH. unfold findAddedModified, modifiedAt. simpl.
    destruct (Resources b !! k) as [baseRes|]; simpl; [|done].
    case_match; simpl; [|done]. by rewrite <- app_assoc.
Qed.

Lemma Removed_foldl c l r :
  Removed (foldl (findRemoved c) r l) = Removed r ++ omap (removedAt c) l.
Proof.
  revert r. induction l as [|[k res] l IH]; intros r; simpl.
  - by rewrite app_nil_r.
  - rewrite IH. unfold findRemoved, removedAt. simpl.
    destruct (Resources c !! k); simpl; [done|]. by rewrite <- app_assoc.
Qed.

Lemma Compare_lists range b c :
  Added (Compare range b c) = omap (addedAt b) (range (Resources c))
  ∧ Removed (Compare range b c) = omap (removedAt c) (range (Resources b))
  ∧ Modified (Compare range b c) = omap (modifiedAt b) (range (Resources c)).
Proof.
  unfold Compare. split_and!.
  - by rewrite DiffProps.findRemoved_Added, Added_foldl.
  - by rewrite Removed_foldl, DiffProps.findAddedModified_Removed.
  - by rewrite DiffProps.findRemoved_Modified, Modified_foldl.
Qed.

(** *** Empty results *)

Lemma IsEmpty_nil d :
  IsEmpty d = true ↔ Added d = [] ∧ Removed d = [] ∧ Modified d = [].
Proof.
  unfold IsEmpty. rewrite !andb_true_iff, !Nat.eqb_eq.
  destruct (Added d), (Removed d), (Modified d); simpl; intuition discriminate.
Qed.

Lemma Compare_nil_iff range b c :
  RangeOracle range →
  (Added (Compare range b c) = [] ∧ Removed (Compare range b c) = []
   ∧ Modified (Compare range b c) = []) ↔ ∀ k, agreeAt b c k.
Proof.
  intros Hr. split.
  - intros (Ha & Hrm & Hm) k. unfold agreeAt.
    destruct (Resources b !! k) as [x|] eqn:Hb, (Resources c !! k) as [y|] eqn:Hc; [| | |done].
    + destruct (decide (ResourceVersion y = ResourceVersion x)) as [Hv|Hv];
        [destruct (decide (SpecHash y = SpecHash x)) as [Hh|Hh]; [done|]|];
        exfalso; eapply (not_elem_of_nil (modifiedDiff x y)); rewrite <- Hm;
        apply (DiffProps.elem_of_Modified range Hr); exists k, y, x; eauto.
    + exfalso. eapply (not_elem_of_nil (removedDiff x)). rewrite <- Hrm.
      apply (DiffProps.elem_of_Removed range Hr). by exists k, x.
    + exfalso. eapply (not_elem_of_nil (addedDiff y)). rewrite <- Ha.
      apply (DiffProps.elem_of_Added range Hr). by exists k, y.
  - intros Hagree. split_and!; apply elem_of_nil_inv; intros e.
    + intros (k & res & Hc & Hb & _)%(DiffProps.elem_of_Added range Hr).
      specialize (Hagree k). unfold agreeAt in Hagree. by rewrite Hb, Hc in Hagree.
    + intros (k & res & Hb & Hc & _)%(DiffProps.elem_of_Removed range Hr).
      specialize (Hagree k). unfold agreeAt in Hagree. by rewrite Hb, Hc in Hagree.
    + intros (k & res & x & Hc & Hb & Hd & _)%(DiffProps.elem_of_Modified range Hr).
      specialize (Hagree k). unfold agreeAt in Hagree. rewrite Hb, Hc in Hagree.
      destruct Hagree, Hd; congruence.
Qed.

(** X1. The result of [Compare] is empty exactly when the two snapshots
    hold the same keys and, under each key, records with the same
    resourceVersion and the same specHash; no other field, and neither
    the timestamp nor the namespace of the snapshots, is looked at. *)
Theorem Compare_IsEmpty_iff
    (range : gmap string ResourceInfo → list (string * ResourceInfo))
    (baseline current : Snapshot) :
  RangeOracle range →
  IsEmpty (Compare range baseline current) = true ↔ ∀ k, agreeAt baseline current k.
Proof.
  intros Hr. rewrite IsEmpty_nil. by apply Compare_nil_iff.
Qed.

(** X2. Comparing a snapshot with itself finds nothing. *)
Theorem Compare_self_empty
    (range : gmap string ResourceInfo → list (string * ResourceInfo))
    (s : Snapshot) :
  RangeOracle range → Compare range s s = emptyResult.
Proof.
  intros Hr.
  assert (Hnil : Added (Compare range s s) = [] ∧ Removed (Compare range s s) = []
                 ∧ Modified (Compare range s s) = []).
  { apply (Compare_nil_iff range s s Hr). intros k. unfold agreeAt.
    by destruct (Resources s !! k). }
  destruct (Compare range s s) as [a r m]. simpl in Hnil.
  by destruct Hnil as (-> & -> & ->).
Qed.

(** *** Swapping the two snapshots *)

Lemma addedAt_removedAt b (l : list (string * ResourceInfo)) :
  Resource <$> omap (addedAt b) l = Resource <$> omap (removedAt b) l.
Proof.
  induction l as [|[k res] l IH]; [done|]. csimpl.
  unfold addedAt at 1, removedAt at 1. csimpl.
  destruct (Resources b !! k); csimpl; [done|]. by rewrite IH.
Qed.

(** X3. What is added from [b] to [c] is what is removed from [c] to [b]:
    the same records, in some order, as each comparison visits the maps
    in an order of its own; and a key is modified from [b] to [c]
    exactly when it is modified from [c] to [b], with old and new
    exchanged. *)
Theorem Compare_swap
    (range1 range2 : gmap string ResourceInfo → list (string * ResourceInfo))
    (b c : Snapshot) :
  RangeOracle range1 → RangeOracle range2 →
  Resource <$> Added (Compare range1 b c) ≡ₚ Resource <$> Removed (Compare range2 c b)
  ∧ Resource <$> Removed (Compare range1 b c) ≡ₚ Resource <$> Added (Compare range2 c b)
  ∧ ∀ x y, modifiedDiff x y ∈ Modified (Compare range1 b c)
           ↔ modifiedDiff y x ∈ Modified (Compare range2 c b).
Proof.
  intros Hr1 Hr2.
  destruct (Compare_lists range1 b c) as (Ha & Hrm & _).
  destruct (Compare_lists range2 c b) as (Ha' & Hrm' & _).
  split_and!.
  - rewrite Ha, Hrm', addedAt_removedAt. by rewrite (Hr1 _), (Hr2 _).
  - rewrite Hrm, Ha', addedAt_removedAt. by rewrite (Hr1 _), (Hr2 _).
  - intros x y. split.
    + intros (k & res & baseRes & Ht & Hs & Hd & Heq)%(DiffProps.elem_of_Modified range1 Hr1).
      injection Heq as _ _ _ _ _ -> ->.
      apply (DiffProps.elem_of_Modified range2 Hr2). exists k, baseRes, res.
      split_and!; [done..| |done]. destruct Hd; [left|right]; congruence.
    + intros (k & res & baseRes & Ht & Hs & Hd & Heq)%(DiffProps.elem_of_Modified range2 Hr2).
      injection Heq as _ _ _ _ _ -> ->.
      apply (DiffProps.elem_of_Modified range1 Hr1). exists k, baseRes, res.
      split_and!; [done..| |done]. destruct Hd; [left|right]; congruence.
Qed.

(** *** No key twice *)

Lemma omap_keys_NoDup (f : string * ResourceInfo → option ResourceDiff)
    (l : list (string * ResourceInfo)) :
  NoDup l.*1 →
  (∀ kv e, kv ∈ l → f kv = Some e → entryKey e = kv.1) →
  NoDup (entryKey <$> omap f l).
Proof.
  induction l as [|kv l IH]; simpl; intros Hnd Hkey; [constructor|].
  apply NoDup_cons in Hnd as [Hnotin Hnd].
  assert (IH' : NoDup (entryKey <$> omap f l)).
  { apply IH; [done|]. intros kv' e Hin. apply Hkey. by right. }
  destruct (f kv) as [e|] eqn:Hf; simpl; [|done].
  apply NoDup_cons. split; [|done].
  intros (e' & Heq & (kv' & Hin' & Hf')%list_elem_of_omap)%list_elem_of_fmap.
  apply Hnotin. apply list_elem_of_fmap. exists kv'. split; [|done].
  rewrite <- (Hkey kv e) by (by left || done).
  rewrite <- (Hkey kv' e') by (by right || done). done.
Qed.

Lemma range_keys_NoDup (range : gmap string ResourceInfo → list (string * ResourceInfo)) m :
  RangeOracle range → NoDup (range m).*1.
Proof. intros Hr. rewrite (Hr m). apply NoDup_fst_map_to_list. Qed.

Lemma Compare_each_NoDup
    (range : gmap string ResourceInfo → list (string * ResourceInfo))
    (baseline current : Snapshot) :
  RangeOracle range →
  KeyedByIdentity baseline → KeyedByIdentity current →
  let d := Compare range baseline current in
  NoDup (entryKey <$> Added d) ∧ NoDup (entryKey <$> Removed d)
  ∧ NoDup (entryKey <$> Modified d).
Proof.
  intros Hr Hb Hc d.
  destruct (Compare_lists range baseline current) as (Ha & Hrm & Hm).
  split_and!.
  - subst d. rewrite Ha. apply omap_keys_NoDup; [by apply range_keys_NoDup|].
    intros [k res] e Hin%(range_lookup range _ _ _ Hr). unfold addedAt. simpl.
    destruct (Resources baseline !! k); [done|]. intros [= <-].
    unfold entryKey. simpl. symmetry. by apply (Hc k res).
  - subst d. rewrite Hrm. apply omap_keys_NoDup; [by apply range_keys_NoDup|].
    intros [k res] e Hin%(range_lookup range _ _ _ Hr). unfold removedAt. simpl.
    destruct (Resources current !! k); [done|]. intros [= <-].
    unfold entryKey. simpl. symmetry. by apply (Hb k res).
  - subst d. rewrite Hm. apply omap_keys_NoDup; [by apply range_keys_NoDup|].
    intros [k res] e Hin%(range_lookup range _ _ _ Hr). unfold modifiedAt. simpl.
    destruct (Resources baseline !! k); [|done]. case_match; [|done]. intros [= <-].
    unfold entryKey. simpl. symmetry. by apply (Hc k res).
Qed.

(** X4. Under the invariant of snapshots no key is reported twice: the
    keys of the entries of the three sequences are pairwise distinct. *)
Theorem Compare_keys_NoDup
    (range : gmap string ResourceInfo → list (string * ResourceInfo))
    (baseline current : Snapshot) :
  RangeOracle range →
  KeyedByIdentity baseline → KeyedByIdentity current →
  let d := Compare range baseline current in
  NoDup (entryKey <$> (Added d ++ Removed d ++ Modified d)).
Proof.
  intros Hr Hb Hc d.
  destruct (Compare_each_NoDup range baseline current Hr Hb Hc) as (Ha & Hrm & Hm).
  rewrite !fmap_app. apply NoDup_app. split_and!; [done| |apply NoDup_app; split_and!; [done| |done]].
  - intros k (e & -> & He)%list_elem_of_fmap.
    destruct (DiffProps.Added_key range Hr _ _ e Hc He) as (res & Hcur & Hbase & _).
    intros [(e' & Hk & He')%list_elem_of_fmap|(e' & Hk & He')%list_elem_of_fmap]%elem_of_app.
    + destruct (DiffProps.Removed_key range Hr _ _ e' Hb He') as (? & _ & Hn & _). congruence.
    + destruct (DiffProps.Modified_key range Hr _ _ e' Hc He') as (? & ? & _ & Hs & _). congruence.
  - intros k (e & -> & He)%list_elem_of_fmap (e' & Hk & He')%list_elem_of_fmap.
    destruct (DiffProps.Removed_key range Hr _ _ e Hb He) as (? & _ & Hn & _).
    destruct (DiffProps.Modified_key range Hr _ _ e' Hc He') as (? & ? & Hs & _). congruence.
Qed.

(** *** Counting *)

Lemma omap_length_filter {A B} (f : A → option B) (l : list A) :
  length (omap f l) = length (filter (λ x, is_Some (f x)) l).
Proof.
  induction l as [|x l IH]; [done|]. csimpl. rewrite filter_cons.
  case_decide as Hd; destruct (f x) as [y|] eqn:Hf; simpl.
  - by rewrite IH.
  - by destruct Hd.
  - destruct Hd. eauto.
  - done.
Qed.

Lemma filter_sublist_impl {A} (P Q : A → Prop)
    `{!∀ x, Decision (P x)} `{!∀ x, Decision (Q x)} (l : list A) :
  (∀ x, P x → Q x) → filter P l `sublist_of` filter Q l.
Proof.
  intros HPQ. induction l as [|x l IH]; [done|]. rewrite !filter_cons.
  repeat case_decide.
  - by apply sublist_skip.
  - exfalso. auto.
  - by apply sublist_cons.
  - done.
Qed.

Lemma filter_keys_size (range : gmap string ResourceInfo → list (string * ResourceInfo))
    (P : string * ResourceInfo → Prop) `{!∀ kv, Decision (P kv)}
    (m : gmap string ResourceInfo) (X : gset string) :
  RangeOracle range →
  (∀ k v, m !! k = Some v → P (k, v) ↔ k ∈ X) →
  length (filter P (range m)) = size (dom m ∩ X).
Proof.
  intros Hr HP.
  rewrite <- (length_fmap fst).
  rewrite <- (size_list_to_set (C := gset string)).
  - f_equal. apply set_eq. intros k.
    rewrite elem_of_list_to_set, list_elem_of_fmap, elem_of_intersection, elem_of_dom.
    split.
    + intros ([k' v] & -> & [HPk Hin%(range_lookup range _ _ _ Hr)]%list_elem_of_filter).
      simpl. split; [by eauto|]. by apply (HP k' v).
    + intros [[v Hv] HX]. exists (k, v). split; [done|].
      apply list_elem_of_filter. split; [by apply (HP k v)|].
      by apply (range_lookup range).
  - eapply sublist_NoDup; [by apply (range_keys_NoDup range m)|].
    apply fmap_sublist, sublist_filter.
Qed.

(** X5. The counts of the summary line: as many Added entries as keys of
    the current snapshot that the baseline lacks, as many Removed entries
    as keys of the baseline that the current snapshot lacks, and at most
    as many Modified entries as keys that both hold. *)
Theorem Compare_counts
    (range : gmap string ResourceInfo → list (string * ResourceInfo))
    (baseline current : Snapshot) :
  RangeOracle range →
  let d := Compare range baseline current in
  length (Added d) = size (dom (Resources current) ∖ dom (Resources baseline))
  ∧ length (Removed d) = size (dom (Resources baseline) ∖ dom (Resources current))
  ∧ length (Modified d) ≤ size (dom (Resources baseline) ∩ dom (Resources current)).
Proof.
  intros Hr d.
  destruct (Compare_lists range baseline current) as (Ha & Hrm & Hm).
  assert (Hdiff : ∀ X Y : gset string, X ∖ Y = X ∩ (X ∖ Y)).
  { intros X Y. apply set_eq. intros x.
    rewrite elem_of_intersection, !elem_of_difference. tauto. }
  split_and!.
  - subst d. rewrite Ha, omap_length_filter, Hdiff.
    apply filter_keys_size; [done|]. intros k v Hk. unfold addedAt. simpl.
    rewrite elem_of_difference, !elem_of_dom, Hk.
    destruct (Resources baseline !! k) eqn:Hb.
    + split; [by intros [? ?]|]. intros [_ Hn]. destruct Hn. eauto.
    + split; [|by eauto]. intros _. split; [by eauto|]. by intros [? ?].
  - subst d. rewrite Hrm, omap_length_filter, Hdiff.
    apply filter_keys_size; [done|]. intros k v Hk. unfold removedAt. simpl.
    rewrite elem_of_difference, !elem_of_dom, Hk.
    destruct (Resources current !! k) eqn:Hc.
    + split; [by intros [? ?]|]. intros [_ Hn]. destruct Hn. eauto.
    + split; [|by eauto]. intros _. split; [by eauto|]. by intros [? ?].
  - subst d. rewrite Hm, omap_length_filter.
    etrans; [|apply (subseteq_size (dom (Resources current) ∩ dom (Resources baseline)));
              intros x; rewrite !elem_of_intersection; tauto].
    rewrite <- (filter_keys_size range (λ kv, is_Some (Resources baseline !! kv.1))
                  (Resources current) (dom (Resources baseline)) Hr).
    + apply sublist_length, filter_sublist_impl.
      intros kv. unfold modifiedAt.
      destruct (Resources baseline !! kv.1); [by eauto|by intros [? ?]].
    + intros k v _. simpl. by rewrite elem_of_dom.
Qed.

(** *** On the scenario of the design document *)

Lemma Compare_IsEmpty_iff_witness :
  RangeOracle Scenario.range
  ∧ (IsEmpty (Compare Scenario.range Scenario.baseline Scenario.current) = true
     ↔ ∀ k, agreeAt Scenario.baseline Scenario.current k).
Proof.
  split; [apply DiffProps.scenario_range|].
  apply (Compare_IsEmpty_iff Scenario.range Scenario.baseline Scenario.current
           DiffProps.scenario_range).
Defined.

Lemma Compare_self_empty_witness :
  RangeOracle Scenario.range
  ∧ Compare Scenario.range Scenario.current Scenario.current = emptyResult.
Proof.
  split; [apply DiffProps.scenario_range|].
  apply (Compare_self_empty Scenario.range Scenario.current DiffProps.scenario_range).
Defined.

Lemma Compare_swap_witness :
  (RangeOracle Scenario.range ∧ RangeOracle Scenario.rangeBack)
  ∧ Resource <$> Added (Compare Scenario.range Scenario.baseline Scenario.current)
    ≡ₚ Resource <$> Removed (Compare Scenario.rangeBack Scenario.current Scenario.baseline)
  ∧ Resource <$> Removed (Compare Scenario.range Scenario.baseline Scenario.current)
    ≡ₚ Resource <$> Added (Compare Scenario.rangeBack Scenario.current Scenario.baseline)
  ∧ (modifiedDiff Scenario.deployment1 Scenario.deployment2
       ∈ Modified (Compare Scenario.range Scenario.baseline Scenario.current)
     ↔ modifiedDiff Scenario.deployment2 Scenario.deployment1
       ∈ Modified (Compare Scenario.rangeBack Scenario.current Scenario.baseline)).
Proof.
  split; [split; [apply DiffProps.scenario_range|apply DiffProps.scenario_rangeBack]|].
  destruct (Compare_swap Scenario.range Scenario.rangeBack Scenario.baseline
              Scenario.current DiffProps.scenario_range DiffProps.scenario_rangeBack)
    as (Ha & Hr & Hm).
  split_and!; [exact Ha|exact Hr|apply Hm].
Defined.

Lemma Compare_keys_NoDup_witness :
  (RangeOracle Scenario.range ∧ KeyedByIdentity Scenario.baseline
   ∧ KeyedByIdentity Scenario.current)
  ∧ let d := Compare Scenario.range Scenario.baseline Scenario.current in
    NoDup (entryKey <$> (Added d ++ Removed d ++ Modified d)).
Proof.
  split.
  - split_and!; [apply DiffProps.scenario_range|apply DiffProps.scenario_baseline_keyed
                 |apply DiffProps.scenario_current_keyed].
  - apply (Compare_keys_NoDup Scenario.range Scenario.baseline Scenario.current
             DiffProps.scenario_range DiffProps.scenario_baseline_keyed
             DiffProps.scenario_current_keyed).
Defined.

Lemma Compare_counts_witness :
  RangeOracle Scenario.range
  ∧ let d := Compare Scenario.range Scenario.baseline Scenario.current in
    length (Added d)
    = size (dom (Resources Scenario.current) ∖ dom (Resources Scenario.baseline))
    ∧ length (Removed d)
      = size (dom (Resources Scenario.baseline) ∖ dom (Resources Scenario.current))
    ∧ length (Modified d)
      ≤ size (dom (Resources Scenario.baseline) ∩ dom (Resources Scenario.current)).
Proof.
  split; [apply DiffProps.scenario_range|].
  apply (Compare_counts Scenario.range Scenario.baseline Scenario.current
           DiffProps.scenario_range).
Defined.

End DiffExtra.

(** ** More on discovery and capture *)

Module CaptureExtra.
Import Snap Capture CaptureSpec.

Section Generic.
Context `{RegexpLib}.
Variable range : gmap string (option string) → list (string * option string).
Variable json_error : Json.Value → string.
Variable yamlFromJSON : string → option string.
Variable NewClient : string → Result K8s.Client.

Abbreviation captureTypes := (captureTypes range json_error yamlFromJSON).
Abbreviation CaptureSnapshot :=
  (CaptureSnapshot range json_error yamlFromJSON NewClient).
Abbreviation captured := (captured range json_error yamlFromJSON).

(** *** Discovery *)

Lemma containsString_elem_of slice s : K8s.containsString slice s = true ↔ s ∈ slice.
Proof.
  induction slice as [|item rest IH]; simpl.
  - split; [done|]. by intros ?%elem_of_nil.
  - rewrite elem_of_cons. case_bool_decide; [by split; auto|].
    rewrite IH. split; [by auto|]. by intros [?|?].
Qed.

Lemma ShouldExclude_no_includes rf resourceType :
  Filter.IncludePatterns rf = [] →
  Filter.ShouldExclude rf resourceType = Ok (Filter.excludeMatchesb rf resourceType).
Proof.
  intros Hi. unfold Filter.ShouldExclude, Filter.excludeMatchesb. rewrite Hi.
  destruct (Filter.compiledFilter rf) as [c|]; [|done].
  by destruct (MatchString c resourceType).
Qed.

Lemma discoverList_filter rf gv acc rs :
  Filter.IncludePatterns rf = [] →
  K8s.discoverList (Some rf) gv acc rs
  = Ok (acc ++ filter (kept rf)
                 (typesOf {| K8s.GroupVersion := gv; K8s.APIResources := rs |})).
Proof.
  intros Hi. unfold typesOf. simpl. revert acc.
  induction rs as [|r rs IH]; intros acc; simpl.
  - by rewrite app_nil_r.
  - unfold K8s.discoverOne. rewrite filter_cons.
    destruct (K8s.containsString (K8s.Verbs r) "list") eqn:Hl; simpl.
    + apply containsString_elem_of in Hl.
      rewrite decide_True by done. csimpl. rewrite filter_cons.
      rewrite ShouldExclude_no_includes by done. simpl.
      case_decide as Hk; unfold kept in Hk.
      * rewrite Hk. simpl. rewrite IH. by rewrite <- app_assoc.
      * apply not_false_is_true in Hk. rewrite Hk. simpl. apply IH.
    + rewrite decide_False; [apply IH|].
      intros Hin%containsString_elem_of. congruence.
Qed.

Lemma discoverList_all gv acc rs :
  K8s.discoverList None gv acc rs
  = Ok (acc ++ typesOf {| K8s.GroupVersion := gv; K8s.APIResources := rs |}).
Proof.
  unfold typesOf. simpl. revert acc.
  induction rs as [|r rs IH]; intros acc; simpl.
  - by rewrite app_nil_r.
  - unfold K8s.discoverOne. rewrite filter_cons.
    destruct (K8s.containsString (K8s.Verbs r) "list") eqn:Hl; simpl.
    + apply containsString_elem_of in Hl.
      rewrite decide_True by done. csimpl. rewrite IH. by rewrite <- app_assoc.
    + rewrite decide_False; [apply IH|].
      intros Hin%containsString_elem_of. congruence.
Qed.

Lemma typesOf_eta resourceList :
  typesOf {| K8s.GroupVersion := K8s.GroupVersion resourceList;
             K8s.APIResources := K8s.APIResources resourceList |}
  = typesOf resourceList.
Proof. by destruct resourceList. Qed.

Lemma discoverAll_filter rf acc lists :
  Filter.IncludePatterns rf = [] →
  K8s.discoverAll (Some rf) acc lists
  = Ok (acc ++ filter (kept rf) (listableTypes lists)).
Proof.
  intros Hi. unfold listableTypes. revert acc.
  induction lists as [|rl lists IH]; intros acc; simpl.
  - by rewrite app_nil_r.
  - rewrite discoverList_filter by done. simpl. rewrite IH, typesOf_eta.
    csimpl. by rewrite filter_app, app_assoc.
Qed.

Lemma discoverAll_all acc lists :
  K8s.discoverAll None acc lists = Ok (acc ++ listableTypes lists).
Proof.
  unfold listableTypes. revert acc.
  induction lists as [|rl lists IH]; intros acc; simpl.
  - by rewrite app_nil_r.
  - rewrite discoverList_all. simpl. rewrite IH, typesOf_eta.
    csimpl. by rewrite app_assoc.
Qed.

Lemma DiscoverResources_discovered c rf :
  Filter.IncludePatterns rf = [] →
  (K8s.ServerGroupsAndResources c).2 ≠ Some K8s.DiscoveryFailed →
  K8s.DiscoverResources c (Some rf) = Ok (discovered c rf).
Proof.
  intros Hi He. unfold K8s.DiscoverResources, discovered.
  destruct (K8s.ServerGroupsAndResources c) as [lists [[]|]]; simpl in *;
    [|done|]; by rewrite discoverAll_filter.
Qed.

(** X6. Discovery with a filter that has no include pattern: unless the
    discovery client fails altogether, the result is the sequence of
    [groupVersion/Kind] labels of the resources that offer the verb
    [list], in the order of the answer, without those that the compiled
    exclude alternation matches.  A failure of some groups only is no
    error; without a filter every listable type is returned. *)
Theorem DiscoverResources_spec (c : K8s.Client) (rf : Filter.ResourceFilter) :
  Filter.IncludePatterns rf = [] →
  match (K8s.ServerGroupsAndResources c).2 with
  | Some K8s.DiscoveryFailed =>
      K8s.DiscoverResources c (Some rf) = Err "failed to discover API resources"
      ∧ K8s.DiscoverResources c None = Err "failed to discover API resources"
  | _ =>
      K8s.DiscoverResources c (Some rf)
      = Ok (filter (kept rf) (listableTypes (K8s.ServerGroupsAndResources c).1))
      ∧ K8s.DiscoverResources c None
        = Ok (listableTypes (K8s.ServerGroupsAndResources c).1)
  end.
Proof.
  intros Hi. unfold K8s.DiscoverResources.
  destruct (K8s.ServerGroupsAndResources c) as [lists [[]|]]; simpl;
    by rewrite ?discoverAll_filter, ?discoverAll_all.
Qed.

(** *** The outcome of a capture *)

Lemma captureFilter_includes ignoreKindRegex :
  Filter.IncludePatterns (captureFilter ignoreKindRegex) = [].
Proof. unfold captureFilter. by case_bool_decide. Qed.

Lemma captureFilter_excludes ignoreKindRegex :
  Filter.ExcludePatterns (captureFilter ignoreKindRegex) ≠ [].
Proof. unfold captureFilter. by case_bool_decide. Qed.

Lemma Compile_includes rf rf' :
  Filter.Compile rf = Ok rf' → Filter.IncludePatterns rf' = Filter.IncludePatterns rf.
Proof. by intros (? & _)%FilterProps.Compile_Ok. Qed.

Lemma Compile_captureFilter ignoreKindRegex :
  Filter.Compile (captureFilter ignoreKindRegex)
  = match regexp_Compile (Filter.excludeAlternation (captureFilter ignoreKindRegex)) with
    | Some _ => Ok (Filter.compiled (captureFilter ignoreKindRegex))
    | None => Err ("error parsing regexp: "
                   +:+ Filter.excludeAlternation (captureFilter ignoreKindRegex))
    end.
Proof.
  pose proof (captureFilter_excludes ignoreKindRegex) as Hex.
  unfold Filter.compiled, Filter.Compile.
  destruct (Filter.ExcludePatterns (captureFilter ignoreKindRegex)); [done|]. simpl.
  by destruct (regexp_Compile _).
Qed.

Lemma compiled_captureFilter_includes ignoreKindRegex :
  Filter.IncludePatterns (Filter.compiled (captureFilter ignoreKindRegex)) = [].
Proof.
  unfold Filter.compiled.
  destruct (Filter.Compile _) as [rf'| |] eqn:Hc; try apply captureFilter_includes.
  rewrite (Compile_includes _ _ Hc). apply captureFilter_includes.
Qed.

(** A capture that gets as far as discovery runs the loop over the
    discovered resource types. *)
Lemma CaptureSnapshot_unfold now namespace ignoreKindRegex kubeconfigPath :
  CaptureSnapshot now namespace ignoreKindRegex kubeconfigPath
  = match NewClient kubeconfigPath with
    | Err msg => Err ("failed to create Kubernetes client: " +:+ msg)
    | Panic msg => Panic msg
    | Ok client =>
        match regexp_Compile (Filter.excludeAlternation (captureFilter ignoreKindRegex)) with
        | None => Err ("failed to compile resource filter: " +:+ "error parsing regexp: "
                       +:+ Filter.excludeAlternation (captureFilter ignoreKindRegex))
        | Some _ =>
            match (K8s.ServerGroupsAndResources client).2 with
            | Some K8s.DiscoveryFailed =>
                Err ("failed to discover API resources: "
                     +:+ "failed to discover API resources")
            | _ =>
                match captureTypes client namespace ∅
                        (discovered client
                           (Filter.compiled (captureFilter ignoreKindRegex))) with
                | Ok resources =>
                    Ok {| Timestamp := now; SnapshotNamespace := namespace;
                          Resources := resources |}
                | Err msg => Err msg
                | Panic msg => Panic msg
                end
            end
        end
    end.
Proof.
  unfold Capture.CaptureSnapshot. destruct (NewClient kubeconfigPath) as [client| |]; [|done..].
  rewrite Compile_captureFilter. destruct (regexp_Compile _) as [re|]; [|done].
  unfold discovered, K8s.DiscoverResources.
  destruct (K8s.ServerGroupsAndResources client) as [lists [[]|]]; simpl; try done;
    rewrite discoverAll_filter by apply compiled_captureFilter_includes;
    reflexivity.
Qed.

(** The outcome of a capture that gets as far as listing. *)
Lemma CaptureSnapshot_listing now namespace ignoreKindRegex kubeconfigPath client :
  NewClient kubeconfigPath = Ok client →
  Filter.validPattern (Filter.excludeAlternation (captureFilter ignoreKindRegex)) →
  (K8s.ServerGroupsAndResources client).2 ≠ Some K8s.DiscoveryFailed →
  CaptureSnapshot now namespace ignoreKindRegex kubeconfigPath
  = match captureTypes client namespace ∅
            (discovered client (Filter.compiled (captureFilter ignoreKindRegex))) with
    | Ok resources =>
        Ok {| Timestamp := now; SnapshotNamespace := namespace; Resources := resources |}
    | Err msg => Err msg
    | Panic msg => Panic msg
    end.
Proof.
  intros Hc [re Hre] Hd. rewrite CaptureSnapshot_unfold, Hc.
  unfold Regexp in *. rewrite Hre.
  by destruct ((K8s.ServerGroupsAndResources client).2) as [[]|].
Qed.

(** A capture that returns got as far as listing. *)
Lemma CaptureSnapshot_not_Panic now namespace ignoreKindRegex kubeconfigPath :
  (∀ msg, CaptureSnapshot now namespace ignoreKindRegex kubeconfigPath ≠ Panic msg) →
  isPanic (CaptureSnapshot now namespace ignoreKindRegex kubeconfigPath) = false.
Proof. intros Hnp. destruct (Capture.CaptureSnapshot _ _ _ _ _ _ _ _) eqn:?; naive_solver. Qed.

Lemma CaptureSnapshot_captured now namespace ignoreKindRegex kubeconfigPath client :
  NewClient kubeconfigPath = Ok client →
  Filter.validPattern (Filter.excludeAlternation (captureFilter ignoreKindRegex)) →
  (K8s.ServerGroupsAndResources client).2 ≠ Some K8s.DiscoveryFailed →
  (∀ resourceType,
     resourceType ∈ discovered client (Filter.compiled (captureFilter ignoreKindRegex)) →
     isPanic (K8s.ListResources client resourceType namespace) = false) →
  CaptureSnapshot now namespace ignoreKindRegex kubeconfigPath
  = Ok (captured now namespace ignoreKindRegex client).
Proof.
  intros Hc Hv Hd Hnp. rewrite (CaptureSnapshot_listing _ _ _ _ client) by done.
  by rewrite CaptureProps.captureTypes_Ok.
Qed.

Lemma CaptureSnapshot_Ok now namespace ignoreKindRegex kubeconfigPath snapshot :
  CaptureSnapshot now namespace ignoreKindRegex kubeconfigPath = Ok snapshot →
  ∃ client,
    NewClient kubeconfigPath = Ok client
    ∧ Filter.validPattern (Filter.excludeAlternation (captureFilter ignoreKindRegex))
    ∧ (K8s.ServerGroupsAndResources client).2 ≠ Some K8s.DiscoveryFailed
    ∧ (∀ resourceType,
         resourceType ∈ discovered client (Filter.compiled (captureFilter ignoreKindRegex)) →
         isPanic (K8s.ListResources client resourceType namespace) = false)
    ∧ snapshot = captured now namespace ignoreKindRegex client.
Proof.
  rewrite CaptureSnapshot_unfold.
  destruct (NewClient kubeconfigPath) as [client|msg|msg]; [|done..].
  destruct (regexp_Compile _) as [re|] eqn:Hre; [|done].
  intros Hs. exists client.
  assert (Hd : (K8s.ServerGroupsAndResources client).2 ≠ Some K8s.DiscoveryFailed).
  { intros Hd. by rewrite Hd in Hs. }
  assert (Hl : match captureTypes client namespace ∅
                       (discovered client (Filter.compiled (captureFilter ignoreKindRegex)))
               with
               | Ok resources =>
                   Ok {| Timestamp := now; SnapshotNamespace := namespace;
                         Resources := resources |}
               | Err msg => Err msg
               | Panic msg => Panic msg
               end = Ok snapshot).
  { by destruct ((K8s.ServerGroupsAndResources client).2) as [[]|]. }
  clear Hs.
  pose proof (CaptureProps.captureTypes_spec range json_error yamlFromJSON client namespace
                (discovered client (Filter.compiled (captureFilter ignoreKindRegex))) ∅)
    as Hspec.
  destruct (Capture.captureTypes _ _ _ _ _ _ _) as [resources| |]; [|done..].
  destruct Hspec as [-> Hnp]. injection Hl as <-.
  split_and!; [done|by exists re|done..].
Qed.


(** X7. The outcome of a capture.  It returns a snapshot exactly when
    the client is built, the alternation of the exclude patterns is a
    regular expression, the discovery client does not fail altogether
    and no listing of a discovered resource type panics.  It panics
    exactly when building the client panics, or the capture gets as far
    as listing and the listing of a discovered type panics.  A resource
    type whose listing returns an error, and a resource that cannot be
    hashed or printed, never fail it. *)
Theorem CaptureSnapshot_outcome
    (now : Time) (namespace ignoreKindRegex kubeconfigPath : string) :
  (isOk (CaptureSnapshot now namespace ignoreKindRegex kubeconfigPath) = true ↔
     ∃ client,
       NewClient kubeconfigPath = Ok client
       ∧ Filter.validPattern (Filter.excludeAlternation (captureFilter ignoreKindRegex))
       ∧ (K8s.ServerGroupsAndResources client).2 ≠ Some K8s.DiscoveryFailed
       ∧ ∀ resourceType,
           resourceType
             ∈ discovered client (Filter.compiled (captureFilter ignoreKindRegex)) →
           isPanic (K8s.ListResources client resourceType namespace) = false)
  ∧ (isPanic (CaptureSnapshot now namespace ignoreKindRegex kubeconfigPath) = true ↔
     isPanic (NewClient kubeconfigPath) = true
     ∨ ∃ client,
         NewClient kubeconfigPath = Ok client
         ∧ Filter.validPattern (Filter.excludeAlternation (captureFilter ignoreKindRegex))
         ∧ (K8s.ServerGroupsAndResources client).2 ≠ Some K8s.DiscoveryFailed
         ∧ ∃ resourceType,
             resourceType
               ∈ discovered client (Filter.compiled (captureFilter ignoreKindRegex))
             ∧ isPanic (K8s.ListResources client resourceType namespace) = true).
Proof.
  split.
  - split.
    + destruct (Capture.CaptureSnapshot _ _ _ _ _ _ _ _) as [snapshot| |] eqn:Hs; [|done..].
      intros _. apply CaptureSnapshot_Ok in Hs as (client & ? & ? & ? & ? & _).
      exists client. by split_and!.
    + intros (client & Hc & Hv & Hd & Hnp).
      by rewrite (CaptureSnapshot_captured _ _ _ _ client).
  - rewrite CaptureSnapshot_unfold. unfold Filter.validPattern.
    destruct (NewClient kubeconfigPath) as [client|msg|msg] eqn:Hc; simpl.
    + destruct (regexp_Compile _) as [re|] eqn:Hre.
      * pose proof (CaptureProps.captureTypes_spec range json_error yamlFromJSON client
                      namespace
                      (discovered client (Filter.compiled (captureFilter ignoreKindRegex)))
                      ∅) as Hspec.
        assert (Hloop : isPanic (captureTypes client namespace ∅
                           (discovered client
                              (Filter.compiled (captureFilter ignoreKindRegex)))) = true ↔
                  ∃ resourceType,
                    resourceType
                      ∈ discovered client (Filter.compiled (captureFilter ignoreKindRegex))
                    ∧ isPanic (K8s.ListResources client resourceType namespace) = true).
        { destruct (Capture.captureTypes _ _ _ _ _ _ _) as [resources| |]; [|done|].
          - destruct Hspec as [_ Hnp]. split; [done|].
            intros (rt & Hin & Hp). by rewrite (Hnp rt Hin) in Hp.
          - destruct Hspec as (rt & Hin & Hp). split; [|done].
            intros _. exists rt. by rewrite Hp. }
        clear Hspec.
        destruct ((K8s.ServerGroupsAndResources client).2) as [[]|] eqn:Hd.
        -- split.
           ++ intros Hp. right. exists client. split_and!; [done|by exists re|by rewrite Hd|].
              apply Hloop. by destruct (Capture.captureTypes _ _ _ _ _ _ _).
           ++ intros [?|(c' & [= <-] & _ & _ & Hrt)]; [done|].
              apply Hloop in Hrt. by destruct (Capture.captureTypes _ _ _ _ _ _ _).
        -- split; [done|]. intros [?|(c' & [= <-] & _ & Hne & _)]; [done|].
           by rewrite Hd in Hne.
        -- split.
           ++ intros Hp. right. exists client. split_and!; [done|by exists re|by rewrite Hd|].
              apply Hloop. by destruct (Capture.captureTypes _ _ _ _ _ _ _).
           ++ intros [?|(c' & [= <-] & _ & _ & Hrt)]; [done|].
              apply Hloop in Hrt. by destruct (Capture.captureTypes _ _ _ _ _ _ _).
      * split; [done|]. intros [?|(c' & _ & [re Hre'] & _)]; [done|].
        unfold Regexp in *. congruence.
    + split; [done|]. by intros [?|(? & ? & _)].
    + split; [by left|done].
Qed.

(** *** What a snapshot holds *)

(** X8. What a snapshot holds: the time and the namespace of the
    capture, and under a key [apiVersion/kind|namespace|name] the record
    of the last resource with that key among those listed for the
    discovered types, and nothing under any other key.  The record has
    the identity, the resourceVersion and the creation time of the
    resource; its specHash is the hash of the spec payload, or the
    resourceVersion when there is no payload or hashing fails; its
    manifest is the YAML form of the JSON text of the resource, or
    empty when either conversion fails. *)
Theorem CaptureSnapshot_records
    (now : Time) (namespace ignoreKindRegex kubeconfigPath : string)
    (snapshot : Snapshot) :
  CaptureSnapshot now namespace ignoreKindRegex kubeconfigPath = Ok snapshot →
  ∃ client,
    NewClient kubeconfigPath = Ok client
    ∧ Timestamp snapshot = now
    ∧ SnapshotNamespace snapshot = namespace
    ∧ ∀ key info,
        Resources snapshot !! key = Some info ↔
        ∃ earlier resource later,
          listedResources client namespace
            (discovered client (Filter.compiled (captureFilter ignoreKindRegex)))
          = earlier ++ resource :: later
          ∧ keyOf resource = key
          ∧ (∀ other, other ∈ later → keyOf other ≠ key)
          ∧ describes info resource
          ∧ SpecHash info
            = match K8s.Spec resource with
              | Some spec =>
                  match K8s.CalculateSpecHash range json_error (Json.VMap spec) with
                  | Ok hash => hash
                  | _ => K8s.ResourceVersion (K8s.Meta resource)
                  end
              | None => K8s.ResourceVersion (K8s.Meta resource)
              end
          ∧ Manifest info
            = match K8s.marshalResource range resource with
              | Some data => default "" (yamlFromJSON data)
              | None => ""
              end.
Proof.
  intros (client & Hc & _ & _ & _ & ->)%CaptureSnapshot_Ok.
  exists client. split_and!; [done..|]. intros key info. cbn [Resources CaptureSpec.captured].
  set (listed := listedResources client namespace _).
  split.
  - intros Hl.
    destruct (CaptureProps.last_with_key listed key)
      as [Hnone|(earlier & resource & later & Heq & Hk & Hlater)].
    + by rewrite CaptureProps.lookup_foldl_addResource_other in Hl.
    + exists earlier, resource, later. split_and!; [done..| | |].
      all: rewrite Heq, <- Hk in Hl;
        rewrite CaptureProps.lookup_foldl_addResource_last in Hl
          by (intros other Ho; rewrite Hk; by apply Hlater);
        injection Hl as <-.
      * apply CaptureProps.captureResource_describes.
      * reflexivity.
      * cbn. destruct (K8s.marshalResource range resource) as [data|]; [|done].
        by destruct (yamlFromJSON data).
  - intros (earlier & resource & later & Heq & Hk & Hlater & Hd & Hh & Hm).
    rewrite Heq, <- Hk.
    rewrite CaptureProps.lookup_foldl_addResource_last
      by (intros other Ho; rewrite Hk; by apply Hlater).
    f_equal. destruct info as [gvk ns name uid rv ct hash manifest].
    destruct Hd as (Hgvk & Hns & Hname & Huid & Hrv & Hct). simpl in *. subst.
    reflexivity.
Qed.

(** X9. Two captures of a cluster that answers the same both times
    differ in their timestamps only: each has the time of its capture,
    the namespace and the records are the same, and their diff is
    empty. *)
Theorem unchanged_cluster_empty_diff
    (rangeR : gmap string ResourceInfo → list (string * ResourceInfo))
    (now1 now2 : Time) (namespace ignoreKindRegex kubeconfigPath : string)
    (b c : Snapshot) :
  RangeOracle rangeR →
  CaptureSnapshot now1 namespace ignoreKindRegex kubeconfigPath = Ok b →
  CaptureSnapshot now2 namespace ignoreKindRegex kubeconfigPath = Ok c →
  Timestamp b = now1 ∧ Timestamp c = now2
  ∧ SnapshotNamespace b = SnapshotNamespace c
  ∧ Resources b = Resources c
  ∧ Diff.Compare rangeR b c = DiffSpec.emptyResult.
Proof.
  intros Hr (client & Hc & _ & _ & _ & ->)%CaptureSnapshot_Ok
    (client' & Hc' & _ & _ & _ & ->)%CaptureSnapshot_Ok.
  rewrite Hc in Hc'. injection Hc' as <-.
  split_and!; [done..|].
  set (b := captured now1 namespace ignoreKindRegex client).
  set (c := captured now2 namespace ignoreKindRegex client).
  assert (Hres : Resources b = Resources c) by done.
  assert (Hnil : Diff.Added (Diff.Compare rangeR b c) = []
                 ∧ Diff.Removed (Diff.Compare rangeR b c) = []
                 ∧ Diff.Modified (Diff.Compare rangeR b c) = []).
  { apply (DiffExtra.Compare_nil_iff rangeR b c Hr). intros k. unfold DiffSpec.agreeAt.
    rewrite Hres. by destruct (Resources c !! k). }
  destruct (Diff.Compare rangeR b c) as [a r m]. simpl in Hnil.
  by destruct Hnil as (-> & -> & ->).
Qed.

End Generic.

(** *** On the example cluster *)

Lemma example_capture now :
  Capture.CaptureSnapshot SpecExample.forward SpecExample.json_error
    ClusterExample.yamlFromJSON ClusterExample.NewClient now "myapp" "" ""
  = Ok (CaptureSpec.captured SpecExample.forward SpecExample.json_error
          ClusterExample.yamlFromJSON now "myapp" "" ClusterExample.client).
Proof.
  apply CaptureSnapshot_captured.
  - reflexivity.
  - apply FilterProps.validPatternb_spec. vm_compute. reflexivity.
  - discriminate.
  - intros resourceType _. apply CaptureProps.example_listings.
Qed.

Lemma DiscoverResources_spec_witness :
  Filter.IncludePatterns ClusterExample.resourceFilter = []
  ∧ K8s.DiscoverResources ClusterExample.client (Some ClusterExample.resourceFilter)
    = Ok (filter (kept ClusterExample.resourceFilter)
            (listableTypes (K8s.ServerGroupsAndResources ClusterExample.client).1))
  ∧ K8s.DiscoverResources ClusterExample.client None
    = Ok (listableTypes (K8s.ServerGroupsAndResources ClusterExample.client).1).
Proof.
  split; [apply compiled_captureFilter_includes|].
  exact (DiscoverResources_spec ClusterExample.client ClusterExample.resourceFilter
           (compiled_captureFilter_includes "")).
Defined.

(** A client whose listing of Secrets panics: the capture panics. *)
Example capture_panics :
  isPanic (Capture.CaptureSnapshot SpecExample.forward SpecExample.json_error
             ClusterExample.yamlFromJSON (λ _, Ok ClusterExample.panicking)
             ClusterExample.now "myapp" "" "") = true.
Proof. vm_compute. reflexivity. Qed.

Lemma CaptureSnapshot_records_witness :
  Capture.CaptureSnapshot SpecExample.forward SpecExample.json_error
    ClusterExample.yamlFromJSON ClusterExample.NewClient ClusterExample.now "myapp" "" ""
  = Ok ClusterExample.snapshot
  ∧ ∃ client,
      ClusterExample.NewClient "" = Ok client
      ∧ Timestamp ClusterExample.snapshot = ClusterExample.now
      ∧ SnapshotNamespace ClusterExample.snapshot = "myapp"
      ∧ ∀ key info,
          Resources ClusterExample.snapshot !! key = Some info ↔
          ∃ earlier resource later,
            listedResources client "myapp"
              (discovered client (Filter.compiled (captureFilter "")))
            = earlier ++ resource :: later
            ∧ keyOf resource = key
            ∧ (∀ other, other ∈ later → keyOf other ≠ key)
            ∧ describes info resource
            ∧ SpecHash info
              = match K8s.Spec resource with
                | Some spec =>
                    match K8s.CalculateSpecHash SpecExample.forward SpecExample.json_error
                            (Json.VMap spec) with
                    | Ok hash => hash
                    | _ => K8s.ResourceVersion (K8s.Meta resource)
                    end
                | None => K8s.ResourceVersion (K8s.Meta resource)
                end
            ∧ Manifest info
              = match K8s.marshalResource SpecExample.forward resource with
                | Some data => default "" (ClusterExample.yamlFromJSON data)
                | None => ""
                end.
Proof.
  split; [apply example_capture|].
  exact (CaptureSnapshot_records SpecExample.forward SpecExample.json_error
           ClusterExample.yamlFromJSON ClusterExample.NewClient ClusterExample.now
           "myapp" "" "" ClusterExample.snapshot (example_capture ClusterExample.now)).
Defined.

Lemma unchanged_cluster_empty_diff_witness :
  (RangeOracle Scenario.range
   ∧ Capture.CaptureSnapshot SpecExample.forward SpecExample.json_error
       ClusterExample.yamlFromJSON ClusterExample.NewClient ClusterExample.now
       "myapp" "" ""
     = Ok ClusterExample.snapshot
   ∧ Capture.CaptureSnapshot SpecExample.forward SpecExample.json_error
       ClusterExample.yamlFromJSON ClusterExample.NewClient ClusterExample.later
       "myapp" "" ""
     = Ok ClusterExample.snapshotLater)
  ∧ Timestamp ClusterExample.snapshot = ClusterExample.now
  ∧ Timestamp ClusterExample.snapshotLater = ClusterExample.later
  ∧ SnapshotNamespace ClusterExample.snapshot
    = SnapshotNamespace ClusterExample.snapshotLater
  ∧ Resources ClusterExample.snapshot = Resources ClusterExample.snapshotLater
  ∧ Diff.Compare Scenario.range ClusterExample.snapshot ClusterExample.snapshotLater
    = DiffSpec.emptyResult.
Proof.
  split; [split_and!; [apply DiffProps.scenario_range|apply example_capture..]|].
  exact (unchanged_cluster_empty_diff SpecExample.forward SpecExample.json_error
           ClusterExample.yamlFromJSON ClusterExample.NewClient Scenario.range
           ClusterExample.now ClusterExample.later "myapp" "" "" ClusterExample.snapshot
           ClusterExample.snapshotLater DiffProps.scenario_range
           (example_capture ClusterExample.now) (example_capture ClusterExample.later)).
Defined.

Lemma CaptureSnapshot_keyed_witness :
  Capture.CaptureSnapshot SpecExample.forward SpecExample.json_error
    ClusterExample.yamlFromJSON ClusterExample.NewClient ClusterExample.now "myapp" "" ""
  = Ok ClusterExample.snapshot
  ∧ KeyedByIdentity ClusterExample.snapshot.
Proof.
  split; [apply example_capture|].
  exact (CaptureProps.CaptureSnapshot_keyed SpecExample.forward SpecExample.json_error
           ClusterExample.yamlFromJSON ClusterExample.NewClient ClusterExample.now
           "myapp" "" "" ClusterExample.snapshot (example_capture ClusterExample.now)).
Defined.

End CaptureExtra.

(** ** More on spec hashes *)

Module HashExtra.
Import Json JsonSpec.

(** *** Which values are serialised *)

Lemma map_fold_andb {A} (f : A → bool) (m : gmap string A) :
  map_fold (λ _ v acc, f v && acc) true m = true ↔ map_Forall (λ _ v, f v = true) m.
Proof.
  apply (map_fold_weak_ind
           (λ r (m : gmap string A), r = true ↔ map_Forall (λ _ v, f v = true) m)).
  - split; [|done]. intros _. apply map_Forall_empty.
  - intros k v m' r Hk IH. rewrite andb_true_iff, IH, map_Forall_insert by done. tauto.
Qed.

Lemma forallb_Forall {A} (f : A → bool) (l : list A) :
  forallb f l = true ↔ Forall (λ v, f v = true) l.
Proof.
  induction l as [|x l IH]; simpl; [by split|].
  rewrite andb_true_iff, IH, Forall_cons. tauto.
Qed.

Lemma mapM_member_is_Some (entries : list (string * option string)) :
  is_Some (mapM member entries) ↔ Forall (λ kv, is_Some kv.2) entries.
Proof.
  rewrite mapM_is_Some. apply Forall_proper; [|done]. intros [k [text|]]; unfold member; simpl.
  - split; by eauto.
  - split; by intros [? ?].
Qed.

Lemma Marshal_is_Some range v :
  RangeOracle range → is_Some (Marshal range v) ↔ supported v = true.
Proof.
  intros Hr. induction v as [| | | |l IH|m IH|] using JsonProps.Value_nested_ind; simpl;
    try (split; by eauto).
  - rewrite forallb_Forall.
    assert (is_Some (mapM (Marshal range) l) ↔ Forall (λ v, supported v = true) l) as <-.
    { rewrite mapM_is_Some. split; intros Hall; apply Forall_forall; intros v Hv.
      - apply (proj1 (Forall_forall _ _) IH v Hv), (proj1 (Forall_forall _ _) Hall v Hv).
      - apply (proj1 (Forall_forall _ _) IH v Hv), (proj1 (Forall_forall _ _) Hall v Hv). }
    destruct (mapM (Marshal range) l); split; by eauto || intros [? ?].
  - rewrite map_fold_andb.
    assert (is_Some (mapM member (sortByKey (range (Marshal range <$> m))))
            ↔ map_Forall (λ _ v, supported v = true) m) as <-.
    { rewrite mapM_member_is_Some. unfold sortByKey.
      rewrite merge_sort_Permutation, (Hr _), Forall_forall. split.
      - intros Hall k v Hk. apply (IH k v Hk).
        apply (Hall (k, Marshal range v)). apply elem_of_map_to_list.
        by rewrite lookup_fmap, Hk.
      - intros Hall [k o] Hin%elem_of_map_to_list. simpl.
        rewrite lookup_fmap in Hin. destruct (m !! k) as [v|] eqn:Hk; [|done].
        injection Hin as <-. apply (IH k v Hk), (Hall k v Hk). }
    destruct (mapM member _); split; by eauto || intros [? ?].
Qed.

(** *** The prefix hash of package k8s *)

Lemma length_append s t : String.length (s +:+ t) = String.length s + String.length t.
Proof. induction s as [|c s IH]; simpl; [done|]. by rewrite IH. Qed.

Lemma length_substring_0 n s :
  n ≤ String.length s → String.length (substring 0 n s) = n.
Proof.
  revert s. induction n as [|n IH]; intros [|c s]; simpl; try done; try lia.
  intros Hn. rewrite IH; lia.
Qed.

Lemma substring_0_prefix n s :
  n ≤ String.length s → ∃ rest, s = substring 0 n s +:+ rest.
Proof.
  revert s. induction n as [|n IH]; intros [|c s]; simpl; intros Hn; try lia.
  - by exists "".
  - by exists (String c s).
  - destruct (IH s) as [rest Hrest]; [lia|]. exists rest.
    change (String c s = String c (substring 0 n s +:+ rest)). by f_equal.
Qed.

(** X11. The hash that a capture stores, of a spec with the JSON text
    [data]: the text itself when it has at most 20 bytes, else its first
    20 bytes followed by three dots, 23 bytes in all.  Two specs whose
    JSON texts are longer than 20 bytes and start with the same 20 bytes
    have the same hash. *)
Theorem CalculateSpecHash_prefix
    (range : gmap string (option string) → list (string * option string))
    (json_error : Value → string) (spec : Value) (hash : string) :
  K8s.CalculateSpecHash range json_error spec = Ok hash →
  ∃ data,
    Marshal range spec = Some data
    ∧ (String.length data ≤ 20 → hash = data)
    ∧ (20 < String.length data →
       String.length hash = 23
       ∧ ∃ prefix rest,
           data = prefix +:+ rest ∧ String.length prefix = 20
           ∧ hash = prefix +:+ "...")
    ∧ ∀ spec' data',
        Marshal range spec' = Some data' →
        20 < String.length data → 20 < String.length data' →
        substring 0 20 data = substring 0 20 data' →
        K8s.CalculateSpecHash range json_error spec' = Ok hash.
Proof.
  unfold K8s.CalculateSpecHash. destruct (Marshal range spec) as [data|]; [|done].
  intros Hh. exists data. split; [done|].
  destruct (20 <? String.length data) eqn:Hlen.
  - apply Nat.ltb_lt in Hlen. injection Hh as <-.
    assert (Hl : String.length (substring 0 20 data +:+ "...") = 23).
    { rewrite length_append, length_substring_0 by lia. done. }
    split_and!; [lia| |].
    + intros _. split; [done|].
      destruct (substring_0_prefix 20 data) as [rest Hrest]; [lia|].
      exists (substring 0 20 data), rest. split_and!; [done| |done].
      apply length_substring_0. lia.
    + intros spec' data' -> _ Hlen'%Nat.ltb_lt Hpre.
      by rewrite Hlen', Hpre.
  - apply Nat.ltb_ge in Hlen. injection Hh as <-. split_and!; [done|lia|].
    intros spec' data' _ Hlen0. lia.
Qed.

(** *** The MD5 hash of package snapshot *)

Lemma length_leBytes n x : length (MD5.leBytes n x) = n.
Proof. revert x. induction n as [|n IH]; intros x; simpl; [done|]. by rewrite IH. Qed.

Lemma leBytes_byte n x : Forall (λ b, 0 ≤ b < 256)%Z (MD5.leBytes n x).
Proof.
  revert x. induction n as [|n IH]; intros x; simpl; constructor; [|apply IH].
  apply Z.mod_pos_bound. lia.
Qed.

Lemma Sum_bytes data :
  length (MD5.Sum data) = 16 ∧ Forall (λ b, 0 ≤ b < 256)%Z (MD5.Sum data).
Proof.
  unfold MD5.Sum. destruct (MD5.blocks _ _ _) as [[[a b] c] d].
  split.
  - by rewrite !length_app, !length_leBytes.
  - rewrite !Forall_app. split_and!; apply leBytes_byte.
Qed.

Lemma hexDigit_isLowerHex n : (n < 16)%N → isLowerHex (hexDigit n) = true.
Proof.
  intros Hn. unfold isLowerHex, hexDigit.
  destruct (n <? 10)%N eqn:Hlt.
  - apply N.ltb_lt in Hlt. rewrite N_ascii_embedding by lia.
    apply orb_true_iff. left. apply andb_true_iff. split; apply N.leb_le; lia.
  - apply N.ltb_ge in Hlt. rewrite N_ascii_embedding by lia.
    apply orb_true_iff. right. apply andb_true_iff. split; apply N.leb_le; lia.
Qed.

Lemma hex_EncodeToString_spec bytes :
  Forall (λ b, 0 ≤ b < 256)%Z bytes →
  String.length (MD5.hex_EncodeToString bytes) = 2 * length bytes
  ∧ Forall (λ c, isLowerHex c = true) (list_ascii_of_string (MD5.hex_EncodeToString bytes)).
Proof.
  induction 1 as [|b bytes Hb _ [IHl IHf]]; simpl; [by split|].
  split; [lia|]. repeat constructor; [apply hexDigit_isLowerHex..|done].
  - apply N2Z.inj_lt. rewrite Z2N.id by (apply Z.div_pos; lia).
    apply Z.div_lt_upper_bound; lia.
  - apply N2Z.inj_lt. rewrite Z2N.id by (apply Z.mod_pos_bound; lia).
    apply Z.mod_pos_bound. lia.
Qed.

(** X12. The MD5 hash of package snapshot is a string of 32 digits out
    of [0-9a-f], whatever the spec. *)
Theorem CalculateSpecHash_md5_hex
    (range : gmap string (option string) → list (string * option string))
    (json_error : Value → string) (spec : Value) (hash : string) :
  Capture.CalculateSpecHash range json_error spec = Ok hash →
  String.length hash = 32
  ∧ Forall (λ c, isLowerHex c = true) (list_ascii_of_string hash).
Proof.
  unfold Capture.CalculateSpecHash. destruct (Marshal range spec) as [data|]; [|done].
  intros [= <-]. destruct (Sum_bytes data) as [Hlen Hbytes].
  destruct (hex_EncodeToString_spec _ Hbytes) as [Hl Hf]. rewrite Hlen in Hl.
  by split.
Qed.

(** *** On the example payload *)

Lemma CalculateSpecHash_prefix_witness :
  let hash := "{" +:+ quote "paused" +:+ ":false," +:+ String dquote "rep" +:+ "..." in
  K8s.CalculateSpecHash SpecExample.forward SpecExample.json_error SpecExample.spec
  = Ok hash
  ∧ ∃ data,
      Marshal SpecExample.forward SpecExample.spec = Some data
      ∧ (String.length data ≤ 20 → hash = data)
      ∧ (20 < String.length data →
         String.length hash = 23
         ∧ ∃ prefix rest,
             data = prefix +:+ rest ∧ String.length prefix = 20
             ∧ hash = prefix +:+ "...")
      ∧ ∀ spec' data',
          Marshal SpecExample.forward spec' = Some data' →
          20 < String.length data → 20 < String.length data' →
          substring 0 20 data = substring 0 20 data' →
          K8s.CalculateSpecHash SpecExample.forward SpecExample.json_error spec'
          = Ok hash.
Proof.
  intros hash.
  assert (Hh : K8s.CalculateSpecHash SpecExample.forward SpecExample.json_error
                 SpecExample.spec = Ok hash)
    by (vm_compute; reflexivity).
  split; [exact Hh|].
  exact (CalculateSpecHash_prefix SpecExample.forward SpecExample.json_error
           SpecExample.spec hash Hh).
Defined.

Lemma CalculateSpecHash_md5_hex_witness :
  let hash := "c73a67b47eb7e030a7ca1de8535fac6a" in
  Capture.CalculateSpecHash SpecExample.forward SpecExample.json_error
    (VMap {[ "replicas" := VInt 3 ]}) = Ok hash
  ∧ String.length hash = 32
  ∧ Forall (λ c, isLowerHex c = true) (list_ascii_of_string hash).
Proof.
  intros hash.
  assert (Hh : Capture.CalculateSpecHash SpecExample.forward SpecExample.json_error
                 (VMap {[ "replicas" := VInt 3 ]}) = Ok hash)
    by (vm_compute; reflexivity).
  split; [exact Hh|].
  exact (CalculateSpecHash_md5_hex SpecExample.forward SpecExample.json_error _ hash Hh).
Defined.

End HashExtra.

(** ** The runtime never meets a nil pointer *)

Module RuntimeProps.
Import Snap Diff Tui TuiCmd Runtime.

(** *** Entries of a diff *)




(** *** Models with the same state and pointers *)



(** *** At most one capture *)







#[local] Arguments scrollKeys : simpl never.

Section Generic.
Variable range : gmap string ResourceInfo → list (string * ResourceInfo).
Variable clipboard_WriteAll : string → option string.
Variable now : Time.

Abbreviation updateKey := (updateKey clipboard_WriteAll now).
Abbreviation Update := (Update range clipboard_WriteAll now).



Lemma updateWindowSize_core m w h :
  sameCore m (updateWindowSize m w h).1 ∧ (updateWindowSize m w h).2 = [viewport_Cmd].
Proof.
  unfold updateWindowSize, sameCore. simpl. repeat case_match; simpl; auto 10.
Qed.





(** *** Commands that finish *)

Variable generateYAMLDiff : string → string → string.
Variable OutputJSON : option DiffResult → string.
Variable OutputYAML : option DiffResult → string.
Variable World : Type.
Variable CaptureSnapshot : World → string → string → string → Result Snapshot.
Hypothesis CaptureSnapshot_returns :
  ∀ world namespace ignoreKindRegex kubeconfigPath msg,
    CaptureSnapshot world namespace ignoreKindRegex kubeconfigPath ≠ Panic msg.

Abbreviation runCmd world :=
  (runCmd generateYAMLDiff OutputJSON OutputYAML (CaptureSnapshot world)).
Abbreviation step :=
  (step range clipboard_WriteAll now generateYAMLDiff OutputJSON OutputYAML
     World CaptureSnapshot).
Abbreviation run :=
  (run range clipboard_WriteAll now generateYAMLDiff OutputJSON OutputYAML
     World CaptureSnapshot).




(** *** The invariant of the loop *)







End Generic.

(** *** The state machine *)

Section Diagram.
Variable range : gmap string ResourceInfo → list (string * ResourceInfo).
Variable clipboard_WriteAll : string → option string.
Variable now : Time.

Abbreviation updateKey := (updateKey clipboard_WriteAll now).
Abbreviation Update := (Update range clipboard_WriteAll now).

Lemma scrollKeys_state m cmds k :
  state (scrollKeys m cmds k).1 = state m
  ∧ config (scrollKeys m cmds k).1 = config m
  ∧ ((state m = stateShowingDiff → existsb isCapture cmds = false) →
     existsb isCapture (scrollKeys m cmds k).2 = existsb isCapture cmds)
  ∧ (scrollKeys m cmds k).2 ⊆ cmds.
Proof.
  unfold scrollKeys, config. repeat case_match; simpl; split_and!; try done;
    try (by apply list_subseteq_nil); intros Hc; symmetry; by apply Hc.
Qed.

Lemma updateKey_diagram m k :
  state (updateKey m k).1 ∈ successors (KeyMsg k) (state m)
  ∧ existsb isCapture (updateKey m k).2
    = negb (isCapturing (state m)) && isCapturing (state (updateKey m k).1).
Proof.
  unfold Tui.updateKey, toggleView, setFilter, showStatus.
  destruct (state m) eqn:Hs; simpl.
  all: repeat case_match.
  all: try (exfalso;
            repeat match goal with
                   | H : _ && _ = true |- _ => apply andb_true_iff in H as [? ?]
                   end;
            repeat match goal with
                   | H : bool_decide _ = true |- _ => apply bool_decide_eq_true in H
                   end;
            congruence).
  all: try match goal with
       | |- context [scrollKeys ?m' ?cmds ?k'] =>
           let H1 := fresh in let H2 := fresh in
           destruct (scrollKeys_state m' cmds k') as (H1 & _ & H2 & _);
           rewrite H1, H2 by (simpl; rewrite ?Hs; done)
       end.
  all: simpl; rewrite ?Hs; simpl.
  all: split; [repeat first [by left|right]|done].
Qed.

(** X14. The state machine of [Update]: the states that a message can
    lead to, whatever the key bindings.  No key leaves a capturing state
    or the error state; the two messages that end a capture lead to the
    next state, or to the error state; every other message keeps the
    state.  A capture command is in the batch exactly when the message
    leads from a state that is not capturing into one that is. *)
Theorem Update_state_diagram (m : Model) (msg : Msg) (m' : Model) (cmds : list Cmd) :
  Update m msg = Ok (m', cmds) →
  state m' ∈ successors msg (state m)
  ∧ existsb isCapture cmds = negb (isCapturing (state m)) && isCapturing (state m').
Proof.
  destruct msg; cbn [Tui.Update].
  - intros [= Hu]. pose proof (updateKey_diagram m k) as Hd. by rewrite Hu in Hd.
  - destruct (updateWindowSize_core m w h) as [(Hs & _) Hc].
    destruct (updateWindowSize m w h) as [m1 c1]. intros [= <- <-].
    simpl in Hs, Hc. subst c1. rewrite Hs.
    split; [by left|by destruct (state m)].
  - case_match; intros [= <- <-]; simpl; (split; [by left|by destruct (state m)]).
  - destruct err; intros [= <- <-]; simpl; (split; [by left|by destruct (state m)]).
  - destruct err; [intros [= <- <-]; simpl; split; [by left|by destruct (state m)]|].
    repeat case_match; try done. intros [= <- <-]. simpl.
    split; [by left|by destruct (state m)].
  - case_match; intros [= <- <-]; simpl; (split; [by left|by destruct (state m)]).
  - intros [= <- <-]; simpl; (split; [by left|by destruct (state m)]).
  - intros [= <- <-]; simpl; (split; [by left|by destruct (state m)]).
  - intros [= <- <-]; simpl; (split; [by left|by destruct (state m)]).
  - intros [= <- <-]; simpl; (split; [by left|by destruct (state m)]).
Qed.

(** *** The configuration of a run *)





End Diagram.

Section Configuration.
Context `{RegexpLib}.
Variable range : gmap string ResourceInfo → list (string * ResourceInfo).
Variable clipboard_WriteAll : string → option string.
Variable now : Time.
Variable generateYAMLDiff : string → string → string.
Variable OutputJSON : option DiffResult → string.
Variable OutputYAML : option DiffResult → string.
Variable World : Type.
Variable CaptureSnapshot : World → string → string → string → Result Snapshot.

Abbreviation step :=
  (step range clipboard_WriteAll now generateYAMLDiff OutputJSON OutputYAML
     World CaptureSnapshot).
Abbreviation run :=
  (run range clipboard_WriteAll now generateYAMLDiff OutputJSON OutputYAML
     World CaptureSnapshot).





End Configuration.

(** *** On the example cluster and session *)



Lemma Update_state_diagram_witness :
  let m' := set_state stateCapturingBaseline Session.start in
  let cmds := [captureBaselineCmd m'; spinner_Tick] in
  Tui.Update Scenario.range Session.clipboard_WriteAll Session.now Session.start
    (KeyMsg "c") = Ok (m', cmds)
  ∧ state m' ∈ successors (KeyMsg "c") (state Session.start)
  ∧ existsb isCapture cmds
    = negb (isCapturing (state Session.start)) && isCapturing (state m').
Proof.
  intros m' cmds.
  assert (Hu : Tui.Update Scenario.range Session.clipboard_WriteAll Session.now
                 Session.start (KeyMsg "c") = Ok (m', cmds))
    by (vm_compute; reflexivity).
  split; [exact Hu|].
  exact (Update_state_diagram Scenario.range Session.clipboard_WriteAll Session.now
           Session.start (KeyMsg "c") m' cmds Hu).
Defined.


(** In the example run the two captures differ: the diff holds an added
    and a modified Deployment, and the detail of the added one is on
    screen at the end. *)
Example example_run_detail :
  state (model RuntimeExample.afterEvents) = stateShowingResourceDetail
  ∧ (λ d, (length (Added d), length (Removed d), length (Modified d)))
      <$> diffResult (model RuntimeExample.afterEvents) = Some (1, 0, 1)
  ∧ (λ e, Name (Resource e)) <$> selectedResource (model RuntimeExample.afterEvents)
    = Some "y".
Proof. split_and!; vm_compute; reflexivity. Qed.


End RuntimeProps.

(** ** More on the presentation *)

Module TuiExtra.
Import Snap Diff Tui TuiCmd.

(** *** From a row of the table back to its entry *)

Lemma NoDup_fmap_eq {A B} (f : A → B) (l : list A) i j x y :
  NoDup (f <$> l) → l !! i = Some x → l !! j = Some y → f x = f y → i = j.
Proof.
  intros Hnd Hi Hj Hf. apply (NoDup_lookup (f <$> l) i j (f x)); [done|..].
  - by rewrite list_lookup_fmap, Hi.
  - by rewrite list_lookup_fmap, Hj, Hf.
Qed.

Lemma findIn_NoDup resources e :
  NoDup (entryKey <$> resources) → e ∈ resources →
  findIn resources (GroupVersionKind (Resource e)) (Namespace (Resource e))
    (Name (Resource e)) = Some e.
Proof.
  intros Hnd Hin. unfold findIn.
  destruct (list_find_elem_of
              (λ res, GroupVersionKind (Resource res) = GroupVersionKind (Resource e)
                      ∧ Namespace (Resource res) = Namespace (Resource e)
                      ∧ Name (Resource res) = Name (Resource e))
              resources e Hin) as [[i x] Hf]; [done|].
  rewrite Hf. simpl. f_equal.
  apply list_find_Some in Hf as (Hi & (Hg & Hn & Hname) & _).
  apply list_elem_of_lookup in Hin as [j Hj].
  assert (i = j) as ->.
  { apply (NoDup_fmap_eq entryKey resources i j x e Hnd Hi Hj).
    unfold entryKey, resourceKey. by rewrite Hg, Hn, Hname. }
  congruence.
Qed.

(** X16. The row of an entry leads back to the entry: for the diff of
    two snapshots that store their records under the key of their
    identity, looking up the row that the table shows for an entry
    finds that entry, and not another one of the same sequence. *)
Theorem findSelectedResource_row
    (range : gmap string ResourceInfo → list (string * ResourceInfo))
    (b c : Snapshot) (m : Model) (e : ResourceDiff) :
  RangeOracle range → KeyedByIdentity b → KeyedByIdentity c →
  diffResult m = Some (Compare range b c) →
  (e ∈ Added (Compare range b c) → findSelectedResource m (addedRow e) = Some e)
  ∧ (e ∈ Removed (Compare range b c) → findSelectedResource m (removedRow e) = Some e)
  ∧ (e ∈ Modified (Compare range b c) → findSelectedResource m (modifiedRow e) = Some e).
Proof.
  intros Hr Hb Hc Hd.
  destruct (DiffExtra.Compare_each_NoDup range b c Hr Hb Hc) as (Ha & Hrm & Hm).
  unfold findSelectedResource. rewrite Hd.
  split_and!; intros Hin; simpl; by apply findIn_NoDup.
Qed.

(** *** The widths of the columns *)

Lemma wrap_small x : (- 2 ^ 63 ≤ x < 2 ^ 63)%Z → wrap x = x.
Proof.
  unfold wrap. change (2 ^ 64)%Z with 18446744073709551616%Z.
  change (2 ^ 63)%Z with 9223372036854775808%Z.
  intros Hx. rewrite Z.mod_small; lia.
Qed.

(** The width of a column, where nothing wraps around. *)
Lemma column_width minWidth extra flex :
  (0 ≤ minWidth ≤ 20)%Z → (0 ≤ flex ≤ 3)%Z → (0 ≤ extra ≤ 3074457345618258602)%Z →
  int_add minWidth (int_quot (int_mul extra flex) 13) = (minWidth + extra * flex / 13)%Z.
Proof.
  intros Hm Hf He. unfold int_add, int_quot, int_mul.
  assert (Hp : (0 ≤ extra * flex ≤ 9223372036854775806)%Z) by nia.
  rewrite (wrap_small (extra * flex))
    by (change (2 ^ 63)%Z with 9223372036854775808%Z; lia).
  rewrite Z.quot_div_nonneg by lia.
  assert (Hq : (0 ≤ extra * flex / 13 ≤ 709490156681136601)%Z).
  { split; [apply Z.div_pos; lia|]. apply Z.div_le_upper_bound; lia. }
  rewrite (wrap_small (extra * flex / 13))
    by (change (2 ^ 63)%Z with 9223372036854775808%Z; lia).
  apply wrap_small. change (2 ^ 63)%Z with 9223372036854775808%Z. lia.
Qed.

(** X17. The six columns of the table after a resize to a width for
    which no operation on the 64-bit [int] wraps around, which is any
    width from 95 - 2^63 to 3074457345618258697: the titles are kept and
    no column is narrower than its minimum; from the width 95 on the
    widths add up to at most the width less 5, and to more than that
    less 6; below 95 every column has its minimum width, 90 in all. *)
Theorem adjustColumnWidths_fit (cols : list (string * Z)) (totalWidth : Z) :
  length cols = 6 →
  (95 - 2 ^ 63 ≤ totalWidth ≤ 3074457345618258697)%Z →
  let cols' := adjustColumnWidths cols totalWidth in
  cols'.*1 = cols.*1
  ∧ Forall2 Z.le minWidths cols'.*2
  ∧ ((95 ≤ totalWidth)%Z →
     (totalWidth - 5 - 6 < sumZ cols'.*2 ≤ totalWidth - 5)%Z)
  ∧ ((totalWidth < 95)%Z → cols'.*2 = minWidths).
Proof.
  intros Hlen Hw.
  change (2 ^ 63)%Z with 9223372036854775808%Z in Hw.
  destruct cols as [|[t1 w1] [|[t2 w2] [|[t3 w3] [|[t4 w4] [|[t5 w5] [|[t6 w6] [|? ?]]]]]]];
    try done.
  unfold adjustColumnWidths.
  change (sumInt minWidths) with 90%Z. change (sumInt flexFactors) with 13%Z.
  assert (Hsub : int_sub (int_sub totalWidth 90) 5 = (totalWidth - 95)%Z).
  { unfold int_sub.
    rewrite (wrap_small (totalWidth - 90))
      by (change (2 ^ 63)%Z with 9223372036854775808%Z; lia).
    rewrite wrap_small by (change (2 ^ 63)%Z with 9223372036854775808%Z; lia). lia. }
  rewrite Hsub.
  set (extra := if (totalWidth - 95 <? 0)%Z then 0%Z else (totalWidth - 95)%Z).
  assert (Hextra : (0 ≤ extra ≤ 3074457345618258602)%Z
                   ∧ ((95 ≤ totalWidth)%Z → extra = (totalWidth - 95)%Z)
                   ∧ ((totalWidth < 95)%Z → extra = 0%Z)).
  { unfold extra. destruct (Z.ltb_spec (totalWidth - 95) 0); lia. }
  destruct Hextra as (Hpos & Hwide & Hnarrow). clearbody extra.
  cbn -[int_add int_quot int_mul].
  rewrite !column_width by lia.
  change (sumZ ?l) with (foldl Z.add 0%Z l). cbn [foldl].
  split_and!.
  - done.
  - assert (Hq : ∀ f, (0 ≤ f)%Z → (0 ≤ extra * f / 13)%Z)
      by (intros; apply Z.div_pos; lia).
    pose proof (Hq 1%Z). pose proof (Hq 2%Z). pose proof (Hq 3%Z).
    repeat (constructor; [lia|]). constructor.
  - intros Hwd. rewrite (Hwide Hwd). Z.div_mod_to_equations. lia.
  - intros Hn. rewrite (Hnarrow Hn). reflexivity.
Qed.

(** Beyond that the arithmetic wraps around: at the greatest width an
    [int] holds the third column is one cell wide, less than its
    minimum of 15. *)
Example adjustColumnWidths_wraps :
  (adjustColumnWidths tableColumns (2 ^ 63 - 1)).*2 !! 2 = Some 1%Z
  ∧ (adjustColumnWidths tableColumns 3074457345618258698).*2 !! 1
    = Some (-709490156681136580)%Z.
Proof. split; vm_compute; reflexivity. Qed.

(** *** Diffing in a chain *)

Section Chain.
Variable range : gmap string ResourceInfo → list (string * ResourceInfo).
Variable clipboard_WriteAll : string → option string.
Variable now : Time.

Abbreviation updateKey := (updateKey clipboard_WriteAll now).
Abbreviation Update := (Update range clipboard_WriteAll now).

Lemma continue_key (m : Model) :
  keyMap m = DefaultKeyMap → state m = stateShowingDiff →
  updateKey m "c"
  = (set_state stateCapturingCurrent
       (set_diffOutput "" (set_diffResult None (set_current None
          (set_baseline (current m) m)))),
     [captureCurrentStateCmd
        (set_state stateCapturingCurrent
           (set_diffOutput "" (set_diffResult None (set_current None
              (set_baseline (current m) m)))));
      spinner_Tick]).
Proof.
  intros Hk Hs. unfold Tui.updateKey. rewrite Hk, Hs.
  change (key_Matches "c" (ForceQuit DefaultKeyMap)) with false.
  change (key_Matches "c" (Quit DefaultKeyMap)) with false.
  change (key_Matches "c" (Escape DefaultKeyMap)) with false.
  change (key_Matches "c" (CopyYAML DefaultKeyMap)) with false.
  change (key_Matches "c" (Help DefaultKeyMap)) with false.
  change (key_Matches "c" (ToggleView DefaultKeyMap)) with false.
  change (key_Matches "c" (FilterAll DefaultKeyMap)) with false.
  change (key_Matches "c" (FilterAdded DefaultKeyMap)) with false.
  change (key_Matches "c" (FilterRemoved DefaultKeyMap)) with false.
  change (key_Matches "c" (FilterModified DefaultKeyMap)) with false.
  change (key_Matches "c" (Capture DefaultKeyMap)) with true.
  change (key_Matches "c" (Continue DefaultKeyMap)) with true.
  change (bool_decide (stateShowingDiff = stateReady)) with false.
  change (bool_decide (stateShowingDiff = stateBaselineCaptured)) with false.
  change (bool_decide (stateShowingDiff = stateShowingDiff)) with true.
  change (bool_decide (stateShowingDiff = stateShowingResourceDetail)) with false.
  cbn [andb].
  destruct (decide (stateShowingDiff = stateShowingResourceDetail)) as [?|_]; [done|].
  change (negb (isCapturing stateShowingDiff)) with true. cbn iota.
  unfold scrollKeys.
  change (state (set_state stateCapturingCurrent ?x)) with stateCapturingCurrent.
  destruct (decide (stateCapturingCurrent = stateShowingDiff)) as [?|_]; [done|].
  destruct (decide (stateCapturingCurrent = stateShowingResourceDetail)) as [?|_]; [done|].
  reflexivity.
Qed.
(** X18. Continuing from a diff: with the default keys, [c] pressed
    while a diff is on screen makes the current snapshot the baseline,
    drops the diff and starts a capture; when that capture arrives the
    new diff compares the former current snapshot with the new one. *)
Theorem continue_rolls_baseline (m : Model) (c next : Snapshot) :
  keyMap m = DefaultKeyMap → state m = stateShowingDiff → current m = Some c →
  let m1 := (updateKey m "c").1 in
  (updateKey m "c").2 = [captureCurrentStateCmd m1; spinner_Tick]
  ∧ state m1 = stateCapturingCurrent
  ∧ baseline m1 = Some c ∧ current m1 = None ∧ diffResult m1 = None
  ∧ ∃ m2,
      Update m1 (currentStateCapturedMsg (Some next) None)
      = Ok (m2, [updateDiffOutputCmd m2])
      ∧ state m2 = stateShowingDiff
      ∧ baseline m2 = Some c ∧ current m2 = Some next
      ∧ diffResult m2 = Some (Compare range c next).
Proof.
  intros Hk Hs Hc m1. subst m1. rewrite (continue_key m Hk Hs).
  cbn [fst snd]. split_and!; [done..|].
  cbn [Tui.Update]. simpl. rewrite Hc.
  eexists. split; [reflexivity|]. done.
Qed.

End Chain.

(** *** What the detail view shows *)

Section Detail.
Variable generateYAMLDiff : string → string → string.

Abbreviation loadResourceDetail := (loadResourceDetail generateYAMLDiff).

(** X19. The detail view of an entry of a diff never meets a nil
    pointer, and shows what the entry is: for an added resource the
    manifest of the current snapshot, for a removed one the manifest of
    the baseline, and for a modified one the difference between the
    manifest that the baseline holds under the key of the entry and the
    current one. *)
Theorem loadResourceDetail_entry
    (range : gmap string ResourceInfo → list (string * ResourceInfo))
    (b c : Snapshot) (m : Model) (e : ResourceDiff) :
  RangeOracle range → KeyedByIdentity c →
  selectedResource m = Some e →
  (e ∈ Added (Compare range b c) →
   loadResourceDetail m
   = Ok (Some (resourceDetailLoadedMsg
       (detailHeader e +:+ "## Added Resource (Current Manifest)" +:+ nl +:+ nl
        +:+ Manifest (Resource e))))
   ∧ Resources c !! entryKey e = Some (Resource e))
  ∧ (e ∈ Removed (Compare range b c) →
     loadResourceDetail m
     = Ok (Some (resourceDetailLoadedMsg
         (detailHeader e +:+ "## Removed Resource (Baseline Manifest)" +:+ nl +:+ nl
          +:+ Manifest (Resource e)))))
  ∧ (e ∈ Modified (Compare range b c) →
     ∃ old,
       Resources b !! entryKey e = Some old
       ∧ Resources c !! entryKey e = Some (Resource e)
       ∧ loadResourceDetail m
         = Ok (Some (resourceDetailLoadedMsg
             (detailHeader e +:+ "## YAML Diff (- old, + new)" +:+ nl +:+ nl
              +:+ generateYAMLDiff (Manifest old) (Manifest (Resource e)))))).
Proof.
  intros Hr Hc Hsel. unfold TuiCmd.loadResourceDetail. rewrite Hsel.
  split_and!.
  - intros (k & res & Hcur & Hbase & ->)%(DiffProps.elem_of_Added range Hr).
    split; [done|]. unfold entryKey. simpl. by rewrite <- (Hc k res Hcur).
  - by intros (k & res & Hbase & Hcur & ->)%(DiffProps.elem_of_Removed range Hr).
  - intros (k & res & baseRes & Hcur & Hbase & _ & ->)%(DiffProps.elem_of_Modified range Hr).
    exists baseRes. unfold entryKey. simpl. rewrite <- (Hc k res Hcur). by split_and!.
Qed.

End Detail.

(** *** On the example session *)

Lemma session_diff_model :
  let m := Session.after Session.toDiff in
  keyMap m = DefaultKeyMap ∧ state m = stateShowingDiff
  ∧ current m = Some Scenario.current
  ∧ diffResult m = Some (Compare Scenario.range Scenario.baseline Scenario.current).
Proof. intros m. split_and!; vm_compute; reflexivity. Qed.

Lemma findSelectedResource_row_witness :
  let m := Session.after Session.toDiff in
  let d := Compare Scenario.range Scenario.baseline Scenario.current in
  let e := addedDiff Scenario.configmap in
  (RangeOracle Scenario.range ∧ KeyedByIdentity Scenario.baseline
   ∧ KeyedByIdentity Scenario.current ∧ diffResult m = Some d ∧ e ∈ Added d)
  ∧ findSelectedResource m (addedRow e) = Some e.
Proof.
  intros m d e.
  destruct session_diff_model as (_ & _ & _ & Hd).
  assert (He : e ∈ Added d) by (unfold d; rewrite DiffProps.scenario_diff; left).
  split; [split_and!; [apply DiffProps.scenario_range
                      |apply DiffProps.scenario_baseline_keyed
                      |apply DiffProps.scenario_current_keyed|exact Hd|exact He]|].
  exact (proj1 (findSelectedResource_row Scenario.range Scenario.baseline
                  Scenario.current m e DiffProps.scenario_range
                  DiffProps.scenario_baseline_keyed DiffProps.scenario_current_keyed Hd)
               He).
Defined.

Lemma adjustColumnWidths_fit_witness :
  let cols' := adjustColumnWidths tableColumns 120 in
  (length tableColumns = 6 ∧ (95 - 2 ^ 63 ≤ 120 ≤ 3074457345618258697)%Z)
  ∧ cols'.*1 = tableColumns.*1
  ∧ Forall2 Z.le minWidths cols'.*2
  ∧ ((95 ≤ 120)%Z → (120 - 5 - 6 < sumZ cols'.*2 ≤ 120 - 5)%Z)
  ∧ ((120 < 95)%Z → cols'.*2 = minWidths).
Proof.
  intros cols'.
  assert (Hw : (95 - 2 ^ 63 ≤ 120 ≤ 3074457345618258697)%Z) by (split; discriminate).
  split; [split; [reflexivity|exact Hw]|].
  exact (adjustColumnWidths_fit tableColumns 120 eq_refl Hw).
Defined.

Lemma continue_rolls_baseline_witness :
  let m := Session.after Session.toDiff in
  let m1 := (Tui.updateKey Session.clipboard_WriteAll Session.now m "c").1 in
  (keyMap m = DefaultKeyMap ∧ state m = stateShowingDiff
   ∧ current m = Some Scenario.current)
  ∧ state m1 = stateCapturingCurrent
  ∧ baseline m1 = Some Scenario.current
  ∧ ∃ m2,
      Tui.Update Scenario.range Session.clipboard_WriteAll Session.now m1
        (currentStateCapturedMsg (Some Scenario.baseline) None)
      = Ok (m2, [updateDiffOutputCmd m2])
      ∧ state m2 = stateShowingDiff
      ∧ baseline m2 = Some Scenario.current ∧ current m2 = Some Scenario.baseline
      ∧ diffResult m2
        = Some (Compare Scenario.range Scenario.current Scenario.baseline).
Proof.
  intros m m1.
  destruct session_diff_model as (Hk & Hs & Hc & _).
  split; [by split_and!|].
  destruct (continue_rolls_baseline Scenario.range Session.clipboard_WriteAll
              Session.now m Scenario.current Scenario.baseline Hk Hs Hc)
    as (_ & Hs1 & Hb1 & _ & _ & Hnext).
  split_and!; [exact Hs1|exact Hb1|exact Hnext].
Defined.

Lemma loadResourceDetail_entry_witness :
  let m := Session.after Session.toDetail in
  let e := addedDiff Scenario.configmap in
  (RangeOracle Scenario.range ∧ KeyedByIdentity Scenario.current
   ∧ selectedResource m = Some e
   ∧ e ∈ Added (Compare Scenario.range Scenario.baseline Scenario.current))
  ∧ TuiCmd.loadResourceDetail RuntimeExample.generateYAMLDiff m
    = Ok (Some (resourceDetailLoadedMsg
        (detailHeader e +:+ "## Added Resource (Current Manifest)" +:+ nl +:+ nl
         +:+ Manifest (Resource e))))
  ∧ Resources Scenario.current !! entryKey e = Some (Resource e).
Proof.
  intros m e.
  assert (Hsel : selectedResource m = Some e) by (vm_compute; reflexivity).
  assert (He : e ∈ Added (Compare Scenario.range Scenario.baseline Scenario.current))
    by (rewrite DiffProps.scenario_diff; left).
  split; [split_and!; [apply DiffProps.scenario_range
                      |apply DiffProps.scenario_current_keyed|exact Hsel|exact He]|].
  exact (proj1 (loadResourceDetail_entry RuntimeExample.generateYAMLDiff Scenario.range
                  Scenario.baseline Scenario.current m e DiffProps.scenario_range
                  DiffProps.scenario_current_keyed Hsel) He).
Defined.

End TuiExtra.

(** ** The line dialog *)

Module DialogProps.
Import Dialog.

Lemma decisive_iff line :
  decisive line ↔
  command line = "continue" ∨ command line = "exit" ∨ command line = "quit".
Proof.
  unfold decisive. rewrite !elem_of_cons, elem_of_nil. tauto.
Qed.

Lemma prompts_app printed more :
  prompts (printed ++ more) = prompts printed + prompts more.
Proof. unfold prompts. by rewrite filter_app, length_app. Qed.

Lemma prompts_prompt printed : prompts (printed ++ ["> "]) = S (prompts printed).
Proof. rewrite prompts_app. change (prompts ["> "]) with 1. lia. Qed.

Lemma prompts_hint printed : prompts (printed ++ [hint]) = prompts printed.
Proof. rewrite prompts_app. change (prompts [hint]) with 0. lia. Qed.

Lemma waitLoop_spec lines printed :
  match list_find decisive lines with
  | Some (i, line) =>
      (waitLoop lines printed).2
      = (if bool_decide (command line = "continue") then Ok tt
         else Err "diff process canceled by user")
      ∧ prompts (waitLoop lines printed).1 = prompts printed + S i
  | None =>
      (waitLoop lines printed).2 = Err "error reading input: EOF"
      ∧ prompts (waitLoop lines printed).1 = prompts printed + S (length lines)
  end.
Proof.
  revert printed. induction lines as [|line lines IH]; intros printed.
  - cbn [list_find waitLoop fst snd length]. rewrite prompts_prompt. split; [done|lia].
  - cbn [list_find waitLoop]. fold (command line).
    destruct (decide (decisive line)) as [Hd|Hd].
    + apply decisive_iff in Hd.
      case_bool_decide as Hc; simpl.
      * rewrite prompts_prompt. split; [done|lia].
      * destruct Hd as [?|Hd]; [done|].
        assert (bool_decide (command line = "exit") || bool_decide (command line = "quit")
                = true) as ->.
        { destruct Hd as [-> | ->]; done. }
        simpl. rewrite prompts_prompt. split; [done|lia].
    + assert (Hn : ¬ (command line = "continue" ∨ command line = "exit"
                      ∨ command line = "quit")) by (by rewrite <- decisive_iff).
      rewrite bool_decide_eq_false_2 by tauto.
      rewrite (bool_decide_eq_false_2 (command line = "exit")) by tauto.
      rewrite (bool_decide_eq_false_2 (command line = "quit")) by tauto.
      cbn [orb].
      assert (Hrest : ∀ printed',
                prompts printed' = S (prompts printed) →
                match prod_map S id <$> list_find decisive lines with
                | Some (i, line0) =>
                    (waitLoop lines printed').2
                    = (if bool_decide (command line0 = "continue") then Ok tt
                       else Err "diff process canceled by user")
                    ∧ prompts (waitLoop lines printed').1 = prompts printed + S i
                | None =>
                    (waitLoop lines printed').2 = Err "error reading input: EOF"
                    ∧ prompts (waitLoop lines printed').1
                      = prompts printed + S (length (line :: lines))
                end).
      { intros printed' Hp. specialize (IH printed').
        destruct (list_find decisive lines) as [[i line0]|]; simpl in *;
          destruct IH as [-> ->]; split; try done; lia. }
      case_bool_decide; apply Hrest; by rewrite ?prompts_hint, prompts_prompt.
Qed.

(** X20. The dialog: the lines are read one by one up to the first that
    says [continue], [exit] or [quit], in any case and with white space
    around it; the result is success for [continue] and the error of a
    cancelled diff for the other two, and no later line is read.
    Without such a line the result is the error of reading past the end
    of the input.  One prompt is printed for every attempt to read.
    The lines are taken to be ASCII text, on which trimming and
    lower-casing are embedded as Go has them. *)
Theorem WaitForUserAction_spec (lines : list string) :
  Forall (λ line, ascii7 line = true) lines →
  match list_find decisive lines with
  | Some (i, line) =>
      (WaitForUserAction lines).2
      = (if bool_decide (command line = "continue") then Ok tt
         else Err "diff process canceled by user")
      ∧ prompts (WaitForUserAction lines).1 = S i
      ∧ WaitForUserAction lines = WaitForUserAction (take (S i) lines)
  | None =>
      (WaitForUserAction lines).2 = Err "error reading input: EOF"
      ∧ prompts (WaitForUserAction lines).1 = S (length lines)
  end.
Proof.
  intros _. unfold WaitForUserAction.
  pose proof (waitLoop_spec lines
                ["Execute your command(s) and type 'continue' when done."]) as Hs.
  destruct (list_find decisive lines) as [[i line]|] eqn:Hf; [|done].
  destruct Hs as [Hr Hp]. split_and!; [done|done|].
  apply list_find_Some in Hf as (Hi & Hd & Hbefore).
  clear Hr Hp.
  generalize ["Execute your command(s) and type 'continue' when done."].
  revert i Hi Hbefore. induction lines as [|l lines IH]; intros i Hi Hbefore printed; [done|].
  destruct i as [|i]; simpl in Hi.
  - injection Hi as ->. apply decisive_iff in Hd. cbn [take waitLoop].
    fold (command line). 
    destruct Hd as [-> | [-> | ->]]; done.
  - assert (Hl : ¬ decisive l) by (apply (Hbefore 0); [done|lia]).
    rewrite decisive_iff in Hl.
    cbn [take waitLoop]. fold (command l).
    rewrite bool_decide_eq_false_2 by tauto.
    rewrite (bool_decide_eq_false_2 (command l = "exit")) by tauto.
    rewrite (bool_decide_eq_false_2 (command l = "quit")) by tauto.
    cbn [orb].
    assert (Hb' : ∀ j y, lines !! j = Some y → j < i → ¬ decisive y)
      by (intros j y Hj Hlt; apply (Hbefore (S j)); [done|lia]).
    case_bool_decide; by apply IH.
Qed.

Lemma WaitForUserAction_spec_witness :
  let lines := ["kubectl apply -f app.yaml"; ""; "  Continue "; "exit"] in
  Forall (λ line, ascii7 line = true) lines
  ∧ (WaitForUserAction lines).2 = Ok tt
  ∧ prompts (WaitForUserAction lines).1 = 3
  ∧ WaitForUserAction lines = WaitForUserAction (take 3 lines).
Proof.
  intros lines.
  assert (Ha : Forall (λ line, ascii7 line = true) lines) by (by repeat constructor).
  split; [exact Ha|].
  exact (WaitForUserAction_spec lines Ha).
Defined.

End DialogProps.

(** ** The client of the first design *)

Module LegacyProps.
Import K8s LegacyClient.

Section Generic.
Context `{RegexpLib}.
Variable schema_ParseGroupVersion : string → option (string * string).

Abbreviation GetAPIResources := (GetAPIResources schema_ParseGroupVersion).
Abbreviation keptOf := (keptOf schema_ParseGroupVersion).

Lemma foldl_keepResource ignorePattern gv acc rs :
  foldl (keepResource ignorePattern gv) acc rs
  = acc ++ ((λ r, {| resource := r; Group := gv.1; Version := gv.2 |})
             <$> filter (λ r, "list" ∈ Verbs r
                              ∧ ignored ignorePattern (ResourceKind r) = false) rs).
Proof.
  revert acc. induction rs as [|r rs IH]; intros acc; simpl.
  - by rewrite app_nil_r.
  - rewrite IH, filter_cons. unfold keepResource.
    destruct (containsString (Verbs r) "list") eqn:Hl; simpl.
    + apply CaptureExtra.containsString_elem_of in Hl.
      destruct (ignored ignorePattern (ResourceKind r)) eqn:Hi.
      * by rewrite decide_False by (by intros [_ ?]).
      * rewrite decide_True by done. csimpl. by rewrite <- app_assoc.
    + rewrite decide_False; [done|].
      intros [Hin%CaptureExtra.containsString_elem_of _]. congruence.
Qed.

Lemma foldl_keepList ignorePattern acc lists :
  foldl (keepList schema_ParseGroupVersion ignorePattern) acc lists
  = acc ++ (lists ≫= keptOf ignorePattern).
Proof.
  revert acc. induction lists as [|l lists IH]; intros acc; simpl.
  - by rewrite app_nil_r.
  - rewrite IH. unfold keepList, LegacyClient.keptOf at 2.
    destruct (schema_ParseGroupVersion (GroupVersion l)) as [gv|]; csimpl.
    + by rewrite foldl_keepResource, <- app_assoc.
    + done.
Qed.

(** X22. [GetAPIResources] of the first client: when discovery returns
    no error, the result holds, list by list and in the order of the
    answer, the resources that offer the verb [list] and whose [Kind]
    alone the ignore pattern does not match, each with the group and the
    version of its list; the lists whose label does not parse are
    skipped.  Unlike [DiscoverResources] it fails on every error of
    discovery, also when only some groups failed. *)
Theorem GetAPIResources_spec (c : Client) (ignorePattern : option Regexp)
    (rf : Filter.ResourceFilter) :
  match (ServerGroupsAndResources c).2 with
  | None =>
      GetAPIResources c ignorePattern
      = Ok ((ServerGroupsAndResources c).1 ≫= keptOf ignorePattern)
  | Some err =>
      GetAPIResources c ignorePattern = Err "failed to get server resources"
      ∧ (err = GroupDiscoveryFailed → Filter.IncludePatterns rf = [] →
         isOk (DiscoverResources c (Some rf)) = true)
  end.
Proof.
  unfold LegacyClient.GetAPIResources.
  destruct (ServerGroupsAndResources c) as [lists [err|]] eqn:Hc; simpl.
  - split; [done|]. intros -> Hi.
    pose proof (CaptureExtra.DiscoverResources_discovered c rf Hi) as Hd.
    rewrite Hc in Hd. by rewrite Hd.
  - by rewrite foldl_keepList.
Qed.

End Generic.

End LegacyProps.

(** ** Listing the resources of a type *)

Module K8sListProps.
Import K8s K8sList.

(** *** Splitting a label at its slashes *)

Lemma strings_Split_cons s : ∃ part parts, strings_Split s = part :: parts.
Proof.
  induction s as [|c s (part & parts & IH)]; simpl; [by eauto|].
  case_bool_decide; [by eauto|]. rewrite IH. by eauto.
Qed.

Lemma strings_Split_noSlash s : noSlash s = true → strings_Split s = [s].
Proof.
  induction s as [|c s IH]; simpl; [done|].
  intros [Hc Hs]%andb_true_iff. apply negb_true_iff in Hc. rewrite Hc.
  by rewrite (IH Hs).
Qed.

Lemma strings_Split_label gv kind :
  noSlash kind = true →
  strings_Split (gv +:+ "/" +:+ kind) = strings_Split gv ++ [kind].
Proof.
  intros Hk. induction gv as [|c gv IH]; simpl.
  - by rewrite strings_Split_noSlash.
  - rewrite IH. case_bool_decide; [done|].
    by destruct (strings_Split_cons gv) as (part & parts & ->).
Qed.

Lemma strings_Join_cons e part parts sep :
  Filter.strings_Join (e :: part :: parts) sep
  = e +:+ sep +:+ Filter.strings_Join (part :: parts) sep.
Proof. reflexivity. Qed.

Lemma strings_Join_Split s : Filter.strings_Join (strings_Split s) "/" = s.
Proof.
  induction s as [|c s IH]; [done|]. cbn [strings_Split].
  destruct (strings_Split_cons s) as (part & parts & Hs). rewrite Hs in IH |- *.
  case_bool_decide as Hc.
  - subst c. rewrite strings_Join_cons, IH. done.
  - destruct parts as [|p parts].
    + simpl in *. by rewrite IH.
    + rewrite strings_Join_cons in IH |- *. rewrite <- IH. reflexivity.
Qed.

Lemma ListResources_label c gv kind namespace :
  noSlash kind = true →
  ListResources c (gv +:+ "/" +:+ kind) namespace
  = listKind c (gv +:+ "/" +:+ kind) gv kind namespace.
Proof.
  intros Hk. unfold ListResources. rewrite strings_Split_label by done.
  destruct (strings_Split_cons gv) as (part & parts & Hs).
  rewrite length_app, last_snoc. simpl.
  replace (length (strings_Split gv) + 1 - 1) with (length (strings_Split gv)) by lia.
  rewrite take_app_length, strings_Join_Split.
  rewrite Hs. simpl. replace (length parts + 1) with (S (length parts)) by lia. done.
Qed.

(** X23. What [ListResources] makes of a label: a label without a slash
    is refused; a label [gv/Kind], as discovery builds it from a kind
    without a slash, is split at its last slash, so that the kind is
    looked up among the resources of the group version [gv]. *)
Theorem ListResources_parse (c : Cluster) (gv kind namespace : string) :
  noSlash kind = true →
  ListResources c kind namespace = Err ("invalid resource type format: " +:+ kind)
  ∧ ListResources c (gv +:+ "/" +:+ kind) namespace
    = listKind c (gv +:+ "/" +:+ kind) gv kind namespace.
Proof.
  intros Hk. split; [|by apply ListResources_label].
  unfold ListResources. by rewrite strings_Split_noSlash.
Qed.

(** X24. The namespace of the call matters for namespaced resources
    only: a type whose API resource is cluster-scoped is listed over the
    whole cluster whatever the namespace, and with the empty namespace
    every type is. *)
Theorem ListResources_cluster_scoped
    (c : Cluster) (gv kind namespace : string)
    (apiResources : list APIResource) (i : nat) (resource : APIResource) :
  noSlash kind = true →
  ServerResourcesForGroupVersion c gv = Some apiResources →
  list_find (λ r, ResourceKind r = kind) apiResources = Some (i, resource) →
  Namespaced resource = false →
  ListResources c (gv +:+ "/" +:+ kind) namespace
  = ListResources c (gv +:+ "/" +:+ kind) "".
Proof.
  intros Hk Hrs Hfind Hns. rewrite !ListResources_label by done.
  unfold listKind. by rewrite Hrs, Hfind, Hns.
Qed.

(** X25. What is listed for the label [gv/kind]: the items that the
    cluster returns for the first resource of the group version [gv]
    with that kind, in the namespace of the call when the resource is
    namespaced and the namespace is not empty, and over the whole
    cluster otherwise.  There is one resource for each item, in their
    order, with the API version, the kind, the name, the namespace, the
    UID, the version token and the creation time of the item; the
    labels and the annotations of an item are not copied, so that the
    metadata of a listed resource is written to JSON without them; the
    spec and the status are there when the object of the item holds a
    map under [spec] and under [status]. *)
Theorem ListResources_items
    (range : gmap string (option string) → list (string * option string))
    (c : Cluster) (gv kind namespace : string) (resources : list Resource) :
  noSlash kind = true →
  ListResources c (gv +:+ "/" +:+ kind) namespace = Ok resources →
  ∃ apiResources i resource group version items,
    ServerResourcesForGroupVersion c gv = Some apiResources
    ∧ list_find (λ r, ResourceKind r = kind) apiResources = Some (i, resource)
    ∧ schema_ParseGroupVersion c gv = Some (group, version)
    ∧ List c (group, version, ResourceName resource)
        (if Namespaced resource && bool_decide (namespace ≠ "")
         then Some namespace else None)
      = Some items
    ∧ Forall2 (λ res item,
        ApiVersion res = GetAPIVersion item
        ∧ Kind res = GetKind item
        ∧ Name (Meta res) = GetName item
        ∧ Namespace (Meta res) = GetNamespace item
        ∧ UID (Meta res) = GetUID item
        ∧ ResourceVersion (Meta res) = GetResourceVersion item
        ∧ CreationTimestamp (Meta res) = GetCreationTimestamp item
        ∧ Labels (Meta res) = ∅ ∧ Annotations (Meta res) = ∅
        ∧ Spec res = match Object item !! "spec" with
                     | Some (Json.VMap m) => Some m
                     | _ => None
                     end
        ∧ Status res = match Object item !! "status" with
                       | Some (Json.VMap m) => Some m
                       | _ => None
                       end
        ∧ marshalMetadata range (Meta res)
          = marshalStruct (
              [("name", Some (Json.quote (GetName item)))]
              ++ omitEmptyString "namespace" (GetNamespace item)
              ++ [("uid", Some (Json.quote (GetUID item)));
                  ("resourceVersion", Some (Json.quote (GetResourceVersion item)));
                  ("creationTimestamp",
                   Some (Json.quote (GetCreationTimestamp item)))]))
        resources items.
Proof.
  intros Hk. rewrite ListResources_label by done. unfold listKind.
  destruct (ServerResourcesForGroupVersion c gv) as [apiResources|]; [|done].
  destruct (list_find _ apiResources) as [[i resource]|] eqn:Hfind; [|done].
  destruct (schema_ParseGroupVersion c gv) as [[group version]|]; [|done].
  intros Hl. exists apiResources, i, resource, group, version.
  assert (Hitems : ∃ items,
            List c (group, version, ResourceName resource)
              (if Namespaced resource && bool_decide (namespace ≠ "")
               then Some namespace else None) = Some items
            ∧ resources = toResource <$> items).
  { destruct (Namespaced resource && bool_decide (namespace ≠ ""));
      destruct (List c _ _) as [items|]; try done; injection Hl as <-; by exists items. }
  destruct Hitems as (items & Hlist & ->). exists items.
  split_and!; [done..|].
  apply Forall2_fmap_l, Forall_Forall2_diag, Forall_forall. intros item _.
  by split_and!.
Qed.

Lemma ListResources_parse_witness :
  let c := {| ServerResourcesForGroupVersion := λ _, None;
              schema_ParseGroupVersion := λ _, None;
              List := λ _ _, None |} in
  noSlash "Deployment" = true
  ∧ ListResources c "Deployment" "myapp"
    = Err ("invalid resource type format: " +:+ "Deployment")
  ∧ ListResources c ("apps/v1" +:+ "/" +:+ "Deployment") "myapp"
    = listKind c ("apps/v1" +:+ "/" +:+ "Deployment") "apps/v1" "Deployment" "myapp".
Proof.
  intros c. split; [reflexivity|].
  exact (ListResources_parse c "apps/v1" "Deployment" "myapp" eq_refl).
Defined.

Lemma ListResources_cluster_scoped_witness :
  let c := ListExample.cluster in
  (noSlash "Namespace" = true
   ∧ ServerResourcesForGroupVersion c "v1" = Some [ListExample.namespaces]
   ∧ list_find (λ r, ResourceKind r = "Namespace") [ListExample.namespaces]
     = Some (0, ListExample.namespaces)
   ∧ Namespaced ListExample.namespaces = false)
  ∧ ListResources c ("v1" +:+ "/" +:+ "Namespace") "myapp"
    = ListResources c ("v1" +:+ "/" +:+ "Namespace") "".
Proof.
  intros c. split; [by split_and!|].
  exact (ListResources_cluster_scoped c "v1" "Namespace" "myapp"
           [ListExample.namespaces] 0 ListExample.namespaces
           eq_refl eq_refl eq_refl eq_refl).
Defined.

Lemma ListResources_items_witness :
  let listed := [toResource ListExample.item] in
  (noSlash "Namespace" = true
   ∧ ListResources ListExample.cluster ("v1" +:+ "/" +:+ "Namespace") "myapp"
     = Ok listed)
  ∧ ∃ apiResources i resource group version items,
      ServerResourcesForGroupVersion ListExample.cluster "v1" = Some apiResources
      ∧ list_find (λ r, ResourceKind r = "Namespace") apiResources = Some (i, resource)
      ∧ schema_ParseGroupVersion ListExample.cluster "v1" = Some (group, version)
      ∧ List ListExample.cluster (group, version, ResourceName resource)
          (if Namespaced resource && bool_decide ("myapp" ≠ "")
           then Some "myapp" else None)
        = Some items
      ∧ Forall2 (λ res item,
          ApiVersion res = GetAPIVersion item
          ∧ Kind res = GetKind item
          ∧ Name (Meta res) = GetName item
          ∧ Namespace (Meta res) = GetNamespace item
          ∧ UID (Meta res) = GetUID item
          ∧ ResourceVersion (Meta res) = GetResourceVersion item
          ∧ CreationTimestamp (Meta res) = GetCreationTimestamp item
          ∧ Labels (Meta res) = ∅ ∧ Annotations (Meta res) = ∅
          ∧ Spec res = match Object item !! "spec" with
                       | Some (Json.VMap m) => Some m
                       | _ => None
                       end
          ∧ Status res = match Object item !! "status" with
                         | Some (Json.VMap m) => Some m
                         | _ => None
                         end
          ∧ marshalMetadata SpecExample.forward (Meta res)
            = marshalStruct (
                [("name", Some (Json.quote (GetName item)))]
                ++ omitEmptyString "namespace" (GetNamespace item)
                ++ [("uid", Some (Json.quote (GetUID item)));
                    ("resourceVersion", Some (Json.quote (GetResourceVersion item)));
                    ("creationTimestamp",
                     Some (Json.quote (GetCreationTimestamp item)))]))
          listed items.
Proof.
  intros listed.
  assert (Hl : ListResources ListExample.cluster ("v1" +:+ "/" +:+ "Namespace") "myapp"
               = Ok listed)
    by (vm_compute; reflexivity).
  split; [split; [reflexivity|exact Hl]|].
  exact (ListResources_items SpecExample.forward ListExample.cluster "v1" "Namespace"
           "myapp" listed eq_refl Hl).
Defined.

End K8sListProps.

(** ** Copying a manifest *)

Module CopyProps.
Import Snap Diff Tui.

Section Copy.
Variable range : gmap string ResourceInfo → list (string * ResourceInfo).
Variable clipboard_WriteAll : string → option string.
Variable now : Time.

Abbreviation updateKey := (updateKey clipboard_WriteAll now).

Lemma yamlToCopy_entry b c e :
  RangeOracle range →
  e ∈ Added (Compare range b c) ++ Removed (Compare range b c)
      ++ Modified (Compare range b c) →
  Manifest (Resource e) ≠ "" →
  yamlToCopy e = Manifest (Resource e).
Proof.
  intros Hr Hin Hm. rewrite !elem_of_app in Hin.
  destruct Hin as [Hin|[Hin|Hin]].
  - by apply (DiffProps.elem_of_Added range Hr) in Hin as (k & res & _ & _ & ->).
  - by apply (DiffProps.elem_of_Removed range Hr) in Hin as (k & res & _ & _ & ->).
  - apply (DiffProps.elem_of_Modified range Hr) in Hin
      as (k & res & baseRes & _ & _ & _ & ->).
    unfold yamlToCopy. simpl in *. by rewrite bool_decide_eq_true_2.
Qed.

Lemma copy_key (m : Model) (sel : ResourceDiff) :
  keyMap m = DefaultKeyMap → state m = stateShowingResourceDetail →
  selectedResource m = Some sel → yamlToCopy sel ≠ "" →
  updateKey m "y"
  = showStatus now
      match clipboard_WriteAll (yamlToCopy sel) with
      | None => "✓ YAML copied to clipboard"
      | Some err => "✗ Failed to copy to clipboard: " +:+ err
      end m.
Proof.
  intros Hk Hs Hsel Hy. unfold Tui.updateKey. rewrite Hk, Hs, Hsel.
  change (key_Matches "y" (ForceQuit DefaultKeyMap)) with false.
  change (key_Matches "y" (Quit DefaultKeyMap)) with false.
  change (key_Matches "y" (Escape DefaultKeyMap)) with false.
  change (key_Matches "y" (CopyYAML DefaultKeyMap)) with true.
  cbn [andb].
  destruct (decide (stateShowingResourceDetail = stateShowingResourceDetail)) as [_|?];
    [|done].
  rewrite bool_decide_eq_true_2 by done.
  by destruct (clipboard_WriteAll (yamlToCopy sel)).
Qed.

(** X26. The copy key in the detail view: with the default keys, [y]
    pressed on an entry of a diff whose displayed record has a manifest
    hands exactly that manifest to the clipboard, stays in the detail
    view with the same selection, shows for three seconds whether the
    clipboard took it, and schedules the message to be cleared. *)
Theorem copy_selected_manifest
    (b c : Snapshot) (m : Model) (e : ResourceDiff) :
  RangeOracle range →
  e ∈ Added (Compare range b c) ++ Removed (Compare range b c)
      ++ Modified (Compare range b c) →
  keyMap m = DefaultKeyMap → state m = stateShowingResourceDetail →
  selectedResource m = Some e → Manifest (Resource e) ≠ "" →
  let m' := (updateKey m "y").1 in
  (updateKey m "y").2 = [hideStatusMessageCmd 3]
  ∧ state m' = stateShowingResourceDetail ∧ selectedResource m' = Some e
  ∧ statusMessageTime m' = (now + three_seconds)%Z
  ∧ statusMessage m'
    = match clipboard_WriteAll (Manifest (Resource e)) with
      | None => "✓ YAML copied to clipboard"
      | Some err => "✗ Failed to copy to clipboard: " +:+ err
      end.
Proof.
  intros Hr Hin Hk Hs Hsel Hm m'.
  pose proof (yamlToCopy_entry b c e Hr Hin Hm) as Hy.
  subst m'. rewrite (copy_key m e Hk Hs Hsel) by (by rewrite Hy).
  rewrite Hy. unfold showStatus. simpl. by split_and!.
Qed.

End Copy.

Lemma copy_selected_manifest_witness :
  let m := Session.after Session.toDetail in
  let e := addedDiff Scenario.configmap in
  let d := Compare Scenario.range Scenario.baseline Scenario.current in
  let m' := (Tui.updateKey Session.clipboard_WriteAll Session.now m "y").1 in
  (RangeOracle Scenario.range ∧ e ∈ Added d ++ Removed d ++ Modified d
   ∧ keyMap m = DefaultKeyMap ∧ state m = stateShowingResourceDetail
   ∧ selectedResource m = Some e ∧ Manifest (Resource e) ≠ "")
  ∧ (Tui.updateKey Session.clipboard_WriteAll Session.now m "y").2
    = [hideStatusMessageCmd 3]
  ∧ state m' = stateShowingResourceDetail ∧ selectedResource m' = Some e
  ∧ statusMessageTime m' = (Session.now + three_seconds)%Z
  ∧ statusMessage m'
    = match Session.clipboard_WriteAll (Manifest (Resource e)) with
      | None => "✓ YAML copied to clipboard"
      | Some err => "✗ Failed to copy to clipboard: " +:+ err
      end.
Proof.
  intros m e d m'.
  assert (He : e ∈ Added d ++ Removed d ++ Modified d)
    by (unfold d; rewrite DiffProps.scenario_diff; left).
  assert (Hk : keyMap m = DefaultKeyMap) by (vm_compute; reflexivity).
  assert (Hs : state m = stateShowingResourceDetail) by (vm_compute; reflexivity).
  assert (Hsel : selectedResource m = Some e) by (vm_compute; reflexivity).
  assert (Hm : Manifest (Resource e) ≠ "") by done.
  split; [by split_and!; try apply DiffProps.scenario_range|].
  exact (copy_selected_manifest Scenario.range Session.clipboard_WriteAll Session.now
           Scenario.baseline Scenario.current m e DiffProps.scenario_range He Hk Hs
           Hsel Hm).
Defined.

End CopyProps.
